(** * cross-tab: the channel/transport core of [src/core.ts]

    A shallow embedding of the TypeScript module [core.ts] and the proofs of
    the properties its specification states.

    The module is stateful JavaScript: module-level variables ([tabId],
    [transports], [transportRefs]), objects shared by reference (one
    transport object used by several channels, listener closures that
    capture their channel), browser storage, and exceptions that are caught
    at every fallible call.  The embedding therefore is

    - a [World] record holding the module variables, the browser storages,
      two object stores (transport objects, channel objects) addressed by
      allocation index, the window's registered [storage] handlers, and a
      trace of the callback invocations made so far;
    - a state monad [M] whose computations end in [Ret] (normal return) or
      [Exn] (a thrown exception), the state surviving a throw as in
      JavaScript, with [try_] for the source's [try { } catch { }];
    - an [Env] record for what the platform and the consumers decide:
      which capabilities exist, which platform calls throw, what
      [JSON.parse] and [JSON.stringify] compute, which consumer callback
      throws.

    The React hook of [hooks/useCrossTabState.ts] is embedded over the same
    state: its two module-level maps, the [useRef] cells of each call site,
    and the three closures of the hook (the body of the second effect, the
    cleanup it returns, the setter) as computations of a monad [HM] over
    the larger state.  React's scheduling and the rendered state are not
    modelled; the calls of [setState] the hook makes itself are recorded. *)

From Stdlib Require Import ZArith Ascii String List Lia Bool.
From stdpp Require Import base option list gmap strings pretty.

Set Warnings "-register-all".

Local Open Scope string_scope.
Local Open Scope Z_scope.
Local Open Scope list_scope.

(** ** JavaScript values *)

(** The values that travel through a channel: JSON-compatible data plus
    [undefined].  Numbers are JavaScript doubles in the source; the model
    keeps the integers, which covers the timestamps the module produces. *)
Inductive JsVal : Type :=
| VUndef
| VNull
| VBool (b : bool)
| VNum (n : Z)
| VStr (s : string)
| VArr (items : list JsVal)
| VObj (fields : list (string * JsVal)).

(** JavaScript truthiness, as used by [if (x)] and [x && y]. *)
Definition truthy (v : JsVal) : bool :=
  match v with
  | VUndef | VNull => false
  | VBool b => b
  | VNum n => negb (n =? 0)
  | VStr s => negb (String.eqb s "")
  | VArr _ | VObj _ => true
  end.

Definition truthy_str (s : string) : bool := negb (String.eqb s "").

(** [typeof v === 'object'] (true of [null], arrays and objects). *)
Definition typeof_object (v : JsVal) : bool :=
  match v with
  | VNull | VArr _ | VObj _ => true
  | _ => false
  end.

Definition is_undefined (v : JsVal) : bool :=
  match v with VUndef => true | _ => false end.

Definition is_null (v : JsVal) : bool :=
  match v with VNull => true | _ => false end.

Fixpoint assoc (k : string) (l : list (string * JsVal)) : option JsVal :=
  match l with
  | [] => None
  | (k', v) :: l' => if String.eqb k k' then Some v else assoc k l'
  end.

(** Property read [v.k] for the data properties the module reads
    ([value], [key], [tabId]): own property of an object, [undefined]
    otherwise. The source guards every read so that [v] is never [null] or
    [undefined]. *)
Definition get_prop (k : string) (v : JsVal) : JsVal :=
  match v with
  | VObj fields => default VUndef (assoc k fields)
  | _ => VUndef
  end.

(** [v === s] for a string [s]. *)
Definition strict_eq_str (v : JsVal) (s : string) : bool :=
  match v with
  | VStr s' => String.eqb s' s
  | _ => false
  end.

(** [s.trim()] is non-empty: some character is not white space. White space
    is read at the Latin-1 code points of ECMAScript's WhiteSpace and
    LineTerminator. *)
Definition is_js_space (c : ascii) : bool :=
  let n := nat_of_ascii c in
  ((9 <=? n)%nat && (n <=? 13)%nat) || (n =? 32)%nat || (n =? 160)%nat.

Fixpoint trim_truthy (s : string) : bool :=
  match s with
  | EmptyString => false
  | String c s' => negb (is_js_space c) || trim_truthy s'
  end.

(** ** Results of JavaScript calls *)

Inductive Outcome (A : Type) : Type :=
| Ret (a : A)
| Exn.
Arguments Ret {A} a.
Arguments Exn {A}.

(** ** A JSON codec

    [JSON.stringify] and [JSON.parse] are platform functions; the program
    below takes them from its environment, and the theorems hold for every
    environment.  This module is one such pair, following ECMA-404 on the
    fragment of [JsVal] (integers for numbers, Latin-1 strings); a text
    outside the fragment (a fraction, an exponent, an escape above
    [\u00ff]) is refused.  The concrete scenarios at the end of the file
    run with it. *)
Module JSON.

Definition dq : ascii := "034"%char.
Definition bsl : ascii := "092"%char.

Definition quoted (s : string) : string := String dq (s +:+ String dq "").

Definition hex_char (n : N) : ascii :=
  match n with
  | 0 => "0" | 1 => "1" | 2 => "2" | 3 => "3" | 4 => "4" | 5 => "5"
  | 6 => "6" | 7 => "7" | 8 => "8" | 9 => "9" | 10 => "a" | 11 => "b"
  | 12 => "c" | 13 => "d" | 14 => "e" | _ => "f"
  end%char%N.

Definition escape_char (c : ascii) : string :=
  let n := N_of_ascii c in
  if (n =? 34)%N then String bsl (String dq "")
  else if (n =? 92)%N then String bsl (String bsl "")
  else if (n =? 8)%N then String bsl "b"
  else if (n =? 12)%N then String bsl "f"
  else if (n =? 10)%N then String bsl "n"
  else if (n =? 13)%N then String bsl "r"
  else if (n =? 9)%N then String bsl "t"
  else if (n <? 32)%N then
    String bsl ("u00" +:+ String (hex_char (n / 16)) (String (hex_char (n mod 16)) ""))
  else String c "".

Fixpoint escape (s : string) : string :=
  match s with
  | EmptyString => ""
  | String c s' => escape_char c +:+ escape s'
  end.

Fixpoint join (sep : string) (l : list string) : string :=
  match l with
  | [] => ""
  | [x] => x
  | x :: l' => x +:+ sep +:+ join sep l'
  end.

(** [JSON.stringify v].  Inside an array [undefined] prints as [null];
    an object property whose value is [undefined] is left out.  At the top
    level the platform returns [undefined] for [undefined]; the program
    only tests that result for truthiness and against the text
    [undefined], and both tests agree on the text and on the value, so the
    text stands for it here. *)
Fixpoint print (v : JsVal) : string :=
  match v with
  | VUndef => "undefined"
  | VNull => "null"
  | VBool true => "true"
  | VBool false => "false"
  | VNum n => pretty n
  | VStr s => quoted (escape s)
  | VArr items =>
      "[" +:+ join ","
        ((fix items_go (l : list JsVal) : list string :=
            match l with
            | [] => []
            | x :: l' => (if is_undefined x then "null" else print x) :: items_go l'
            end) items) +:+ "]"
  | VObj fields =>
      "{" +:+ join ","
        ((fix members_go (l : list (string * JsVal)) : list string :=
            match l with
            | [] => []
            | (k, x) :: l' =>
                if is_undefined x then members_go l'
                else (quoted (escape k) +:+ ":" +:+ print x) :: members_go l'
            end) fields) +:+ "}"
  end.

Definition stringify (v : JsVal) : Outcome string := Ret (print v).

Definition is_ws (c : ascii) : bool :=
  let n := nat_of_ascii c in
  (n =? 32)%nat || (n =? 9)%nat || (n =? 10)%nat || (n =? 13)%nat.

Fixpoint skip_ws (s : string) : string :=
  match s with
  | String c s' => if is_ws c then skip_ws s' else s
  | EmptyString => s
  end.

Definition hex_val (c : ascii) : option N :=
  let n := N_of_ascii c in
  if ((48 <=? n) && (n <=? 57))%N then Some (n - 48)%N
  else if ((97 <=? n) && (n <=? 102))%N then Some (n - 87)%N
  else if ((65 <=? n) && (n <=? 70))%N then Some (n - 55)%N
  else None.

Definition unescape (c : ascii) : option ascii :=
  let n := N_of_ascii c in
  if (n =? 34)%N then Some dq
  else if (n =? 92)%N then Some bsl
  else if (n =? 47)%N then Some "/"%char
  else if (n =? 98)%N then Some "008"%char
  else if (n =? 102)%N then Some "012"%char
  else if (n =? 110)%N then Some "010"%char
  else if (n =? 114)%N then Some "013"%char
  else if (n =? 116)%N then Some "009"%char
  else None.

(** The characters of a string literal after its opening quote, up to and
    without the closing quote, and the rest of the input. *)
Fixpoint parse_chars (s : string) : option (string * string) :=
  match s with
  | EmptyString => None
  | String c s' =>
      if (N_of_ascii c =? 34)%N then Some ("", s')
      else if (N_of_ascii c =? 92)%N then
        match s' with
        | String e s'' =>
            match unescape e with
            | Some c' =>
                match parse_chars s'' with
                | Some (str, r) => Some (String c' str, r)
                | None => None
                end
            | None =>
                match e, s'' with
                | "u"%char, String h1 (String h2 (String h3 (String h4 s4))) =>
                    match hex_val h1, hex_val h2, hex_val h3, hex_val h4 with
                    | Some 0%N, Some 0%N, Some a, Some b =>
                        match parse_chars s4 with
                        | Some (str, r) => Some (String (ascii_of_N (16 * a + b)) str, r)
                        | None => None
                        end
                    | _, _, _, _ => None
                    end
                | _, _ => None
                end
            end
        | EmptyString => None
        end
      else if (N_of_ascii c <? 32)%N then None
      else
        match parse_chars s' with
        | Some (str, r) => Some (String c str, r)
        | None => None
        end
  end.

Definition digit_val (c : ascii) : option Z :=
  let n := N_of_ascii c in
  if ((48 <=? n) && (n <=? 57))%N then Some (Z.of_N (n - 48)) else None.

Fixpoint parse_digits (acc : Z) (s : string) : Z * string :=
  match s with
  | String c s' =>
      match digit_val c with
      | Some d => parse_digits (10 * acc + d) s'
      | None => (acc, s)
      end
  | EmptyString => (acc, s)
  end.

(** An integer literal: [0] or a non-zero digit followed by digits; a
    fraction or an exponent is outside the modelled numbers. *)
Definition parse_nat_lit (s : string) : option (Z * string) :=
  match s with
  | String c s' =>
      match digit_val c with
      | Some d =>
          let '(n, r) := if d =? 0 then (0, s') else parse_digits d s' in
          match r with
          | String c' _ =>
              if bool_decide (is_Some (digit_val c')) || (N_of_ascii c' =? 46)%N
                 || (N_of_ascii c' =? 101)%N || (N_of_ascii c' =? 69)%N
              then None else Some (n, r)
          | EmptyString => Some (n, r)
          end
      | None => None
      end
  | EmptyString => None
  end.

Definition parse_number (s : string) : option (JsVal * string) :=
  match s with
  | String "-"%char s' =>
      match parse_nat_lit s' with
      | Some (n, r) => Some (VNum (- n), r)
      | None => None
      end
  | _ =>
      match parse_nat_lit s with
      | Some (n, r) => Some (VNum n, r)
      | None => None
      end
  end.

(** Object construction keeps the position of the first occurrence of a
    key and the value of the last. *)
Fixpoint obj_set (k : string) (v : JsVal) (l : list (string * JsVal)) : list (string * JsVal) :=
  match l with
  | [] => [(k, v)]
  | (k', v') :: l' => if String.eqb k k' then (k, v) :: l' else (k', v') :: obj_set k v l'
  end.

Fixpoint parse_value (fuel : nat) (s : string) : option (JsVal * string) :=
  match fuel with
  | O => None
  | S fuel =>
      match skip_ws s with
      | String "n" (String "u" (String "l" (String "l" r))) => Some (VNull, r)
      | String "t" (String "r" (String "u" (String "e" r))) => Some (VBool true, r)
      | String "f" (String "a" (String "l" (String "s" (String "e" r)))) => Some (VBool false, r)
      | String "[" r =>
          match skip_ws r with
          | String "]" r' => Some (VArr [], r')
          | _ => parse_items fuel [] r
          end
      | String "{" r =>
          match skip_ws r with
          | String "}" r' => Some (VObj [], r')
          | _ => parse_members fuel [] r
          end
      | String c r =>
          if (N_of_ascii c =? 34)%N then
            match parse_chars r with
            | Some (str, r') => Some (VStr str, r')
            | None => None
            end
          else parse_number (String c r)
      | EmptyString => None
      end
  end
with parse_items (fuel : nat) (acc : list JsVal) (s : string) : option (JsVal * string) :=
  match fuel with
  | O => None
  | S fuel =>
      match parse_value fuel s with
      | Some (v, r) =>
          match skip_ws r with
          | String "," r' => parse_items fuel (acc ++ [v]) r'
          | String "]" r' => Some (VArr (acc ++ [v]), r')
          | _ => None
          end
      | None => None
      end
  end
with parse_members (fuel : nat) (acc : list (string * JsVal)) (s : string) : option (JsVal * string) :=
  match fuel with
  | O => None
  | S fuel =>
      match skip_ws s with
      | String c r =>
          if (N_of_ascii c =? 34)%N then
            match parse_chars r with
            | Some (k, r1) =>
                match skip_ws r1 with
                | String ":" r2 =>
                    match parse_value fuel r2 with
                    | Some (v, r3) =>
                        match skip_ws r3 with
                        | String "," r4 => parse_members fuel (obj_set k v acc) r4
                        | String "}" r4 => Some (VObj (obj_set k v acc), r4)
                        | _ => None
                        end
                    | None => None
                    end
                | _ => None
                end
            | None => None
            end
          else None
      | EmptyString => None
      end
  end.

(** [JSON.parse s]: the value, or a thrown [SyntaxError]. *)
Definition parse (s : string) : Outcome JsVal :=
  match parse_value (2 * String.length s + 2) s with
  | Some (v, r) => if String.eqb (skip_ws r) "" then Ret v else Exn
  | None => Exn
  end.

End JSON.

(** ** Objects and the world *)

(** A function stored in a transport's listener set.  [LChan c] is the
    closure the constructor of channel [c] registers (it captures [this]);
    [LExt f] is any other callback [f] handed to [transport.subscribe]. *)
Inductive Listener : Type :=
| LChan (c : nat)
| LExt (f : nat).

Definition Listener_eq_dec : EqDecision Listener :=
  fun x y =>
    match x, y with
    | LChan a, LChan b =>
        match decide (a = b) with
        | left e => left (f_equal LChan e)
        | right n =>
            right (fun e : LChan a = LChan b =>
                     n (f_equal (fun l => match l with LChan k => k | LExt _ => a end) e))
        end
    | LExt a, LExt b =>
        match decide (a = b) with
        | left e => left (f_equal LExt e)
        | right n =>
            right (fun e : LExt a = LExt b =>
                     n (f_equal (fun l => match l with LExt k => k | LChan _ => a end) e))
        end
    | LChan a, LExt b =>
        right (fun e : LChan a = LExt b =>
                 eq_ind (LChan a)
                   (fun l => match l with LChan _ => True | LExt _ => False end) I (LExt b) e)
    | LExt a, LChan b =>
        right (fun e : LExt a = LChan b =>
                 eq_ind (LExt a)
                   (fun l => match l with LExt _ => True | LChan _ => False end) I (LChan b) e)
    end.

#[global] Existing Instance Listener_eq_dec.

(** The calls the module makes into code it does not own, in order. *)
Inductive Event : Type :=
| EvListener (t : nat) (l : Listener) (msg : JsVal)
    (* transport [t] called its listener [l] with [msg] *)
| EvSub (c : nat) (fn : nat) (v : JsVal)
    (* channel [c] called its subscriber [fn] with [v] *)
| EvDestroy (t : nat).
    (* [destroy()] of transport [t] ran *)

(** The three objects [createTransport] can return. *)
Inductive TKind : Type :=
| TNoop       (* no window *)
| TNative     (* BroadcastChannel *)
| TFallback.  (* localStorage and storage events *)

Record Transport : Type := mkTransport {
  t_kind : TKind;
  t_name : string;                (* channelName *)
  t_listeners : list Listener;    (* the Set [listeners], in insertion order *)
  t_closed : bool                 (* native: [bc.close()] was called *)
}.

(** The function [transport.subscribe] returns. *)
Inductive Unsub : Type :=
| UNoop                              (* [() => {}] *)
| UDelete (t : nat) (l : Listener).  (* [() => listeners.delete(fn)] *)

Record Options : Type := mkOptions {
  channelName : option string;
  persist : bool;
  serialize : option (JsVal -> Outcome string);
  deserialize : option (string -> Outcome JsVal)
}.

Record Channel : Type := mkChannel {
  c_key : string;
  c_value : JsVal;
  c_subscribers : list nat;       (* the Set [subscribers], in insertion order *)
  c_transport : nat;
  c_storageKey : string;
  c_serialize : JsVal -> Outcome string;
  c_deserialize : string -> Outcome JsVal;
  c_options : Options;
  c_unsubscribe : option Unsub    (* [_unsubscribe] *)
}.

(** A reference count as a JavaScript number: [undefined + 1] is [NaN]. *)
Inductive Num : Type :=
| Fin (n : Z)
| NaN.

Record World : Type := mkWorld {
  now : Z;                               (* what [Date.now()] reads *)
  localStorage : gmap string string;
  sessionStorage : gmap string string;
  tabId : option string;                 (* [let tabId: string | null] *)
  transports : gmap string nat;          (* [Map<string, Transport>] *)
  transportRefs : gmap string Num;       (* [Map<string, number>] *)
  transport_objs : list Transport;       (* the transport objects created *)
  channel_objs : list Channel;           (* the channel objects created *)
  storage_handlers : list nat;           (* [window] listeners for [storage] *)
  trace : list Event
}.

Definition set_localStorage (x : gmap string string) (w : World) : World :=
  mkWorld (now w) x (sessionStorage w) (tabId w) (transports w) (transportRefs w)
    (transport_objs w) (channel_objs w) (storage_handlers w) (trace w).
Definition set_sessionStorage (x : gmap string string) (w : World) : World :=
  mkWorld (now w) (localStorage w) x (tabId w) (transports w) (transportRefs w)
    (transport_objs w) (channel_objs w) (storage_handlers w) (trace w).
Definition set_tabId (x : option string) (w : World) : World :=
  mkWorld (now w) (localStorage w) (sessionStorage w) x (transports w) (transportRefs w)
    (transport_objs w) (channel_objs w) (storage_handlers w) (trace w).
Definition set_transports (x : gmap string nat) (w : World) : World :=
  mkWorld (now w) (localStorage w) (sessionStorage w) (tabId w) x (transportRefs w)
    (transport_objs w) (channel_objs w) (storage_handlers w) (trace w).
Definition set_transportRefs (x : gmap string Num) (w : World) : World :=
  mkWorld (now w) (localStorage w) (sessionStorage w) (tabId w) (transports w) x
    (transport_objs w) (channel_objs w) (storage_handlers w) (trace w).
Definition set_transport_objs (x : list Transport) (w : World) : World :=
  mkWorld (now w) (localStorage w) (sessionStorage w) (tabId w) (transports w) (transportRefs w)
    x (channel_objs w) (storage_handlers w) (trace w).
Definition set_channel_objs (x : list Channel) (w : World) : World :=
  mkWorld (now w) (localStorage w) (sessionStorage w) (tabId w) (transports w) (transportRefs w)
    (transport_objs w) x (storage_handlers w) (trace w).
Definition set_storage_handlers (x : list nat) (w : World) : World :=
  mkWorld (now w) (localStorage w) (sessionStorage w) (tabId w) (transports w) (transportRefs w)
    (transport_objs w) (channel_objs w) x (trace w).
Definition set_trace (x : list Event) (w : World) : World :=
  mkWorld (now w) (localStorage w) (sessionStorage w) (tabId w) (transports w) (transportRefs w)
    (transport_objs w) (channel_objs w) (storage_handlers w) x.

(** A freshly loaded module in a fresh browsing context at time [t]. *)
Definition init_world (t : Z) : World :=
  mkWorld t ∅ ∅ None ∅ ∅ [] [] [] [].

Definition with_listeners (ls : list Listener) (t : Transport) : Transport :=
  mkTransport (t_kind t) (t_name t) ls (t_closed t).
Definition with_closed (b : bool) (t : Transport) : Transport :=
  mkTransport (t_kind t) (t_name t) (t_listeners t) b.

Definition with_value (v : JsVal) (c : Channel) : Channel :=
  mkChannel (c_key c) v (c_subscribers c) (c_transport c) (c_storageKey c)
    (c_serialize c) (c_deserialize c) (c_options c) (c_unsubscribe c).
Definition with_subscribers (s : list nat) (c : Channel) : Channel :=
  mkChannel (c_key c) (c_value c) s (c_transport c) (c_storageKey c)
    (c_serialize c) (c_deserialize c) (c_options c) (c_unsubscribe c).
Definition with_unsubscribe (u : option Unsub) (c : Channel) : Channel :=
  mkChannel (c_key c) (c_value c) (c_subscribers c) (c_transport c) (c_storageKey c)
    (c_serialize c) (c_deserialize c) (c_options c) u.

(** [Set.prototype.add] and [Set.prototype.delete] on a set kept as the list
    of its members in insertion order. *)
Definition set_add {A} `{EqDecision A} (x : A) (l : list A) : list A :=
  if bool_decide (x ∈ l) then l else l ++ [x].

Fixpoint set_delete {A} `{EqDecision A} (x : A) (l : list A) : list A :=
  match l with
  | [] => []
  | y :: l' => if bool_decide (y = x) then set_delete x l' else y :: set_delete x l'
  end.

(** ** The platform and the consumers *)

Record Env : Type := mkEnv {
  has_window : bool;              (* [typeof window !== 'undefined'] *)
  has_BroadcastChannel : bool;    (* [typeof BroadcastChannel !== 'undefined'] *)
  bc_new_throws : string -> bool; (* [new BroadcastChannel(name)] throws *)
  bc_post_throws : JsVal -> bool; (* [bc.postMessage(m)] throws *)
  bc_echo : bool;
    (* [postMessage] hands the message to the sender's own [onmessage]
       before it returns, as the test suite's BroadcastChannel does *)
  ls_get_throws : string -> bool;
  ls_set_throws : gmap string string -> string -> string -> bool;
  ss_get_throws : string -> bool;
  ss_set_throws : gmap string string -> string -> string -> bool;
  random_id : string;             (* [Math.random().toString(36).slice(2, 11)] *)
  JSON_stringify : JsVal -> Outcome string;
  JSON_parse : string -> Outcome JsVal;
  cb_throws : nat -> JsVal -> bool
    (* consumer callback [f] throws when called with [v]; what it calls
       before that is a [Live.Consumer] *)
}.

(** ** The monad of module code *)

Definition M (A : Type) : Type := World -> Outcome A * World.

Definition ret {A} (a : A) : M A := fun w => (Ret a, w).
Definition throw {A} : M A := fun w => (Exn, w).
Definition bind {A B} (m : M A) (k : A -> M B) : M B :=
  fun w => match m w with
           | (Ret a, w') => k a w'
           | (Exn, w') => (Exn, w')
           end.
(** [try { m } catch { h }] *)
Definition try_catch {A} (m : M A) (h : M A) : M A :=
  fun w => match m w with
           | (Ret a, w') => (Ret a, w')
           | (Exn, w') => h w'
           end.
(** [try { m } catch { }] *)
Definition try_ (m : M unit) : M unit := try_catch m (ret tt).
Definition lift {A} (o : Outcome A) : M A := fun w => (o, w).
Definition get {A} (f : World -> A) : M A := fun w => (Ret (f w), w).
Definition modify (f : World -> World) : M unit := fun w => (Ret tt, f w).

Notation "'let!' x ':=' m 'in' k" := (bind m (fun x => k))
  (at level 10, x name, m at level 100, k at level 200).
Notation "'run!' m 'in' k" := (bind m (fun _ => k))
  (at level 10, m at level 100, k at level 200).

(** [l.forEach(f)] over the members present when the loop starts: the loop
    over a set that nothing changes while the loop runs, as is the case
    when the callbacks call nothing of the module.  The loops of [Live]
    follow the set. *)
Fixpoint for_each {A} (f : A -> M unit) (l : list A) : M unit :=
  match l with
  | [] => ret tt
  | x :: l' => run! f x in for_each f l'
  end.

Definition emit (e : Event) : M unit :=
  modify (fun w => set_trace (trace w ++ [e]) w).

(** ** The module [core.ts] *)

Section Core.

Variable E : Env.

(** *** Platform calls *)

Definition Date_now : M Z := get now.

Definition localStorage_getItem (k : string) : M (option string) :=
  fun w => if ls_get_throws E k then (Exn, w) else (Ret (localStorage w !! k), w).

Definition localStorage_setItem (k v : string) : M unit :=
  fun w => if ls_set_throws E (localStorage w) k v then (Exn, w)
           else (Ret tt, set_localStorage (<[k:=v]> (localStorage w)) w).

Definition sessionStorage_getItem (k : string) : M (option string) :=
  fun w => if ss_get_throws E k then (Exn, w) else (Ret (sessionStorage w !! k), w).

Definition sessionStorage_setItem (k v : string) : M unit :=
  fun w => if ss_set_throws E (sessionStorage w) k v then (Exn, w)
           else (Ret tt, set_sessionStorage (<[k:=v]> (sessionStorage w)) w).

(** A consumer callback is called: the call is recorded, and it returns
    or throws.  This is the call of a callback that calls nothing of the
    module while it runs; the module under callbacks that do is [Live],
    below. *)
Definition call_callback (ev : Event) (f : nat) (v : JsVal) : M unit :=
  run! emit ev in
  if cb_throws E f v then throw else ret tt.

(** *** [getTabId] (lines 10-29) *)

(** Lines 15-28: no identity is cached yet.  The first [try] returns
    from the function when the session storage has one. *)
Definition getTabId_uncached : M string :=
  let! early :=
    try_catch
      (let! stored := sessionStorage_getItem "xts-tid" in
       match stored with
       | Some s =>
           if truthy_str s
           then run! modify (set_tabId (Some s)) in ret (Some s)
           else ret None
       | None => ret None
       end)
      (ret None) in
  match early with
  | Some s => ret s
  | None =>
      let! t := Date_now in
      let id := pretty t +:+ "-" +:+ random_id E in
      run! modify (set_tabId (Some id)) in
      run! try_ (sessionStorage_setItem "xts-tid" id) in
      ret id
  end.

Definition getTabId : M string :=
  if negb (has_window E) then ret "server"
  else
    let! cached := get tabId in
    match cached with
    | Some s => if truthy_str s then ret s else getTabId_uncached
    | None => getTabId_uncached
    end.

(** *** Object stores *)

Definition alloc_transport (t : Transport) : M nat :=
  fun w => (Ret (length (transport_objs w)),
            set_transport_objs (transport_objs w ++ [t]) w).

Definition alloc_channel (c : Channel) : M nat :=
  fun w => (Ret (length (channel_objs w)),
            set_channel_objs (channel_objs w ++ [c]) w).

Definition update_transport (t : nat) (f : Transport -> Transport) : M unit :=
  modify (fun w => set_transport_objs (alter f t (transport_objs w)) w).

Definition update_channel (c : nat) (f : Channel -> Channel) : M unit :=
  modify (fun w => set_channel_objs (alter f c (channel_objs w)) w).

(** *** The listener a channel registers with its transport (lines 198-219) *)

(** The persistence step, written twice in the source with the same text
    (lines 204-213 in the listener, lines 233-242 in [setValue]). *)
Definition persist_value (ch : Channel) (v : JsVal) : M unit :=
  if persist (c_options ch) && has_window E then
    try_ (let! serialized := lift (c_serialize ch v) in
          if truthy_str serialized && negb (String.eqb serialized "undefined")
          then localStorage_setItem (c_storageKey ch) serialized
          else ret tt)
  else ret tt.

(** [this.subscribers.forEach(fn => { try { fn(v); } catch {} })] *)
Definition notify_subscribers (c : nat) (v : JsVal) : M unit :=
  let! subs := get (fun w => from_option c_subscribers [] (channel_objs w !! c)) in
  for_each (fun fn => try_ (call_callback (EvSub c fn v) fn v)) subs.

Definition channel_listener (c : nat) (msg : JsVal) : M unit :=
  let! this := get (fun w => channel_objs w !! c) in
  match this with
  | None => ret tt   (* no such object: addresses only come from the constructor *)
  | Some ch =>
      if negb (typeof_object msg) || is_null msg then ret tt
      else if negb (strict_eq_str (get_prop "key" msg) (c_key ch)) then ret tt
      else if is_undefined (get_prop "value" msg) then ret tt
      else
        run! update_channel c (with_value (get_prop "value" msg)) in
        run! persist_value ch (get_prop "value" msg) in
        notify_subscribers c (get_prop "value" msg)
  end.

(** *** [createTransport] (lines 31-139) *)

(** [fn(msg)] for a member [fn] of a transport's listener set. *)
Definition call_listener (t : nat) (l : Listener) (msg : JsVal) : M unit :=
  match l with
  | LChan c => run! emit (EvListener t l msg) in channel_listener c msg
  | LExt f => call_callback (EvListener t l msg) f msg
  end.

(** [listeners.forEach(fn => { try { fn(msg); } catch {} })] *)
Definition forward (t : nat) (msg : JsVal) : M unit :=
  let! ls := get (fun w => from_option t_listeners [] (transport_objs w !! t)) in
  for_each (fun fn => try_ (call_listener t fn msg)) ls.

(** The test both live handlers apply before [tabId] is compared:
    [msg && typeof msg === 'object' && msg.value !== undefined]. *)
Definition well_formed (msg : JsVal) : bool :=
  truthy msg && typeof_object msg && negb (is_undefined (get_prop "value" msg)).

(** The body shared by [bc.onmessage] (lines 47-54) and the storage
    handler (lines 91-97). *)
Definition deliver (t : nat) (msg : JsVal) : M unit :=
  if well_formed msg then
    let! id := getTabId in
    if negb (strict_eq_str (get_prop "tabId" msg) id) then forward t msg
    else ret tt
  else ret tt.

(** [bc.onmessage] *)
Definition onmessage (t : nat) (data : JsVal) : M unit := deliver t data.

(** The payload expression of both [publish] functions (lines 61, 110). *)
Definition envelope_of (msg : JsVal) : M JsVal :=
  if typeof_object msg && negb (is_null msg) then ret msg
  else
    let! id := getTabId in
    let! t := Date_now in
    ret (VObj [("value", msg); ("tabId", VStr id); ("timestamp", VNum t)]).

(** [bc.postMessage(m)]: throws on a closed channel or when the platform
    refuses; reaches the sender's own [onmessage] only under [bc_echo]. *)
Definition postMessage (t : nat) (m : JsVal) : M unit :=
  let! closed := get (fun w => from_option t_closed true (transport_objs w !! t)) in
  if closed then throw
  else if bc_post_throws E m then throw
  else if bc_echo E then onmessage t m
  else ret tt.

Definition slot_of (channelName : string) : string := "xts-" +:+ channelName.

(** The [storage] handler (lines 87-101); a StorageEvent carries a key and
    a new value, either of which may be [null]. *)
Definition storage_handler (t : nat) (e_key e_newValue : option string) : M unit :=
  let! this := get (fun w => transport_objs w !! t) in
  match this with
  | None => ret tt
  | Some tr =>
      match e_key, e_newValue with
      | Some k, Some nv =>
          if negb (String.eqb k (slot_of (t_name tr))) || negb (truthy_str nv) then ret tt
          else try_ (let! msg := lift (JSON_parse E nv) in deliver t msg)
      | _, _ => ret tt
      end
  end.

Definition createTransport (channelName : string) : M nat :=
  if negb (has_window E) then alloc_transport (mkTransport TNoop channelName [] false)
  else
    let! native :=
      if has_BroadcastChannel E then
        try_catch
          (if bc_new_throws E channelName then throw
           else let! t := alloc_transport (mkTransport TNative channelName [] false) in
                ret (Some t))
          (ret None)
      else ret None in
    match native with
    | Some t => ret t
    | None =>
        let! t := alloc_transport (mkTransport TFallback channelName [] false) in
        run! (if has_window E
              then modify (fun w => set_storage_handlers (storage_handlers w ++ [t]) w)
              else ret tt) in
        ret t
    end.

(** The methods of the object [createTransport] returns, by its kind. *)

Definition transport_publish (t : nat) (msg : JsVal) : M unit :=
  let! this := get (fun w => transport_objs w !! t) in
  match this with
  | None => ret tt
  | Some tr =>
      match t_kind tr with
      | TNoop => ret tt
      | TNative =>
          try_ (let! m := envelope_of msg in postMessage t m)
      | TFallback =>
          if negb (has_window E) then ret tt
          else
            try_ (let! message := envelope_of msg in
                  let! text := lift (JSON_stringify E message) in
                  localStorage_setItem (slot_of (t_name tr)) text)
      end
  end.

Definition transport_subscribe (t : nat) (fn : Listener) : M Unsub :=
  let! this := get (fun w => transport_objs w !! t) in
  match this with
  | None => ret UNoop
  | Some tr =>
      match t_kind tr with
      | TNoop => ret UNoop
      | TNative =>
          run! update_transport t (fun x => with_listeners (set_add fn (t_listeners x)) x) in
          ret (UDelete t fn)
      | TFallback =>
          run! update_transport t (fun x => with_listeners (set_add fn (t_listeners x)) x) in
          run! (if has_window E then
                  try_ (let! stored := localStorage_getItem (slot_of (t_name tr)) in
                        match stored with
                        | Some text =>
                            if truthy_str text then
                              let! msg := lift (JSON_parse E text) in
                              if well_formed msg then call_listener t fn msg else ret tt
                            else ret tt
                        | None => ret tt
                        end)
                else ret tt) in
          ret (UDelete t fn)
      end
  end.

(** Calling the function [transport.subscribe] returned. *)
Definition call_unsubscribe (u : Unsub) : M unit :=
  match u with
  | UNoop => ret tt
  | UDelete t fn =>
      update_transport t (fun x => with_listeners (set_delete fn (t_listeners x)) x)
  end.

Definition transport_destroy (t : nat) : M unit :=
  let! this := get (fun w => transport_objs w !! t) in
  match this with
  | None => ret tt
  | Some tr =>
      run! emit (EvDestroy t) in
      match t_kind tr with
      | TNoop => ret tt
      | TNative =>
          run! update_transport t (with_closed true) in
          update_transport t (with_listeners [])
      | TFallback =>
          run! (if has_window E
                then modify (fun w => set_storage_handlers (set_delete t (storage_handlers w)) w)
                else ret tt) in
          update_transport t (with_listeners [])
      end
  end.

(** *** The transport registry (lines 141-164) *)

(** [refs + 1], [refs - 1], [refs <= 1] and [x || 0] on a count read from
    [transportRefs]; a missing entry reads as [undefined]. *)
Definition num_succ (r : option Num) : Num :=
  match r with Some (Fin n) => Fin (n + 1) | _ => NaN end.
Definition num_pred (r : Num) : Num :=
  match r with Fin n => Fin (n - 1) | NaN => NaN end.
Definition num_le_1 (r : Num) : bool :=
  match r with Fin n => n <=? 1 | NaN => false end.
Definition num_or_0 (r : option Num) : Num :=
  match r with Some (Fin n) => Fin n | _ => Fin 0 end.

(** The source ends with [return transports.get(channelName)!], which
    reads back the entry found or just stored; [t] is that entry. *)
Definition getTransport (channelName : string) : M nat :=
  let! found := get (fun w => transports w !! channelName) in
  let! t :=
    match found with
    | Some t => ret t
    | None =>
        let! t := createTransport channelName in
        run! modify (fun w => set_transports (<[channelName := t]> (transports w)) w) in
        run! modify (fun w => set_transportRefs (<[channelName := Fin 0]> (transportRefs w)) w) in
        ret t
    end in
  let! refs := get (fun w => transportRefs w !! channelName) in
  run! modify (fun w => set_transportRefs (<[channelName := num_succ refs]> (transportRefs w)) w) in
  ret t.

Definition releaseTransport (channelName : string) : M unit :=
  let! refs := get (fun w => num_or_0 (transportRefs w !! channelName)) in
  if num_le_1 refs then
    let! t := get (fun w => transports w !! channelName) in
    run! match t with Some t => transport_destroy t | None => ret tt end in
    run! modify (fun w => set_transports (delete channelName (transports w)) w) in
    modify (fun w => set_transportRefs (delete channelName (transportRefs w)) w)
  else
    modify (fun w => set_transportRefs (<[channelName := num_pred refs]> (transportRefs w)) w).

(** *** [CrossTabChannel] (lines 166-269) *)

(** [options.channelName || 'xts'] *)
Definition channel_name_of (o : Options) : string :=
  match channelName o with
  | Some s => if truthy_str s then s else "xts"
  | None => "xts"
  end.

(** The restore step of the constructor (lines 186-195), for the object
    at address [c]. *)
Definition restore_persisted (c : nat) (key : string) (options : Options) : M unit :=
  if persist options && has_window E then
    try_ (let! stored := localStorage_getItem ("xts-" +:+ key) in
          match stored with
          | Some text =>
              if truthy_str text && negb (String.eqb text "undefined") && trim_truthy text
              then
                let! v := lift (default (JSON_parse E) (deserialize options) text) in
                update_channel c (with_value v)
              else ret tt
          | None => ret tt
          end)
  else ret tt.

(** [new CrossTabChannel(key, initialValue, options)]; the result is the
    address of the new object.  [getTransport] does not look at channel
    objects, so the object is entered in the store once its transport is
    known. *)
Definition new_CrossTabChannel (key : string) (initialValue : JsVal) (options : Options)
  : M nat :=
  let! t := getTransport (channel_name_of options) in
  let! c := alloc_channel
    (mkChannel key initialValue [] t ("xts-" +:+ key)
       (default (JSON_stringify E) (serialize options))
       (default (JSON_parse E) (deserialize options))
       options None) in
  run! restore_persisted c key options in
  let! unsubscribe := transport_subscribe t (LChan c) in
  run! update_channel c (with_unsubscribe (Some unsubscribe)) in
  ret c.

Definition getValue (c : nat) : M JsVal :=
  get (fun w => from_option c_value VUndef (channel_objs w !! c)).

Definition setValue (c : nat) (value : JsVal) : M unit :=
  let! this := get (fun w => channel_objs w !! c) in
  match this with
  | None => ret tt
  | Some ch =>
      if is_undefined value then ret tt
      else
        run! update_channel c (with_value value) in
        run! persist_value ch value in
        let! id := getTabId in
        let! ts := Date_now in
        run! transport_publish (c_transport ch)
               (VObj [("value", value); ("key", VStr (c_key ch));
                      ("tabId", VStr id); ("timestamp", VNum ts)]) in
        notify_subscribers c value
  end.

Definition subscribe (c : nat) (fn : nat) : M unit :=
  let! this := get (fun w => channel_objs w !! c) in
  match this with
  | None => ret tt
  | Some ch =>
      run! update_channel c (fun x => with_subscribers (set_add fn (c_subscribers x)) x) in
      try_ (call_callback (EvSub c fn (c_value ch)) fn (c_value ch))
  end.

(** Calling the function [subscribe] returned:
    [() => this.subscribers.delete(fn)]. *)
Definition unsubscribe (c : nat) (fn : nat) : M unit :=
  update_channel c (fun x => with_subscribers (set_delete fn (c_subscribers x)) x).

Definition destroy (c : nat) : M unit :=
  let! this := get (fun w => channel_objs w !! c) in
  match this with
  | None => ret tt
  | Some ch =>
      run! match c_unsubscribe ch with
           | Some u => call_unsubscribe u
           | None => ret tt
           end in
      run! releaseTransport (channel_name_of (c_options ch)) in
      update_channel c (with_subscribers [])
  end.

(** *** What reaches the module from other contexts *)

(** A message event arrives at the BroadcastChannel of transport [t]. *)
Definition bc_message (t : nat) (data : JsVal) : M unit :=
  let! this := get (fun w => transport_objs w !! t) in
  match this with
  | Some tr =>
      match t_kind tr with
      | TNative => if t_closed tr then ret tt else onmessage t data
      | _ => ret tt
      end
  | None => ret tt
  end.

(** A storage event is dispatched to the handlers registered on [window];
    the dispatch goes on to the next handler when one throws. *)
Definition storage_event (e_key e_newValue : option string) : M unit :=
  let! hs := get storage_handlers in
  for_each (fun t => try_ (storage_handler t e_key e_newValue)) hs.

End Core.

(** The operation returned normally. *)
Definition returns {A} (r : Outcome A * World) : Prop :=
  match fst r with Ret _ => True | Exn => False end.

(** ** Runs of the module *)

(** What can happen to a loaded module: a consumer calls the public
    interface or a transport method, or the platform delivers an event. *)
Inductive Action : Type :=
| ANew (key : string) (initialValue : JsVal) (options : Options)
| AGetValue (c : nat)
| ASetValue (c : nat) (value : JsVal)
| ASubscribe (c fn : nat)
| AUnsubscribe (c fn : nat)
| ADestroy (c : nat)
| ATransportPublish (t : nat) (msg : JsVal)
| ATransportSubscribe (t f : nat)
| ATransportUnsubscribe (t f : nat)
| ABcMessage (t : nat) (data : JsVal)
| AStorageEvent (e_key e_newValue : option string)
| AClock (t : Z).

Definition perform (E : Env) (a : Action) : M unit :=
  match a with
  | ANew key initialValue options =>
      run! new_CrossTabChannel E key initialValue options in ret tt
  | AGetValue c => run! getValue c in ret tt
  | ASetValue c value => setValue E c value
  | ASubscribe c fn => subscribe E c fn
  | AUnsubscribe c fn => unsubscribe c fn
  | ADestroy c => destroy E c
  | ATransportPublish t msg => transport_publish E t msg
  | ATransportSubscribe t f => run! transport_subscribe E t (LExt f) in ret tt
  | ATransportUnsubscribe t f => call_unsubscribe (UDelete t (LExt f))
  | ABcMessage t data => bc_message E t data
  | AStorageEvent k nv => storage_event E k nv
  | AClock t => modify (fun w => mkWorld t (localStorage w) (sessionStorage w) (tabId w)
                                   (transports w) (transportRefs w) (transport_objs w)
                                   (channel_objs w) (storage_handlers w) (trace w))
  end.

Definition run (E : Env) (acts : list Action) (w : World) : World :=
  fold_left (fun w a => snd (perform E a w)) acts w.

(** The values with which channel [c] called subscriber [fn], and all the
    subscriber calls of channel [c], in a trace. *)
Fixpoint calls_of (c fn : nat) (tr : list Event) : list JsVal :=
  match tr with
  | [] => []
  | EvSub c' fn' v :: tr' =>
      if Nat.eqb c' c && Nat.eqb fn' fn then v :: calls_of c fn tr' else calls_of c fn tr'
  | _ :: tr' => calls_of c fn tr'
  end.

Fixpoint sub_calls (c : nat) (tr : list Event) : list (nat * JsVal) :=
  match tr with
  | [] => []
  | EvSub c' fn v :: tr' =>
      if Nat.eqb c' c then (fn, v) :: sub_calls c tr' else sub_calls c tr'
  | _ :: tr' => sub_calls c tr'
  end.

(** The listener calls of a trace. *)
Fixpoint listener_calls (tr : list Event) : list (nat * Listener * JsVal) :=
  match tr with
  | [] => []
  | EvListener t l msg :: tr' => (t, l, msg) :: listener_calls tr'
  | _ :: tr' => listener_calls tr'
  end.

(** The transports destroyed in a trace. *)
Fixpoint destroyed (tr : list Event) : list nat :=
  match tr with
  | [] => []
  | EvDestroy t :: tr' => t :: destroyed tr'
  | _ :: tr' => destroyed tr'
  end.

(** The identity [getTabId()] returns in a world. *)
Definition local_id (E : Env) (w : World) (id : string) : Prop :=
  fst (getTabId E w) = Ret id.

(** The envelope [setValue] publishes. *)
Definition envelope (value : JsVal) (key id : string) (ts : Z) : JsVal :=
  VObj [("value", value); ("key", VStr key); ("tabId", VStr id); ("timestamp", VNum ts)].

(** The transport registry seen as a counter: the calls of [getTransport]
    and [releaseTransport], and the number of holders of a name they leave. *)
Inductive RegOp : Type :=
| Acquire (name : string)
| Release (name : string).

Definition reg_perform (E : Env) (o : RegOp) : M unit :=
  match o with
  | Acquire name => run! getTransport E name in ret tt
  | Release name => releaseTransport E name
  end.

Definition reg_run (E : Env) (ops : list RegOp) (w : World) : World :=
  fold_left (fun w o => snd (reg_perform E o w)) ops w.

Definition held_delta (name : string) (o : RegOp) : Z :=
  match o with
  | Acquire n => if String.eqb n name then 1 else 0
  | Release n => if String.eqb n name then -1 else 0
  end.

Fixpoint held (name : string) (ops : list RegOp) : Z :=
  match ops with
  | [] => 0
  | o :: ops' => held_delta name o + held name ops'
  end.

(** Every release releases an acquire made before it and not yet released. *)
Definition paired (ops : list RegOp) : Prop :=
  forall (i : nat) (name : string), 0 <= held name (take i ops).

(** ** Consumers that call back into the module *)

(** The module [core.ts] above is the module under consumers whose callbacks
    return or throw and do nothing else.  A callback is any code of the
    consumer: while it runs it can call the public interface, and the
    [forEach] that called it goes on over the set as the callback left it.
    [Live] is the module under such consumers. *)

Module Live.

(** A call a consumer callback makes while it runs. *)
Inductive Call : Type :=
| CNew (key : string) (initialValue : JsVal) (options : Options)
| CGetValue (c : nat)
| CSetValue (c : nat) (value : JsVal)
| CSubscribe (c fn : nat)
| CUnsubscribe (c fn : nat)
| CDestroy (c : nat).

(** The consumers' code: the calls callback [fn] makes when it is called
    with [v], given the state of the module it is called in (which holds
    the record of every call made so far, all a callback can have kept);
    after them it returns or throws, as [cb_throws] says. *)
Definition Consumer : Type := nat -> JsVal -> World -> list Call.

(** A consumer who never calls back. *)
Definition inert : Consumer := fun _ _ _ => [].

(** A [forEach] in progress over the subscribers of channel [c] or over the
    listeners of transport [t], with the entries it has still to visit.
    [Set.prototype.forEach] visits the entries in insertion order, those
    appended during the walk included, and skips an entry deleted before it
    is reached. *)
Inductive Loop : Type :=
| SubLoop (c : nat) (pending : list nat)
| LisLoop (t : nat) (pending : list Listener).

(** The module and the loops in progress, innermost first. *)
Record State : Type := mkState {
  world : World;
  loops : list Loop
}.

(** The module at rest: no call of it is in progress. *)
Definition idle (w : World) : State := mkState w [].

(** Code of the module that may call consumer code.  [None]: the bound on
    nested calls and on loop turns was reached before the code ended. *)
Definition LM (A : Type) : Type := State -> option (Outcome A * State).

Definition ret {A} (a : A) : LM A := fun s => Some (Ret a, s).
Definition throw {A} : LM A := fun s => Some (Exn, s).
Definition out_of_fuel {A} : LM A := fun _ => None.
Definition bind {A B} (m : LM A) (k : A -> LM B) : LM B :=
  fun s => match m s with
           | Some (Ret a, s') => k a s'
           | Some (Exn, s') => Some (Exn, s')
           | None => None
           end.
Definition try_catch {A} (m : LM A) (h : LM A) : LM A :=
  fun s => match m s with
           | Some (Ret a, s') => Some (Ret a, s')
           | Some (Exn, s') => h s'
           | None => None
           end.
Definition try_ (m : LM unit) : LM unit := try_catch m (ret tt).
Definition get {A} (f : World -> A) : LM A := fun s => Some (Ret (f (world s)), s).

Notation "'let+' x ':=' m 'in' k" := (bind m (fun x => k))
  (at level 10, x name, m at level 100, k at level 200).
Notation "'run+' m 'in' k" := (bind m (fun _ => k))
  (at level 10, m at level 100, k at level 200).

Fixpoint for_each {A} (f : A -> LM unit) (l : list A) : LM unit :=
  match l with
  | [] => ret tt
  | x :: l' => run+ f x in for_each f l'
  end.

(** The entries a loop has still to visit once the set went from [before]
    to [after]: those of them still in the set, then the entries added. *)
Definition sync_pending {A} `{EqDecision A} (before after pending : list A) : list A :=
  if decide (after = before) then pending
  else List.filter (fun x => bool_decide (x ∈ after)) pending
       ++ List.filter (fun x => negb (bool_decide (x ∈ before))) after.

Definition sync_loop (w w' : World) (l : Loop) : Loop :=
  match l with
  | SubLoop c p =>
      SubLoop c (sync_pending (from_option c_subscribers [] (channel_objs w !! c))
                   (from_option c_subscribers [] (channel_objs w' !! c)) p)
  | LisLoop t p =>
      LisLoop t (sync_pending (from_option t_listeners [] (transport_objs w !! t))
                   (from_option t_listeners [] (transport_objs w' !! t)) p)
  end.

(** Code of the module that calls no consumer code runs as before; what it
    does to a set reaches the loops in progress over that set.  No such code
    takes an entry out of a set and puts it back. *)
Definition step {A} (m : M A) : LM A :=
  fun s => let (r, w') := m (world s) in
           Some (r, mkState w' (map (sync_loop (world s) w') (loops s))).

Definition push (l : World -> Loop) : LM unit :=
  fun s => Some (Ret tt, mkState (world s) (l (world s) :: loops s)).

Definition pop : LM unit :=
  fun s => Some (Ret tt, mkState (world s) (tl (loops s))).

(** The next entry of the innermost loop, which is taken off. *)
Definition next_subscriber : LM (option nat) :=
  fun s => match loops s with
           | SubLoop c (fn :: p) :: ls => Some (Ret (Some fn), mkState (world s) (SubLoop c p :: ls))
           | _ => Some (Ret None, s)
           end.

Definition next_listener : LM (option Listener) :=
  fun s => match loops s with
           | LisLoop t (l :: p) :: ls => Some (Ret (Some l), mkState (world s) (LisLoop t p :: ls))
           | _ => Some (Ret None, s)
           end.

(** A callback handed to [transport.subscribe] by other code than a
    channel's constructor; the module exports no transport, so no consumer
    code is such a callback. *)
Definition call_external (E : Env) (ev : Event) (f : nat) (v : JsVal) : LM unit :=
  step (call_callback E ev f v).

Section Code.

Variable E : Env.

(** What calling callback [fn] with [v] does. *)
Variable code : nat -> JsVal -> LM unit.

(** The bound on the turns of one loop. *)
Variable fuel : nat.

(** [fn(v)] for a subscriber [fn]: the call is recorded and the consumer's
    code runs. *)
Definition call_callback (ev : Event) (f : nat) (v : JsVal) : LM unit :=
  run+ step (emit ev) in code f v.

(** The turns of [this.subscribers.forEach(fn => { try { fn(v); } catch {} })]. *)
Fixpoint walk_subscribers (n : nat) (c : nat) (v : JsVal) : LM unit :=
  let+ next := next_subscriber in
  match next with
  | None => ret tt
  | Some fn =>
      match n with
      | O => out_of_fuel
      | S n' =>
          run+ try_ (call_callback (EvSub c fn v) fn v) in
          walk_subscribers n' c v
      end
  end.

Definition notify_subscribers (c : nat) (v : JsVal) : LM unit :=
  run+ push (fun w => SubLoop c (from_option c_subscribers [] (channel_objs w !! c))) in
  run+ walk_subscribers fuel c v in
  pop.

(** The listener a channel registers with its transport (lines 198-219). *)
Definition channel_listener (c : nat) (msg : JsVal) : LM unit :=
  let+ this := get (fun w => channel_objs w !! c) in
  match this with
  | None => ret tt
  | Some ch =>
      if negb (typeof_object msg) || is_null msg then ret tt
      else if negb (strict_eq_str (get_prop "key" msg) (c_key ch)) then ret tt
      else if is_undefined (get_prop "value" msg) then ret tt
      else
        run+ step (update_channel c (with_value (get_prop "value" msg))) in
        run+ step (persist_value E ch (get_prop "value" msg)) in
        notify_subscribers c (get_prop "value" msg)
  end.

(** [fn(msg)] for a member [fn] of a transport's listener set. *)
Definition call_listener (t : nat) (l : Listener) (msg : JsVal) : LM unit :=
  match l with
  | LChan c => run+ step (emit (EvListener t l msg)) in channel_listener c msg
  | LExt f => call_external E (EvListener t l msg) f msg
  end.

(** The turns of [listeners.forEach(fn => { try { fn(msg); } catch {} })]. *)
Fixpoint walk_listeners (n : nat) (t : nat) (msg : JsVal) : LM unit :=
  let+ next := next_listener in
  match next with
  | None => ret tt
  | Some l =>
      match n with
      | O => out_of_fuel
      | S n' =>
          run+ try_ (call_listener t l msg) in
          walk_listeners n' t msg
      end
  end.

Definition forward (t : nat) (msg : JsVal) : LM unit :=
  run+ push (fun w => LisLoop t (from_option t_listeners [] (transport_objs w !! t))) in
  run+ walk_listeners fuel t msg in
  pop.

(** The body shared by [bc.onmessage] (lines 47-54) and the storage
    handler (lines 91-97). *)
Definition deliver (t : nat) (msg : JsVal) : LM unit :=
  if well_formed msg then
    let+ id := step (getTabId E) in
    if negb (strict_eq_str (get_prop "tabId" msg) id) then forward t msg
    else ret tt
  else ret tt.

Definition onmessage (t : nat) (data : JsVal) : LM unit := deliver t data.

Definition postMessage (t : nat) (m : JsVal) : LM unit :=
  let+ closed := get (fun w => from_option t_closed true (transport_objs w !! t)) in
  if closed then throw
  else if bc_post_throws E m then throw
  else if bc_echo E then onmessage t m
  else ret tt.

Definition storage_handler (t : nat) (e_key e_newValue : option string) : LM unit :=
  let+ this := get (fun w => transport_objs w !! t) in
  match this with
  | None => ret tt
  | Some tr =>
      match e_key, e_newValue with
      | Some k, Some nv =>
          if negb (String.eqb k (slot_of (t_name tr))) || negb (truthy_str nv) then ret tt
          else try_ (let+ msg := step (lift (JSON_parse E nv)) in deliver t msg)
      | _, _ => ret tt
      end
  end.

Definition transport_publish (t : nat) (msg : JsVal) : LM unit :=
  let+ this := get (fun w => transport_objs w !! t) in
  match this with
  | None => ret tt
  | Some tr =>
      match t_kind tr with
      | TNoop => ret tt
      | TNative =>
          try_ (let+ m := step (envelope_of E msg) in postMessage t m)
      | TFallback =>
          if negb (has_window E) then ret tt
          else
            try_ (let+ message := step (envelope_of E msg) in
                  let+ text := step (lift (JSON_stringify E message)) in
                  step (localStorage_setItem E (slot_of (t_name tr)) text))
      end
  end.

Definition transport_subscribe (t : nat) (fn : Listener) : LM Unsub :=
  let+ this := get (fun w => transport_objs w !! t) in
  match this with
  | None => ret UNoop
  | Some tr =>
      match t_kind tr with
      | TNoop => ret UNoop
      | TNative =>
          run+ step (update_transport t
                       (fun x => with_listeners (set_add fn (t_listeners x)) x)) in
          ret (UDelete t fn)
      | TFallback =>
          run+ step (update_transport t
                       (fun x => with_listeners (set_add fn (t_listeners x)) x)) in
          run+ (if has_window E then
                  try_ (let+ stored := step (localStorage_getItem E (slot_of (t_name tr))) in
                        match stored with
                        | Some text =>
                            if truthy_str text then
                              let+ msg := step (lift (JSON_parse E text)) in
                              if well_formed msg then call_listener t fn msg else ret tt
                            else ret tt
                        | None => ret tt
                        end)
                else ret tt) in
          ret (UDelete t fn)
      end
  end.

(** [new CrossTabChannel(key, initialValue, options)] *)
Definition new_CrossTabChannel (key : string) (initialValue : JsVal) (options : Options)
  : LM nat :=
  let+ t := step (getTransport E (channel_name_of options)) in
  let+ c := step (alloc_channel
    (mkChannel key initialValue [] t ("xts-" +:+ key)
       (default (JSON_stringify E) (serialize options))
       (default (JSON_parse E) (deserialize options))
       options None)) in
  run+ step (restore_persisted E c key options) in
  let+ unsubscribe := transport_subscribe t (LChan c) in
  run+ step (update_channel c (with_unsubscribe (Some unsubscribe))) in
  ret c.

Definition getValue (c : nat) : LM JsVal := step (getValue c).

Definition setValue (c : nat) (value : JsVal) : LM unit :=
  let+ this := get (fun w => channel_objs w !! c) in
  match this with
  | None => ret tt
  | Some ch =>
      if is_undefined value then ret tt
      else
        run+ step (update_channel c (with_value value)) in
        run+ step (persist_value E ch value) in
        let+ id := step (getTabId E) in
        let+ ts := step Date_now in
        run+ transport_publish (c_transport ch)
               (VObj [("value", value); ("key", VStr (c_key ch));
                      ("tabId", VStr id); ("timestamp", VNum ts)]) in
        notify_subscribers c value
  end.

Definition subscribe (c : nat) (fn : nat) : LM unit :=
  let+ this := get (fun w => channel_objs w !! c) in
  match this with
  | None => ret tt
  | Some ch =>
      run+ step (update_channel c
                   (fun x => with_subscribers (set_add fn (c_subscribers x)) x)) in
      try_ (call_callback (EvSub c fn (c_value ch)) fn (c_value ch))
  end.

Definition unsubscribe (c : nat) (fn : nat) : LM unit := step (unsubscribe c fn).

(** [destroy()] calls no consumer code (lines 260-268). *)
Definition destroy (c : nat) : LM unit := step (destroy E c).

(** A message event arrives at the BroadcastChannel of transport [t]. *)
Definition bc_message (t : nat) (data : JsVal) : LM unit :=
  let+ this := get (fun w => transport_objs w !! t) in
  match this with
  | Some tr =>
      match t_kind tr with
      | TNative => if t_closed tr then ret tt else onmessage t data
      | _ => ret tt
      end
  | None => ret tt
  end.

(** A storage event is dispatched to the handlers registered on [window]
    when the dispatch starts; one removed before its turn is not called. *)
Definition storage_event (e_key e_newValue : option string) : LM unit :=
  let+ hs := get storage_handlers in
  for_each (fun t =>
              let+ registered := get (fun w => bool_decide (t ∈ storage_handlers w)) in
              if registered then try_ (storage_handler t e_key e_newValue) else ret tt) hs.

(** A call made by a callback. *)
Definition call (k : Call) : LM unit :=
  match k with
  | CNew key initialValue options =>
      run+ new_CrossTabChannel key initialValue options in ret tt
  | CGetValue c => run+ getValue c in ret tt
  | CSetValue c value => setValue c value
  | CSubscribe c fn => subscribe c fn
  | CUnsubscribe c fn => unsubscribe c fn
  | CDestroy c => destroy c
  end.

(** What can happen to the module at rest. *)
Definition perform (a : Action) : LM unit :=
  match a with
  | ANew key initialValue options =>
      run+ new_CrossTabChannel key initialValue options in ret tt
  | AGetValue c => run+ getValue c in ret tt
  | ASetValue c value => setValue c value
  | ASubscribe c fn => subscribe c fn
  | AUnsubscribe c fn => unsubscribe c fn
  | ADestroy c => destroy c
  | ATransportPublish t msg => transport_publish t msg
  | ATransportSubscribe t f => run+ transport_subscribe t (LExt f) in ret tt
  | ATransportUnsubscribe t f => step (call_unsubscribe (UDelete t (LExt f)))
  | ABcMessage t data => bc_message t data
  | AStorageEvent k nv => storage_event k nv
  | AClock t => step (perform E (AClock t))
  end.

End Code.

(** The code of callback [fn]: its calls, each run to its end before the
    next, then the return or the throw.  [fuel] bounds the depth of calls
    made from callbacks and the turns of every loop. *)
Fixpoint consumer_code (E : Env) (K : Consumer) (fuel : nat) (fn : nat) (v : JsVal)
  : LM unit :=
  match fuel with
  | O => out_of_fuel
  | S fuel' =>
      let+ calls := get (K fn v) in
      run+ for_each (call E (consumer_code E K fuel') fuel') calls in
      if cb_throws E fn v then throw else ret tt
  end.

(** An action on the module under consumer [K]. *)
Definition exec (E : Env) (K : Consumer) (fuel : nat) (a : Action) : LM unit :=
  perform E (consumer_code E K fuel) fuel a.

End Live.

(** ** The module [hooks/useCrossTabState.ts] *)

(** The two [useRef] cells of one call site of the hook. *)
Record HookRefs : Type := mkHookRefs {
  channelRef : option nat;       (* [channelRef.current]; [None] is [null] *)
  optionsRef : option Options    (* [optionsRef.current]; [None] is [undefined] *)
}.

(** The module's two maps beside the state of [core.ts], the call sites
    rendered so far, and the direct calls of [setState], by call site. *)
Record HookWorld : Type := mkHookWorld {
  core : World;
  channels : gmap string nat;    (* [Map<string, CrossTabChannel>] *)
  refs : gmap string Num;        (* [Map<string, number>] *)
  hook_refs : list HookRefs;
  setState_calls : list (nat * JsVal)
}.

Definition set_core (x : World) (h : HookWorld) : HookWorld :=
  mkHookWorld x (channels h) (refs h) (hook_refs h) (setState_calls h).
Definition set_channels (x : gmap string nat) (h : HookWorld) : HookWorld :=
  mkHookWorld (core h) x (refs h) (hook_refs h) (setState_calls h).
Definition set_refs (x : gmap string Num) (h : HookWorld) : HookWorld :=
  mkHookWorld (core h) (channels h) x (hook_refs h) (setState_calls h).
Definition set_hook_refs (x : list HookRefs) (h : HookWorld) : HookWorld :=
  mkHookWorld (core h) (channels h) (refs h) x (setState_calls h).
Definition set_setState_calls (x : list (nat * JsVal)) (h : HookWorld) : HookWorld :=
  mkHookWorld (core h) (channels h) (refs h) (hook_refs h) x.

(** The hook module loaded over a core module in state [w]. *)
Definition hook_world (w : World) : HookWorld := mkHookWorld w ∅ ∅ [] [].

Definition with_channelRef (c : option nat) (r : HookRefs) : HookRefs :=
  mkHookRefs c (optionsRef r).
Definition with_optionsRef (o : option Options) (r : HookRefs) : HookRefs :=
  mkHookRefs (channelRef r) o.

(** Code of the hook module: the monad of [core.ts] over the larger state. *)
Definition HM (A : Type) : Type := HookWorld -> Outcome A * HookWorld.

Definition hret {A} (a : A) : HM A := fun h => (Ret a, h).
Definition hbind {A B} (m : HM A) (k : A -> HM B) : HM B :=
  fun h => match m h with
           | (Ret a, h') => k a h'
           | (Exn, h') => (Exn, h')
           end.
Definition hlift {A} (o : Outcome A) : HM A := fun h => (o, h).
Definition hget {A} (f : HookWorld -> A) : HM A := fun h => (Ret (f h), h).
Definition hmodify (f : HookWorld -> HookWorld) : HM unit := fun h => (Ret tt, f h).

(** A call into [core.ts]. *)
Definition in_core {A} (m : M A) : HM A :=
  fun h => let (r, w) := m (core h) in (r, set_core w h).

Notation "'let&' x ':=' m 'in' k" := (hbind m (fun x => k))
  (at level 10, x name, m at level 100, k at level 200).
Notation "'run&' m 'in' k" := (hbind m (fun _ => k))
  (at level 10, m at level 100, k at level 200).

(** [{}], the default of the constructor's [options] parameter. *)
Definition empty_options : Options := mkOptions None false None None.

(** [x || 'xts'] for an optional channel name. *)
Definition name_or_xts (name : option string) : string :=
  match name with
  | Some s => if truthy_str s then s else "xts"
  | None => "xts"
  end.

(** [options?.channelName] *)
Definition channelName_of (options : option Options) : option string :=
  match options with
  | Some o => channelName o
  | None => None
  end.

(** The key of both maps: [`${channelName || 'xts'}-${key}`]. *)
Definition channelKey_of (name : option string) (key : string) : string :=
  name_or_xts name +:+ "-" +:+ key.

(** An argument of the setter the hook returns: a value or an updater
    function, which may throw. *)
Inductive SetArg : Type :=
| ArgValue (v : JsVal)
| ArgUpdater (f : JsVal -> Outcome JsVal).

(** The function the second effect returns: it captures the call site, the
    key, and the unsubscribe function of callback [fn] on channel [c]. *)
Record Cleanup : Type := mkCleanup {
  cl_site : nat;
  cl_key : string;
  cl_channel : nat;
  cl_fn : nat
}.

Section Hook.

Variable E : Env.

(** [getChannel] (lines 9-18); as in [getTransport], the result is the
    entry found or just stored. *)
Definition getChannel (key : string) (initialValue : JsVal) (options : option Options)
  : HM nat :=
  let channelKey := channelKey_of (channelName_of options) key in
  let& found := hget (fun h => channels h !! channelKey) in
  let& ch :=
    match found with
    | Some ch => hret ch
    | None =>
        let& ch := in_core (new_CrossTabChannel E key initialValue
                              (default empty_options options)) in
        run& hmodify (fun h => set_channels (<[channelKey := ch]> (channels h)) h) in
        run& hmodify (fun h => set_refs (<[channelKey := Fin 0]> (refs h)) h) in
        hret ch
    end in
  let& count := hget (fun h => refs h !! channelKey) in
  run& hmodify (fun h => set_refs (<[channelKey := num_succ count]> (refs h)) h) in
  hret ch.

(** [releaseChannel] (lines 20-31) *)
Definition releaseChannel (key : string) (name : option string) : HM unit :=
  let channelKey := channelKey_of name key in
  let& count := hget (fun h => num_or_0 (refs h !! channelKey)) in
  if num_le_1 count then
    let& ch := hget (fun h => channels h !! channelKey) in
    run& match ch with Some ch => in_core (destroy E ch) | None => hret tt end in
    run& hmodify (fun h => set_channels (delete channelKey (channels h)) h) in
    hmodify (fun h => set_refs (delete channelKey (refs h)) h)
  else
    hmodify (fun h => set_refs (<[channelKey := num_pred count]> (refs h)) h).

(** *** [useCrossTabState] (lines 33-74) *)

(** The first render of a call site creates its two refs (lines 39-40);
    the result is the address of the call site. *)
Definition use_refs (options : option Options) : HM nat :=
  fun h => (Ret (length (hook_refs h)),
            set_hook_refs (hook_refs h ++ [mkHookRefs None options]) h).

Definition update_refs (s : nat) (f : HookRefs -> HookRefs) : HM unit :=
  hmodify (fun h => set_hook_refs (alter f s (hook_refs h)) h).

(** [setState(v)] called by the hook's own code. *)
Definition setState (s : nat) (v : JsVal) : HM unit :=
  hmodify (fun h => set_setState_calls (setState_calls h ++ [(s, v)]) h).

(** The body of the first effect (line 43). *)
Definition effect_options (s : nat) (options : option Options) : HM unit :=
  update_refs s (with_optionsRef options).

(** The body of the second effect (lines 47-55) for call site [s]; [fn] is
    the callback [(value) => { setState(value); }] it creates.  The
    result is the cleanup it returns, if any. *)
Definition effect_mount (s : nat) (key : string) (initialValue : JsVal) (fn : nat)
  : HM (option Cleanup) :=
  if negb (has_window E) then hret None
  else
    let& site := hget (fun h => hook_refs h !! s) in
    match site with
    | None => hret None   (* no such call site: addresses only come from [use_refs] *)
    | Some r =>
        let& c := getChannel key initialValue (optionsRef r) in
        run& update_refs s (with_channelRef (Some c)) in
        let& v := in_core (getValue c) in
        run& setState s v in
        run& in_core (subscribe E c fn) in
        hret (Some (mkCleanup s key c fn))
    end.

(** The cleanup of the second effect (lines 56-60). *)
Definition effect_cleanup (k : Cleanup) : HM unit :=
  run& in_core (unsubscribe (cl_channel k) (cl_fn k)) in
  let& name := hget (fun h => channelName_of
                               (from_option optionsRef None (hook_refs h !! cl_site k))) in
  run& releaseChannel (cl_key k) name in
  update_refs (cl_site k) (with_channelRef None).

(** The setter the hook returns (lines 63-71). *)
Definition hook_setValue (s : nat) (value : SetArg) : HM unit :=
  let& current := hget (fun h => from_option channelRef None (hook_refs h !! s)) in
  match current with
  | None => hret tt
  | Some c =>
      match value with
      | ArgUpdater updater =>
          let& prev := in_core (getValue c) in
          let& v := hlift (updater prev) in
          in_core (setValue E c v)
      | ArgValue v => in_core (setValue E c v)
      end
  end.

End Hook.

(** The channel registry of the hook seen as a counter, as for the transport
    registry. *)
Inductive HookOp : Type :=
| HGet (key : string) (initialValue : JsVal) (options : option Options)
| HRelease (key : string) (name : option string).

Definition hook_perform (E : Env) (o : HookOp) : HM unit :=
  match o with
  | HGet key initialValue options => run& getChannel E key initialValue options in hret tt
  | HRelease key name => releaseChannel E key name
  end.

Definition hook_run (E : Env) (ops : list HookOp) (h : HookWorld) : HookWorld :=
  fold_left (fun h o => snd (hook_perform E o h)) ops h.

Definition hook_delta (ck : string) (o : HookOp) : Z :=
  match o with
  | HGet key _ options =>
      if String.eqb (channelKey_of (channelName_of options) key) ck then 1 else 0
  | HRelease key name =>
      if String.eqb (channelKey_of name key) ck then -1 else 0
  end.

Fixpoint hook_held (ck : string) (ops : list HookOp) : Z :=
  match ops with
  | [] => 0
  | o :: ops' => hook_delta ck o + hook_held ck ops'
  end.

Definition hook_paired (ops : list HookOp) : Prop :=
  forall (i : nat) (ck : string), 0 <= hook_held ck (take i ops).

(** ** Vocabulary of the proofs *)

(** [frame R m]: whatever [m] does, and however it ends, the world it leaves
    is related by [R] to the world it started in. *)
Definition frame {A} (R : relation World) (m : M A) : Prop :=
  forall w, R w (snd (m w)).

(** [total m]: [m] returns normally from every world. *)
Definition total {A} (m : M A) : Prop :=
  forall w, exists a, fst (m w) = Ret a.

(** Everything in a world but the cached identity and the session storage. *)
Definition rest (w : World) :=
  (now w, localStorage w, transports w, transportRefs w,
   transport_objs w, channel_objs w, storage_handlers w, trace w).

(** The identity is already cached (or is the server constant). *)
Definition cached_id (E : Env) (id : string) (w : World) : Prop :=
  if has_window E then tabId w = Some id /\ truthy_str id = true else id = "server".

(** What the persistence step leaves in localStorage. *)
Definition persist_ls (E : Env) (ch : Channel) (v : JsVal) (L : gmap string string)
  : gmap string string :=
  if persist (c_options ch) && has_window E then
    match c_serialize ch v with
    | Ret s =>
        if truthy_str s && negb (String.eqb s "undefined") then
          if ls_set_throws E L (c_storageKey ch) s then L
          else <[c_storageKey ch := s]> L
        else L
    | Exn => L
    end
  else L.

(** What publishing an object leaves in localStorage. *)
Definition publish_ls (E : Env) (tr : option Transport) (msg : JsVal) (L : gmap string string)
  : gmap string string :=
  match tr with
  | Some tr =>
      match t_kind tr with
      | TFallback =>
          if has_window E then
            match JSON_stringify E msg with
            | Ret text =>
                if ls_set_throws E L (slot_of (t_name tr)) text then L
                else <[slot_of (t_name tr) := text]> L
            | Exn => L
            end
          else L
      | _ => L
      end
  | None => L
  end.

(** The kind of transport [createTransport] builds, and the world it
    leaves. *)
Definition created_kind (E : Env) (channelName : string) : TKind :=
  if negb (has_window E) then TNoop
  else if has_BroadcastChannel E && negb (bc_new_throws E channelName) then TNative
  else TFallback.

Definition created_world (E : Env) (channelName : string) (w : World) : World :=
  set_storage_handlers
    (match created_kind E channelName with
     | TFallback => storage_handlers w ++ [length (transport_objs w)]
     | _ => storage_handlers w
     end)
    (set_transport_objs
       (transport_objs w ++ [mkTransport (created_kind E channelName) channelName [] false]) w).

(** The registry after a paired history [ops]: a name held [k > 0] times
    has count [k] and a transport object; a name not held is absent from
    both maps. *)
Definition registry_tracks (ops : list RegOp) (w : World) : Prop :=
  forall name,
    (0 < held name ops ->
       transportRefs w !! name = Some (Fin (held name ops)) /\
       exists t, transports w !! name = Some t /\ is_Some (transport_objs w !! t)) /\
    (held name ops = 0 ->
       transportRefs w !! name = None /\ transports w !! name = None).

(** What [destroy()] of transport [t] releases between [w] and [w']: the
    BroadcastChannel of a native transport is closed, the [storage] listener
    of a fallback is removed from [window], and in both the listener set is
    emptied; the no-op transport holds nothing. *)
Definition shut_down (E : Env) (t : nat) (w w' : World) : Prop :=
  exists tr tr',
    transport_objs w !! t = Some tr /\ transport_objs w' !! t = Some tr' /\
    t_kind tr' = t_kind tr /\ t_name tr' = t_name tr /\
    match t_kind tr with
    | TNoop => tr' = tr /\ storage_handlers w' = storage_handlers w
    | TNative => t_closed tr' = true /\ t_listeners tr' = [] /\
                 storage_handlers w' = storage_handlers w
    | TFallback => t_listeners tr' = [] /\
                   (has_window E = true -> t ∉ storage_handlers w')
    end.

(** Every transport object other than [t], and every [storage] listener
    other than that of [t], is as before. *)
Definition others_kept (t : nat) (w w' : World) : Prop :=
  (forall t', t' <> t -> transport_objs w' !! t' = transport_objs w !! t') /\
  (forall h, h <> t -> h ∈ storage_handlers w' <-> h ∈ storage_handlers w).

(** The subscriber calls of channel [c], as a filter on events. *)
Definition is_sub_of (c : nat) (e : Event) : bool :=
  match e with
  | EvSub c' _ _ => Nat.eqb c' c
  | _ => false
  end.

Definition keep_none : Event -> bool := fun _ => false.
Definition any_message : JsVal -> Prop := fun _ => True.

(** Channel [c] is the object [ch] before and after, and it made no
    subscriber call in between. *)
Definition untouched (c : nat) (ch : Channel) : relation World := fun w w' =>
  channel_objs w !! c = Some ch ->
  channel_objs w' !! c = Some ch /\
  List.filter (is_sub_of c) (trace w') = List.filter (is_sub_of c) (trace w).

Definition foreign_key (ch : Channel) (m : JsVal) : Prop :=
  strict_eq_str (get_prop "key" m) (c_key ch) = false.

(** Channel [c] has no subscriber (or does not exist yet). *)
Definition subs_empty (c : nat) (w : World) : Prop :=
  from_option c_subscribers [] (channel_objs w !! c) = [].

Definition keeps_silent (c : nat) : relation World :=
  fun w w' => subs_empty c w -> subs_empty c w'.

Definition same_channels : relation World :=
  fun w w' => channel_objs w' = channel_objs w.

(** The persistence step of channel [ch] writes nothing for [v]: the
    channel does not persist, there is no window, or [serialize(v)] throws
    or gives the empty text or the text [undefined]. *)
Definition skips_persist (E : Env) (ch : Channel) (v : JsVal) : Prop :=
  persist (c_options ch) = false \/ has_window E = false \/
  c_serialize ch v = Exn \/ c_serialize ch v = Ret "" \/ c_serialize ch v = Ret "undefined".

(** No channel object for [key] has a persistence step that writes [v]. *)
Definition none_persists (E : Env) (key : string) (v : JsVal) (w : World) : Prop :=
  forall c ch, channel_objs w !! c = Some ch -> c_key ch = key -> skips_persist E ch v.

(** From a world in which no channel for [key] persists [v]: that is still
    so, and localStorage is as it was. *)
Definition storage_kept (E : Env) (key : string) (v : JsVal) : relation World := fun w w' =>
  none_persists E key v w ->
  none_persists E key v w' /\ localStorage w' = localStorage w.

(** Callback [fn] is not in the subscriber set of channel [c]. *)
Definition not_subscribed (c fn : nat) (w : World) : Prop :=
  fn ∉ from_option c_subscribers [] (channel_objs w !! c).

(** From a world in which [fn] is not subscribed to [c]: it is still not
    subscribed, and [c] has not called it. *)
Definition mute (c fn : nat) : relation World := fun w w' =>
  not_subscribed c fn w ->
  not_subscribed c fn w' /\ calls_of c fn (trace w') = calls_of c fn (trace w).

(** Nothing was called and no object changed, and the identity is still
    [id]. *)
Definition suppressed (E : Env) (id : string) : relation World := fun w w' =>
  local_id E w id -> rest w' = rest w /\ local_id E w' id.

(** A window whose localStorage never throws. *)
Definition storage_works (E : Env) : Prop :=
  has_window E = true /\
  (forall k, ls_get_throws E k = false) /\
  (forall L k v, ls_set_throws E L k v = false).

(** BroadcastChannel is there and can be constructed, and no transport
    object of the world is a storage fallback. *)
Definition native_strategy (E : Env) (w : World) : Prop :=
  has_BroadcastChannel E = true /\
  (forall n, bc_new_throws E n = false) /\
  (forall t tr, transport_objs w !! t = Some tr -> t_kind tr <> TFallback).

(** The fields the constructor gives a channel for [{ persist: true }] and
    the default [serialize]. *)
Definition persists_with_default (E : Env) (ch : Channel) : Prop :=
  persist (c_options ch) = true /\
  c_serialize ch = JSON_stringify E /\
  c_storageKey ch = "xts-" +:+ c_key ch.

(** The events a step added: the trace of [w'] beyond that of [w]. *)
Definition new_events (w w' : World) : list Event :=
  drop (length (trace w)) (trace w').

(** No channel and no transport object has been created yet. *)
Definition fresh_module (w : World) : Prop :=
  channel_objs w = [] /\ transport_objs w = [].

(** The lists that stand for JavaScript Sets hold every member once. *)
Definition sets_distinct (w : World) : Prop :=
  (forall c ch, channel_objs w !! c = Some ch -> NoDup (c_subscribers ch)) /\
  (forall t tr, transport_objs w !! t = Some tr -> NoDup (t_listeners tr)).

Definition keeps (I : World -> Prop) : relation World := fun w w' => I w -> I w'.

(** An accepted value: [getValue()] reads [v] in [w'], and between [w] and
    [w'] every subscriber in [ch] was called once more, with [v]. *)
Definition adopted (c : nat) (ch : Channel) (v : JsVal) (w w' : World) : Prop :=
  fst (getValue c w') = Ret v /\
  (forall fn, fn ∈ c_subscribers ch ->
     calls_of c fn (trace w') = calls_of c fn (trace w) ++ [v]) /\
  (forall fn, fn ∉ c_subscribers ch ->
     calls_of c fn (trace w') = calls_of c fn (trace w)).

(** No storage-fallback transport exists or can come into being: there is
    no window, or BroadcastChannel is there and can be constructed. *)
Definition no_fallback (E : Env) (w : World) : Prop :=
  (forall n, created_kind E n <> TFallback) /\
  (forall t tr, transport_objs w !! t = Some tr -> t_kind tr <> TFallback).

(** What the restore step of the constructor adopts, if anything. *)
Definition restored (E : Env) (key : string) (options : Options) (L : gmap string string)
  : option JsVal :=
  if persist options && has_window E then
    if ls_get_throws E ("xts-" +:+ key) then None
    else
      match L !! ("xts-" +:+ key) with
      | Some text =>
          if truthy_str text && negb (String.eqb text "undefined") && trim_truthy text then
            match default (JSON_parse E) (deserialize options) text with
            | Ret v => Some v
            | Exn => None
            end
          else None
      | None => None
      end
  else None.

(** What the read at subscribe time of a fallback transport named [name]
    hands to the listener of a new channel for [key], when the listener
    accepts it (lines 119-129, then 199-203). *)
Definition replayed (E : Env) (name key : string) (L : gmap string string) : option JsVal :=
  if negb (has_window E) then None
  else if ls_get_throws E (slot_of name) then None
  else
    match L !! slot_of name with
    | Some text =>
        if truthy_str text then
          match JSON_parse E text with
          | Ret msg =>
              if well_formed msg && typeof_object msg && negb (is_null msg)
                 && strict_eq_str (get_prop "key" msg) key
                 && negb (is_undefined (get_prop "value" msg))
              then Some (get_prop "value" msg)
              else None
          | Exn => None
          end
        else None
    | None => None
    end.

(** The kind of the transport a channel constructed in [w] with channel
    name [name] gets: the registered one, or the one [createTransport]
    makes. *)
Definition joined_kind (E : Env) (w : World) (name : string) : option TKind :=
  match transports w !! name with
  | Some t => t_kind <$> transport_objs w !! t
  | None => Some (created_kind E name)
  end.

(** What the constructor of a channel for [key] with channel name [name]
    gets replayed in [w]: something only from a fallback transport. *)
Definition replayed_in (E : Env) (w : World) (name key : string) : option JsVal :=
  match joined_kind E w name with
  | Some TFallback => replayed E name key (localStorage w)
  | _ => None
  end.

(** The value a channel constructed in [w] starts with: the value replayed
    by a fallback transport, else the restored one, else [initialValue]. *)
Definition first_value (E : Env) (w : World) (key : string) (init : JsVal) (opts : Options)
  : JsVal :=
  default (default init (restored E key opts (localStorage w)))
    (replayed_in E w (channel_name_of opts) key).

(** The transport registered under [name], if any, carries that name. *)
Definition registry_named (name : string) (w : World) : Prop :=
  forall t tr, transports w !! name = Some t -> transport_objs w !! t = Some tr ->
               t_name tr = name.

(** The constructor finds nothing it can restore for [key]. *)
Definition nothing_to_restore (E : Env) (key : string) (options : Options) (w : World)
  : Prop :=
  persist options = false \/
  has_window E = false \/
  ls_get_throws E ("xts-" +:+ key) = true \/
  localStorage w !! ("xts-" +:+ key) = None \/
  exists text,
    localStorage w !! ("xts-" +:+ key) = Some text /\
    (text = "" \/ text = "undefined" \/ trim_truthy text = false \/
     default (JSON_parse E) (deserialize options) text = Exn).

(** The registry, the transport objects' addresses and the record of
    destroyed transports are as before. *)
Definition registry_kept : relation World := fun w w' =>
  transports w' = transports w /\
  transportRefs w' = transportRefs w /\
  destroyed (trace w') = destroyed (trace w) /\
  length (transport_objs w') = length (transport_objs w).

(** Channel [c] exists and was constructed with [opts]. *)
Definition built_with (c : nat) (opts : Options) (w : World) : Prop :=
  exists ch, channel_objs w !! c = Some ch /\ c_options ch = opts.

(** The registry knows [n] consistently: not at all, or with a transport
    object and a positive count. *)
Definition registry_sound (n : string) (w : World) : Prop :=
  (transports w !! n = None /\ transportRefs w !! n = None) \/
  (exists t k, transports w !! n = Some t /\ is_Some (transport_objs w !! t) /\
               transportRefs w !! n = Some (Fin k) /\ 0 < k).

(** The hook's registry after a paired history [ops]: a composite key held
    [k > 0] times has count [k] and a channel; a key not held is absent
    from both maps. *)
Definition hook_tracks (ops : list HookOp) (h : HookWorld) : Prop :=
  forall ck,
    (0 < hook_held ck ops ->
       refs h !! ck = Some (Fin (hook_held ck ops)) /\ is_Some (channels h !! ck)) /\
    (hook_held ck ops = 0 -> refs h !! ck = None /\ channels h !! ck = None).

(** The hook's registry knows [ck] consistently: not at all, or with a
    channel object and a positive count. *)
Definition hook_sound (ck : string) (h : HookWorld) : Prop :=
  (channels h !! ck = None /\ refs h !! ck = None) \/
  (exists c k, channels h !! ck = Some c /\ is_Some (channel_objs (core h) !! c) /\
               refs h !! ck = Some (Fin k) /\ 0 < k).

(** The subscribers of channel [c], none if there is no such object. *)
Definition subscribers_of (c : nat) (w : World) : list nat :=
  from_option c_subscribers [] (channel_objs w !! c).

(** Channel [c] exists and its listener is in no transport's listener set. *)
Definition detached (c : nat) (w : World) : Prop :=
  (c < length (channel_objs w))%nat /\
  forall t tr, transport_objs w !! t = Some tr -> LChan c ∉ t_listeners tr.

(** The calls of the listener of channel [c], as a filter on events. *)
Definition is_call_of (c : nat) (e : Event) : bool :=
  match e with
  | EvListener _ (LChan c') _ => Nat.eqb c' c
  | _ => false
  end.

(** From a world in which [c] is detached: [c] stays detached and its
    listener is not called; with [b], the value of [c] stays too. *)
Definition deaf (b : bool) (c : nat) : relation World := fun w w' =>
  detached c w ->
  detached c w' /\
  List.filter (is_call_of c) (trace w') = List.filter (is_call_of c) (trace w) /\
  (b = true -> fst (getValue c w') = fst (getValue c w)).

(** The constructor registered the listener of [c] on transport [t], and it
    is registered nowhere else. *)
Definition listens_on (c t : nat) (w : World) : Prop :=
  (exists ch, channel_objs w !! c = Some ch /\ c_unsubscribe ch = Some (UDelete t (LChan c))) /\
  forall t' tr', t' <> t -> transport_objs w !! t' = Some tr' -> LChan c ∉ t_listeners tr'.

(** What the platform holds for the module: both storages and the
    [storage] listeners on [window]. *)
Definition platform_state (w : World) :=
  (localStorage w, sessionStorage w, storage_handlers w).

Definition platform_kept : relation World := fun w w' =>
  platform_state w' = platform_state w /\ tabId w' = tabId w.

(** *** Vocabulary for consumers that call back *)

(** [lframe R m]: whenever [m] ends, the state it leaves is related by [R]
    to the state it started in. *)
Definition lframe {A} (R : relation Live.State) (m : Live.LM A) : Prop :=
  forall s r s', m s = Some (r, s') -> R s s'.

(** Call [k] changes channel [c] or makes it call: every call on [c] but
    [getValue()]. *)
Definition touches (c : nat) (k : Live.Call) : bool :=
  match k with
  | Live.CSetValue c' _ | Live.CSubscribe c' _ | Live.CUnsubscribe c' _ | Live.CDestroy c' =>
      Nat.eqb c' c
  | Live.CNew _ _ _ | Live.CGetValue _ => false
  end.

(** No callback of consumer [K] calls [setValue], [subscribe], an
    unsubscribe function or [destroy] of channel [c]. *)
Definition hands_off (K : Live.Consumer) (c : nat) : Prop :=
  forall fn v w k, k ∈ K fn v w -> touches c k = false.

(** The callbacks [fns], called with [v], make no call at all. *)
Definition quiet (K : Live.Consumer) (fns : list nat) (v : JsVal) : Prop :=
  forall fn w, fn ∈ fns -> K fn v w = [].

(** Two loops over the same set; one over the subscribers of [c] has the
    same entries still to visit. *)
Definition loop_rel (c : nat) (l l' : Live.Loop) : Prop :=
  match l, l' with
  | Live.SubLoop a p, Live.SubLoop a' p' => a = a' /\ (a = c -> p' = p)
  | Live.LisLoop t _, Live.LisLoop t' _ => t = t'
  | _, _ => False
  end.

(** Channel [c] is the object [ch] before and after, it made no subscriber
    call in between, and the loops in progress are the same, those over its
    subscribers with the same entries to visit. *)
Definition aside (c : nat) (ch : Channel) : relation Live.State := fun s s' =>
  channel_objs (Live.world s) !! c = Some ch ->
  channel_objs (Live.world s') !! c = Some ch /\
  List.filter (is_sub_of c) (trace (Live.world s'))
  = List.filter (is_sub_of c) (trace (Live.world s)) /\
  Forall2 (loop_rel c) (Live.loops s) (Live.loops s').

(** What is seen of a call on the module in world [w] once it ended: how
    it ended, what [getValue()] of channel [c] reads, and the calls of
    callbacks and listeners it made. *)
Definition seen (c : nat) (w : World) (o : option (Outcome unit * Live.State))
  : option (Outcome unit * Outcome JsVal * list Event) :=
  match o with
  | Some (r, s) => Some (r, fst (getValue c (Live.world s)), new_events w (Live.world s))
  | None => None
  end.

(** ** Concrete scenarios *)

(** A browser whose storage works, with or without BroadcastChannel (which
    echoes, as the test suite's does), running the codec [JSON]; consumer
    callback 13 throws. *)
Definition scenario_env (bc : bool) : Env :=
  mkEnv true bc (fun _ => false) (fun _ => false) true
    (fun _ => false) (fun _ _ _ => false) (fun _ => false) (fun _ _ _ => false)
    "r4nd0m" JSON.stringify JSON.parse (fun f _ => Nat.eqb f 13).

Definition browser_env : Env := scenario_env true.
Definition fallback_env : Env := scenario_env false.

Definition default_options : Options := mkOptions None false None None.
Definition persist_options : Options := mkOptions None true None None.
Definition empty_serialize_options : Options :=
  mkOptions None true (Some (fun _ => Ret "")) None.

(** One channel for key [k] with three subscribers, in a browser. *)
Definition demo_world : World :=
  run browser_env
    [ANew "k" (VStr "a") default_options;
     ASubscribe 0 1; ASubscribe 0 13; ASubscribe 0 2]
    (init_world 0).

Definition demo_channel : Channel :=
  mkChannel "k" (VStr "a") [1; 13; 2]%nat 0 "xts-k"
    JSON.stringify JSON.parse default_options (Some (UDelete 0 (LChan 0))).

(** One persisting channel for key [k], in a browser. *)
Definition persist_world : World :=
  run browser_env [ANew "k" (VStr "a") persist_options] (init_world 0).

Definition persist_channel : Channel :=
  mkChannel "k" (VStr "a") [] 0 "xts-k"
    JSON.stringify JSON.parse persist_options (Some (UDelete 0 (LChan 0))).

(** The same without BroadcastChannel. *)
Definition persist_fallback_world : World :=
  run fallback_env [ANew "k" (VStr "a") persist_options] (init_world 0).

(** One persisting channel whose [serialize] always gives the empty
    string. *)
Definition empty_serialize_world : World :=
  run browser_env [ANew "k" (VStr "a") empty_serialize_options] (init_world 0).

Definition empty_serialize_channel : Channel :=
  mkChannel "k" (VStr "a") [] 0 "xts-k"
    (fun _ => Ret "") JSON.parse empty_serialize_options (Some (UDelete 0 (LChan 0))).

(** A fresh module over a localStorage that holds [text] in slot [k]. *)
Definition world_with (k text : string) : World :=
  set_localStorage {[ k := text ]} (init_world 0).

(** An envelope from another context for another key. *)
Definition foreign_envelope : JsVal := envelope (VStr "z") "other" "other-tab" 5.

(** ** More scenarios *)

(** The page of [init_world 0] after its first [getTabId()], and the same
    page reloaded at time 99: the module starts again, the session storage
    is kept. *)
Definition identified_world : World := snd (getTabId browser_env (init_world 0)).

Definition reloaded_world : World :=
  mkWorld 99 ∅ (sessionStorage identified_world) None ∅ ∅ [] [] [] [].

(** A channel to which callback 1 was subscribed twice. *)
Definition twice_subscribed : list Action :=
  [ANew "k" (VStr "a") default_options; ASubscribe 0 1; ASubscribe 0 1; ASubscribe 0 2].

Definition twice_subscribed_channel : Channel :=
  mkChannel "k" (VStr "a") [1; 2]%nat 0 "xts-k"
    JSON.stringify JSON.parse default_options (Some (UDelete 0 (LChan 0))).

(** Two channel objects for the same key on the same transport; callback 1
    is subscribed to the second. *)
Definition siblings_world : World :=
  run browser_env
    [ANew "k" (VStr "a") default_options; ANew "k" (VStr "b") default_options;
     ASubscribe 1 1]
    (init_world 0).

Definition sibling_channel : Channel :=
  mkChannel "k" (VStr "b") [1]%nat 0 "xts-k"
    JSON.stringify JSON.parse default_options (Some (UDelete 0 (LChan 1))).

Definition first_sibling : Channel :=
  mkChannel "k" (VStr "a") [] 0 "xts-k"
    JSON.stringify JSON.parse default_options (Some (UDelete 0 (LChan 0))).

(** Two channels for the same key on transports of different names. *)
Definition other_options : Options := mkOptions (Some "other") false None None.

Definition two_names_world : World :=
  run browser_env
    [ANew "k" (VStr "a") default_options; ANew "k" (VStr "b") other_options]
    (init_world 0).

Definition other_name_channel : Channel :=
  mkChannel "k" (VStr "b") [] 1 "xts-k"
    JSON.stringify JSON.parse other_options (Some (UDelete 1 (LChan 1))).

(** Two contexts without BroadcastChannel: the writer, loaded at time 0,
    and the reader, loaded at time 7, with a subscriber. *)
Definition writer_world : World :=
  run fallback_env [ANew "k" (VStr "a") default_options] (init_world 0).

Definition writer_channel : Channel :=
  mkChannel "k" (VStr "a") [] 0 "xts-k"
    JSON.stringify JSON.parse default_options (Some (UDelete 0 (LChan 0))).

Definition reader_actions : list Action :=
  [ANew "k" (VStr "b") default_options; ASubscribe 0 1].

Definition reader_channel : Channel :=
  mkChannel "k" (VStr "b") [1]%nat 0 "xts-k"
    JSON.stringify JSON.parse default_options (Some (UDelete 0 (LChan 0))).

Definition written_envelope : JsVal := envelope (VStr "x") "k" "0-r4nd0m" 0.

(** A server: no window. *)
Definition server_env : Env :=
  mkEnv false false (fun _ => false) (fun _ => false) false
    (fun _ => false) (fun _ _ _ => false) (fun _ => false) (fun _ _ _ => false)
    "r4nd0m" JSON.stringify JSON.parse (fun _ _ => false).

(** The hook module over a fresh core, with one and with two call sites
    rendered with no options. *)
Definition one_site : HookWorld := snd (use_refs None (hook_world (init_world 0))).
Definition two_sites : HookWorld := snd (use_refs None one_site).

Definition site_refs : HookRefs := mkHookRefs None None.

(** The writer after its own [setValue("x")]: the slot of its transport
    holds the envelope. *)
Definition written_world : World := snd (setValue fallback_env 0 (VStr "x") writer_world).

(** ** Scenarios with callbacks that call back *)

(** One channel with the subscribers 1 and 2. *)
Definition pair_world : World :=
  run browser_env [ANew "k" (VStr "a") default_options; ASubscribe 0 1; ASubscribe 0 2]
    (init_world 0).

Definition pair_channel : Channel :=
  mkChannel "k" (VStr "a") [1; 2]%nat 0 "xts-k"
    JSON.stringify JSON.parse default_options (Some (UDelete 0 (LChan 0))).

(** Callback 1 unsubscribes callback 2 from channel 0. *)
Definition unsubscriber : Live.Consumer :=
  fun fn _ _ => if Nat.eqb fn 1 then [Live.CUnsubscribe 0 2] else [].

(** Callback 1, called with [x], sets channel 0 to [y]. *)
Definition resetter : Live.Consumer :=
  fun fn v _ =>
    match fn, v with
    | 1%nat, VStr "x" => [Live.CSetValue 0 (VStr "y")]
    | _, _ => []
    end.

(** Callback 1 reads channel 0 and makes a channel for another key. *)
Definition bystander : Live.Consumer :=
  fun fn _ _ =>
    if Nat.eqb fn 1 then [Live.CGetValue 0; Live.CNew "other" (VStr "o") default_options]
    else [].

(** Callback 1 subscribes callback 2 to channel 0 once more. *)
Definition resubscriber : Live.Consumer :=
  fun fn _ _ => if Nat.eqb fn 1 then [Live.CSubscribe 0 2] else [].

(** Callback 1 destroys channel 0. *)
Definition destroyer : Live.Consumer :=
  fun fn _ _ => if Nat.eqb fn 1 then [Live.CDestroy 0] else [].

(** * Proofs *)

(** ** Reasoning rules *)

Section Rules.
Context (R : relation World) `{!PreOrder R}.

Lemma frame_ret {A} (a : A) : frame R (ret a).
Proof. intros w. reflexivity. Qed.

Lemma frame_throw {A} : frame R (@throw A).
Proof. intros w. reflexivity. Qed.

Lemma frame_get {A} (f : World -> A) : frame R (get f).
Proof. intros w. reflexivity. Qed.

Lemma frame_lift {A} (o : Outcome A) : frame R (lift o).
Proof. intros w. reflexivity. Qed.

Lemma frame_modify (f : World -> World) :
  (forall w, R w (f w)) -> frame R (modify f).
Proof. intros H w. apply H. Qed.

Lemma frame_bind {A B} (m : M A) (k : A -> M B) :
  frame R m -> (forall a, frame R (k a)) -> frame R (bind m k).
Proof.
  intros Hm Hk w. unfold bind. specialize (Hm w).
  destruct (m w) as [[a|] w1]; simpl in *; [|exact Hm].
  etransitivity; [exact Hm|apply Hk].
Qed.

Lemma frame_bind_lift {A B} (o : Outcome A) (k : A -> M B) :
  (forall a, o = Ret a -> frame R (k a)) -> frame R (bind (lift o) k).
Proof.
  intros Hk w. unfold bind, lift. destruct o as [a|]; simpl; [|reflexivity].
  apply Hk. reflexivity.
Qed.

Lemma frame_try_catch {A} (m h : M A) :
  frame R m -> frame R h -> frame R (try_catch m h).
Proof.
  intros Hm Hh w. unfold try_catch. specialize (Hm w).
  destruct (m w) as [[a|] w1]; simpl in *; [exact Hm|].
  etransitivity; [exact Hm|apply Hh].
Qed.

Lemma frame_try (m : M unit) : frame R m -> frame R (try_ m).
Proof. intros Hm. apply frame_try_catch; [exact Hm|apply frame_ret]. Qed.

Lemma frame_for_each {A} (f : A -> M unit) (l : list A) :
  (forall x, frame R (f x)) -> frame R (for_each f l).
Proof.
  intros Hf. induction l as [|x l IH]; simpl.
  - apply frame_ret.
  - apply frame_bind; [apply Hf|intros _; exact IH].
Qed.
End Rules.

Lemma total_ret {A} (a : A) : total (ret a).
Proof. intros w. eauto. Qed.

Lemma total_get {A} (f : World -> A) : total (get f).
Proof. intros w. eauto. Qed.

Lemma total_modify (f : World -> World) : total (modify f).
Proof. intros w. eauto. Qed.

Lemma total_bind {A B} (m : M A) (k : A -> M B) :
  total m -> (forall a, total (k a)) -> total (bind m k).
Proof.
  intros Hm Hk w. unfold bind. destruct (Hm w) as [a Ha].
  destruct (m w) as [[a'|] w1]; simpl in *; [|discriminate].
  apply Hk.
Qed.

Lemma total_try_catch {A} (m h : M A) : total h -> total (try_catch m h).
Proof.
  intros Hh w. unfold try_catch.
  destruct (m w) as [[a|] w1]; simpl; [eauto|apply Hh].
Qed.

Lemma total_try (m : M unit) : total (try_ m).
Proof. apply total_try_catch, total_ret. Qed.

Lemma total_for_each {A} (f : A -> M unit) (l : list A) :
  (forall x, total (f x)) -> total (for_each f l).
Proof.
  intros Hf. induction l as [|x l IH]; simpl.
  - apply total_ret.
  - apply total_bind; [apply Hf|intros _; exact IH].
Qed.

Lemma bind_ret_eq {A B} (m : M A) (k : A -> M B) a w w' :
  m w = (Ret a, w') -> bind m k w = k a w'.
Proof. intros H. unfold bind. rewrite H. reflexivity. Qed.

Lemma total_returns {A} (m : M A) w : total m -> returns (m w).
Proof. intros H. destruct (H w) as [a Ha]. unfold returns. rewrite Ha. exact I. Qed.

Ltac frame_step :=
  match goal with
  | |- frame ?R (ret _) => apply (frame_ret R)
  | |- frame ?R throw => apply (frame_throw R)
  | |- frame ?R (get _) => apply (frame_get R)
  | |- frame ?R (lift _) => apply (frame_lift R)
  | |- frame ?R (try_ _) => apply (frame_try R)
  | |- frame ?R (try_catch _ _) => apply (frame_try_catch R)
  | |- frame ?R (bind (lift _) _) => apply (frame_bind_lift R); intros ? ?
  | |- frame ?R (bind _ _) => apply (frame_bind R); [|intros ?]
  | |- frame ?R (for_each _ _) => apply (frame_for_each R); intros ?
  | |- frame _ (match ?x with _ => _ end) => destruct x
  | |- frame _ (if ?b then _ else _) => destruct b
  end.

Ltac total_step :=
  match goal with
  | |- total (ret _) => apply total_ret
  | |- total (get _) => apply total_get
  | |- total (modify _) => apply total_modify
  | |- total (emit _) => apply total_modify
  | |- total (update_transport _ _) => apply total_modify
  | |- total (update_channel _ _) => apply total_modify
  | |- total (try_ _) => apply total_try
  | |- total (try_catch _ _) => apply total_try_catch
  | |- total (bind _ _) => apply total_bind; [|intros ?]
  | |- total (for_each _ _) => apply total_for_each; intros ?
  | |- total (match ?x with _ => _ end) => destruct x
  | |- total (if ?b then _ else _) => destruct b
  end.

#[global] Instance keeps_preorder (I : World -> Prop) : PreOrder (keeps I).
Proof. split; [intros w H; exact H|intros w1 w2 w3 H12 H23 H; auto]. Qed.

(** One operation of the module is opened at a time, so that a lemma about
    it is tried before its body is looked at. *)
Ltac frame_open :=
  match goal with
  | |- frame _ (new_CrossTabChannel _ _ _ _) => unfold new_CrossTabChannel
  | |- frame _ (restore_persisted _ _ _ _) => unfold restore_persisted
  | |- frame _ (getValue _) => unfold getValue
  | |- frame _ (setValue _ _ _) => unfold setValue
  | |- frame _ (subscribe _ _ _) => unfold subscribe
  | |- frame _ (unsubscribe _ _) => unfold unsubscribe
  | |- frame _ (destroy _ _) => unfold destroy
  | |- frame _ (bc_message _ _ _) => unfold bc_message
  | |- frame _ (storage_event _ _ _) => unfold storage_event
  | |- frame _ (storage_handler _ _ _ _) => unfold storage_handler
  | |- frame _ (onmessage _ _ _) => unfold onmessage
  | |- frame _ (deliver _ _ _) => unfold deliver
  | |- frame _ (forward _ _ _) => unfold forward
  | |- frame _ (call_listener _ _ _ _) => unfold call_listener
  | |- frame _ (channel_listener _ _ _) => unfold channel_listener
  | |- frame _ (notify_subscribers _ _ _) => unfold notify_subscribers
  | |- frame _ (persist_value _ _ _) => unfold persist_value
  | |- frame _ (transport_publish _ _ _) => unfold transport_publish
  | |- frame _ (transport_subscribe _ _ _) => unfold transport_subscribe
  | |- frame _ (transport_destroy _ _) => unfold transport_destroy
  | |- frame _ (call_unsubscribe _) => unfold call_unsubscribe
  | |- frame _ (envelope_of _ _) => unfold envelope_of
  | |- frame _ (postMessage _ _ _) => unfold postMessage
  | |- frame _ (getTransport _ _) => unfold getTransport
  | |- frame _ (releaseTransport _ _) => unfold releaseTransport
  | |- frame _ (createTransport _ _) => unfold createTransport
  | |- frame _ (call_callback _ _ _ _) => unfold call_callback
  | |- frame _ Date_now => unfold Date_now
  end.

Ltac frames leaf := repeat first [frame_step | leaf | frame_open].

Lemma NoDup_set_add {A} `{EqDecision A} (x : A) l : NoDup l -> NoDup (set_add x l).
Proof.
  intros H. unfold set_add. destruct (bool_decide_reflect (x ∈ l)) as [Hin|Hn]; [exact H|].
  apply NoDup_app. split; [exact H|]. split; [|apply NoDup_singleton].
  intros y Hy Hy'. apply list_elem_of_singleton in Hy'. subst. contradiction.
Qed.

Lemma elem_of_set_delete {A} `{EqDecision A} (x y : A) l :
  y ∈ set_delete x l <-> y ∈ l /\ y <> x.
Proof.
  induction l as [|z l IH]; simpl.
  - split; [intros H; inversion H|intros [H _]; inversion H].
  - destruct (bool_decide_reflect (z = x)) as [->|Hne].
    + rewrite IH. split; [intros [? ?]; split; [right|]; assumption|].
      intros [Hin Hyx]. split; [|exact Hyx]. inversion Hin; subst; [contradiction|assumption].
    + rewrite !elem_of_cons, IH. split.
      * intros [->|[? ?]]; [split; [left; reflexivity|exact Hne]|split; [right|]; assumption].
      * intros [[->|Hin] Hyx]; [left; reflexivity|right; split; assumption].
Qed.

Lemma NoDup_set_delete {A} `{EqDecision A} (x : A) l : NoDup l -> NoDup (set_delete x l).
Proof.
  induction 1 as [|z l Hz Hnd IH]; simpl; [constructor|].
  destruct (bool_decide (z = x)); [exact IH|].
  constructor; [|exact IH]. rewrite elem_of_set_delete. intros [Hin _]. contradiction.
Qed.

Lemma elem_of_set_add {A} `{EqDecision A} (x : A) l : x ∈ set_add x l.
Proof.
  unfold set_add. destruct (bool_decide_reflect (x ∈ l)); [assumption|].
  apply elem_of_app. right. left.
Qed.

Lemma not_elem_of_set_delete {A} `{EqDecision A} (x : A) l : x ∉ set_delete x l.
Proof. rewrite elem_of_set_delete. tauto. Qed.

(** ** The identity *)

Section Identity.
Variable E : Env.

Lemma cached_getTabId id w : cached_id E id w -> getTabId E w = (Ret id, w).
Proof.
  unfold cached_id, getTabId. destruct (has_window E); simpl.
  - intros [Ht Hs]. unfold bind, get. simpl. rewrite Ht, Hs. reflexivity.
  - intros ->. reflexivity.
Qed.

Lemma truthy_generated (t : Z) (r : string) : truthy_str (pretty t +:+ "-" +:+ r) = true.
Proof.
  unfold truthy_str. destruct (pretty t +:+ "-" +:+ r) eqn:Heq; [|reflexivity].
  exfalso. destruct (pretty t); simpl in Heq; discriminate.
Qed.

(** Without a cached identity, one is adopted from the session storage or
    generated, and is cached from then on. *)
Lemma getTabId_uncached_spec w :
  has_window E = true ->
  exists id T S,
    getTabId_uncached E w = (Ret id, set_sessionStorage S (set_tabId T w)) /\
    cached_id E id (set_sessionStorage S (set_tabId T w)).
Proof.
  intros Hw. unfold cached_id. rewrite Hw.
  unfold getTabId_uncached, bind, get, try_catch, try_, try_catch, sessionStorage_getItem,
    sessionStorage_setItem, modify, Date_now, get, ret. simpl.
  destruct (ss_get_throws E "xts-tid"); simpl;
    [|destruct (sessionStorage w !! "xts-tid") as [st|]; simpl;
      [destruct (truthy_str st) eqn:Hst; simpl;
       [exists st, (Some st), (sessionStorage w); split; [reflexivity|simpl; auto]|]|]];
    (destruct (ss_set_throws E _ _ _); simpl;
     [eexists _, (Some _), (sessionStorage w)|eexists _, (Some _), _];
     (split; [reflexivity|simpl; auto using truthy_generated])).
Qed.

Lemma getTabId_spec w :
  exists id T S,
    getTabId E w = (Ret id, set_sessionStorage S (set_tabId T w)) /\
    cached_id E id (set_sessionStorage S (set_tabId T w)).
Proof.
  assert (Hsame : forall id, cached_id E id w ->
            exists id T S,
              getTabId E w = (Ret id, set_sessionStorage S (set_tabId T w)) /\
              cached_id E id (set_sessionStorage S (set_tabId T w))).
  { intros id Hc. exists id, (tabId w), (sessionStorage w).
    replace (set_sessionStorage (sessionStorage w) (set_tabId (tabId w) w)) with w
      by (destruct w; reflexivity).
    split; [apply cached_getTabId, Hc|exact Hc]. }
  destruct (has_window E) eqn:Hw.
  2:{ apply (Hsame "server"). unfold cached_id. rewrite Hw. reflexivity. }
  destruct (tabId w) as [s|] eqn:Ht; [destruct (truthy_str s) eqn:Hs|].
  - apply (Hsame s). unfold cached_id. rewrite Hw. auto.
  - unfold getTabId, bind, get. rewrite Hw. simpl. rewrite Ht, Hs.
    apply getTabId_uncached_spec, Hw.
  - unfold getTabId, bind, get. rewrite Hw. simpl. rewrite Ht.
    apply getTabId_uncached_spec, Hw.
Qed.
End Identity.

Lemma set_trace_id w : set_trace (trace w) w = w.
Proof. destruct w; reflexivity. Qed.

Lemma set_trace_twice a b w : set_trace b (set_trace a w) = set_trace b w.
Proof. reflexivity. Qed.

Section Calls.
Variable E : Env.

Lemma call_callback_try ev f v w :
  try_ (call_callback E ev f v) w = (Ret tt, set_trace (trace w ++ [ev]) w).
Proof.
  unfold try_, try_catch, call_callback, bind, emit, modify, throw, ret. simpl.
  destruct (cb_throws E f v); reflexivity.
Qed.

Lemma for_each_notify c v subs w :
  for_each (fun fn => try_ (call_callback E (EvSub c fn v) fn v)) subs w
  = (Ret tt, set_trace (trace w ++ map (fun fn => EvSub c fn v) subs) w).
Proof.
  revert w. induction subs as [|fn subs IH]; intros w; simpl.
  - rewrite app_nil_r, set_trace_id. reflexivity.
  - unfold bind at 1. rewrite call_callback_try, IH. simpl.
    rewrite <- app_assoc. reflexivity.
Qed.

Lemma notify_subscribers_spec c v w :
  notify_subscribers E c v w
  = (Ret tt, set_trace (trace w ++ map (fun fn => EvSub c fn v)
                          (from_option c_subscribers [] (channel_objs w !! c))) w).
Proof. unfold notify_subscribers, bind, get. simpl. apply for_each_notify. Qed.

Lemma local_id_cached id w : cached_id E id w -> local_id E w id.
Proof. intros H. unfold local_id. rewrite (cached_getTabId E id w H). reflexivity. Qed.

Lemma getTabId_local id w :
  local_id E w id ->
  exists T S, getTabId E w = (Ret id, set_sessionStorage S (set_tabId T w)) /\
              cached_id E id (set_sessionStorage S (set_tabId T w)).
Proof.
  intros Hid. destruct (getTabId_spec E w) as (id0 & T & S & Hg & Hc).
  unfold local_id in Hid. rewrite Hg in Hid. simpl in Hid. injection Hid as ->.
  eauto.
Qed.

Lemma strict_eq_str_refl s : strict_eq_str (VStr s) s = true.
Proof. simpl. apply String.eqb_refl. Qed.

(** A message that carries the local identity goes through the live
    filter without reaching a listener. *)
Lemma deliver_own t msg id w :
  local_id E w id -> get_prop "tabId" msg = VStr id ->
  exists w', deliver E t msg w = (Ret tt, w') /\ rest w' = rest w /\ local_id E w' id.
Proof.
  intros Hid Hm. unfold deliver. destruct (well_formed msg).
  - destruct (getTabId_local id w Hid) as (T & S & Hg & Hc).
    unfold bind. rewrite Hg, Hm, strict_eq_str_refl. simpl.
    eexists. split; [reflexivity|]. split; [reflexivity|]. auto using local_id_cached.
  - exists w. auto.
Qed.
End Calls.

Lemma set_localStorage_id w : set_localStorage (localStorage w) w = w.
Proof. destruct w; reflexivity. Qed.

Section SetValue.
Variable E : Env.

Lemma persist_value_spec ch v w :
  persist_value E ch v w = (Ret tt, set_localStorage (persist_ls E ch v (localStorage w)) w).
Proof.
  unfold persist_value, persist_ls.
  destruct (persist (c_options ch) && has_window E); simpl.
  2:{ rewrite set_localStorage_id. reflexivity. }
  unfold try_, try_catch, bind, lift, localStorage_setItem, ret.
  destruct (c_serialize ch v) as [s|]; simpl.
  2:{ rewrite set_localStorage_id. reflexivity. }
  destruct (truthy_str s && negb (String.eqb s "undefined")); simpl.
  2:{ rewrite set_localStorage_id. reflexivity. }
  destruct (ls_set_throws E (localStorage w) (c_storageKey ch) s); simpl.
  - rewrite set_localStorage_id. reflexivity.
  - reflexivity.
Qed.

Lemma get_prop_envelope_tabId v k id ts : get_prop "tabId" (envelope v k id ts) = VStr id.
Proof. reflexivity. Qed.

(** Publishing one's own envelope calls nobody: under the native strategy
    an echo is stopped by the identity filter, under the fallback the
    envelope goes to the transport's slot. *)
Lemma transport_publish_own t v k id ts w :
  cached_id E id w ->
  transport_publish E t (envelope v k id ts) w
  = (Ret tt, set_localStorage
               (publish_ls E (transport_objs w !! t) (envelope v k id ts) (localStorage w)) w).
Proof.
  intros Hc. unfold transport_publish, publish_ls, bind, get. simpl.
  destruct (transport_objs w !! t) as [tr|] eqn:Ht; simpl.
  2:{ rewrite set_localStorage_id. reflexivity. }
  destruct (t_kind tr); simpl.
  - rewrite set_localStorage_id. reflexivity.
  - rewrite set_localStorage_id.
    unfold try_, try_catch, bind, envelope_of, postMessage, bind, get, ret, throw. simpl.
    rewrite Ht. simpl. destruct (t_closed tr); simpl; [reflexivity|].
    destruct (bc_post_throws E _); simpl; [reflexivity|].
    destruct (bc_echo E); simpl; [|reflexivity].
    unfold onmessage, deliver. destruct (well_formed _); [|reflexivity].
    unfold bind. rewrite (cached_getTabId E id w Hc).
    rewrite get_prop_envelope_tabId, strict_eq_str_refl. reflexivity.
  - destruct (has_window E); simpl.
    2:{ rewrite set_localStorage_id. reflexivity. }
    unfold try_, try_catch, bind, envelope_of, lift, localStorage_setItem, ret. simpl.
    destruct (JSON_stringify E _) as [text|]; simpl.
    2:{ rewrite set_localStorage_id. reflexivity. }
    destruct (ls_set_throws E _ _ _); simpl.
    + rewrite set_localStorage_id. reflexivity.
    + reflexivity.
Qed.

Lemma cached_id_ls id L w : cached_id E id w -> cached_id E id (set_localStorage L w).
Proof. unfold cached_id. destruct (has_window E); auto. Qed.

(** The world [setValue] leaves, written out. *)
Lemma setValue_spec c ch v w :
  channel_objs w !! c = Some ch -> is_undefined v = false ->
  exists id T S,
    let w1 := set_localStorage (persist_ls E ch v (localStorage w))
                (set_channel_objs (alter (with_value v) c (channel_objs w)) w) in
    let w2 := set_sessionStorage S (set_tabId T w1) in
    let msg := envelope v (c_key ch) id (now w) in
    let w3 := set_localStorage
                (publish_ls E (transport_objs w !! c_transport ch) msg (localStorage w1)) w2 in
    getTabId E w1 = (Ret id, w2) /\ cached_id E id w2 /\
    setValue E c v w
    = (Ret tt, set_trace (trace w ++ map (fun fn => EvSub c fn v) (c_subscribers ch)) w3).
Proof.
  intros Hc Hv.
  set (w0 := set_channel_objs (alter (with_value v) c (channel_objs w)) w).
  destruct (getTabId_spec E (set_localStorage (persist_ls E ch v (localStorage w)) w0))
    as (id & T & S & Hg & Hcid).
  exists id, T, S. cbv zeta. fold w0. split; [exact Hg|]. split; [exact Hcid|].
  unfold setValue. unfold bind at 1. unfold get at 1. simpl. rewrite Hc, Hv.
  unfold bind at 1. unfold update_channel, modify. simpl. fold w0.
  unfold bind at 1. rewrite persist_value_spec. simpl.
  unfold bind at 1. rewrite Hg.
  unfold bind at 1. unfold Date_now, get. simpl.
  unfold bind at 1. fold (envelope v (c_key ch) id (now w)).
  rewrite (transport_publish_own _ _ _ _ _ _ Hcid). simpl.
  rewrite notify_subscribers_spec. simpl.
  rewrite list_lookup_alter_eq, Hc. simpl. reflexivity.
Qed.
End SetValue.

Lemma is_undefined_false v : v <> VUndef -> is_undefined v = false.
Proof. destruct v; simpl; congruence. Qed.

Lemma getTabId_reads (E : Env) w w' :
  now w' = now w -> tabId w' = tabId w -> sessionStorage w' = sessionStorage w ->
  fst (getTabId E w') = fst (getTabId E w).
Proof.
  destruct w, w'. simpl. intros -> -> ->.
  unfold getTabId, getTabId_uncached.
  destruct (has_window E); simpl; [|reflexivity].
  unfold bind, get, try_catch, try_, try_catch, sessionStorage_getItem, sessionStorage_setItem,
    modify, Date_now, get, ret. simpl.
  repeat (case_match; simpl in *; simplify_eq); reflexivity.
Qed.

Lemma calls_of_app c fn tr1 tr2 :
  calls_of c fn (tr1 ++ tr2) = calls_of c fn tr1 ++ calls_of c fn tr2.
Proof.
  induction tr1 as [|e tr1 IH]; simpl; [reflexivity|].
  destruct e; simpl; auto. destruct (_ && _); simpl; congruence.
Qed.

Lemma calls_of_notify_absent c fn v subs :
  fn ∉ subs -> calls_of c fn (map (fun f => EvSub c f v) subs) = [].
Proof.
  induction subs as [|f subs IH]; simpl; intros Hn; [reflexivity|].
  rewrite Nat.eqb_refl. simpl.
  destruct (Nat.eqb_spec f fn) as [->|Hne].
  - exfalso. apply Hn. left.
  - apply IH. intros Hin. apply Hn. right. exact Hin.
Qed.

Lemma calls_of_notify_once c fn v subs :
  NoDup subs -> fn ∈ subs -> calls_of c fn (map (fun f => EvSub c f v) subs) = [v].
Proof.
  induction 1 as [|f subs Hnotin Hnd IH]; simpl; intros Hin.
  - inversion Hin.
  - rewrite Nat.eqb_refl. simpl.
    destruct (Nat.eqb_spec f fn) as [->|Hne].
    + rewrite calls_of_notify_absent by exact Hnotin. reflexivity.
    + apply IH. inversion Hin; subst; [congruence|assumption].
Qed.

Lemma listener_calls_notify c v subs :
  listener_calls (map (fun f => EvSub c f v) subs) = [].
Proof. induction subs; simpl; auto. Qed.

Lemma setValue_undefined (E : Env) (c : nat) (w : World) :
  setValue E c VUndef w = (Ret tt, w).
Proof.
  unfold setValue, bind, get. simpl.
  destruct (channel_objs w !! c); reflexivity.
Qed.

(** C9: [setValue(undefined)] returns at once and leaves the whole world as
    it was: the value [getValue()] reads, the trace of subscriber calls,
    the transport and every storage slot. *)
Theorem setValue_undefined_noop (E : Env) (c : nat) (w : World) :
  setValue E c VUndef w = (Ret tt, w).
Proof.
  unfold setValue, bind, get. simpl.
  destruct (channel_objs w !! c); reflexivity.
Qed.

Section Storage.
Variable E : Env.

Lemma persist_ls_other ch v L k :
  k <> c_storageKey ch -> persist_ls E ch v L !! k = L !! k.
Proof.
  intros Hk. unfold persist_ls.
  destruct (_ && _); [|reflexivity].
  destruct (c_serialize ch v) as [s|]; [|reflexivity].
  destruct (_ && _); [|reflexivity].
  destruct (ls_set_throws E _ _ _); [reflexivity|].
  apply lookup_insert_ne. congruence.
Qed.

Lemma persist_ls_off ch v L : persist (c_options ch) = false -> persist_ls E ch v L = L.
Proof. intros H. unfold persist_ls. rewrite H. reflexivity. Qed.

Lemma persist_ls_empty ch v L : c_serialize ch v = Ret "" -> persist_ls E ch v L = L.
Proof.
  intros H. unfold persist_ls. rewrite H. simpl.
  destruct (_ && _); reflexivity.
Qed.

Lemma publish_ls_changed tr msg L k :
  publish_ls E tr msg L !! k <> L !! k ->
  exists t, tr = Some t /\ t_kind t = TFallback /\ k = slot_of (t_name t).
Proof.
  unfold publish_ls. destruct tr as [t|]; [|congruence].
  destruct (t_kind t) eqn:Hk; try congruence.
  destruct (has_window E); [|congruence].
  destruct (JSON_stringify E msg) as [text|]; [|congruence].
  destruct (ls_set_throws E _ _ _); [congruence|].
  intros Hne. exists t. split; [reflexivity|]. split; [exact Hk|].
  destruct (decide (slot_of (t_name t) = k)) as [<-|Hd]; [reflexivity|].
  rewrite lookup_insert_ne in Hne by exact Hd. congruence.
Qed.

(** When the persistence step writes nothing, the only slot [setValue] can
    change is the physical slot of the channel's fallback transport. *)
Lemma setValue_storage_frame c ch v w k :
  channel_objs w !! c = Some ch ->
  (forall L, persist_ls E ch v L = L) ->
  localStorage (snd (setValue E c v w)) !! k <> localStorage w !! k ->
  exists tr, transport_objs w !! c_transport ch = Some tr /\
             t_kind tr = TFallback /\ k = slot_of (t_name tr).
Proof.
  intros Hc Hp. destruct (is_undefined v) eqn:Hv.
  { destruct v; try discriminate. rewrite setValue_undefined. simpl. congruence. }
  destruct (setValue_spec E c ch v w Hc Hv) as (id & T & S & _ & _ & Hset).
  cbv zeta in Hset. rewrite Hset. simpl. rewrite Hp.
  apply publish_ls_changed.
Qed.
End Storage.

(** What the fallback [publish] of [setValue] leaves in the slot of the
    transport when nothing throws. *)
Lemma setValue_fallback_slot (E : Env) c ch tr v id text w :
  has_window E = true ->
  channel_objs w !! c = Some ch ->
  transport_objs w !! c_transport ch = Some tr ->
  t_kind tr = TFallback ->
  v <> VUndef ->
  local_id E w id ->
  JSON_stringify E (envelope v (c_key ch) id (now w)) = Ret text ->
  (forall L, ls_set_throws E L (slot_of (t_name tr)) text = false) ->
  localStorage (snd (setValue E c v w)) !! slot_of (t_name tr) = Some text.
Proof.
  intros Hw Hc Htr Hk Hv Hid Hjs Hset.
  destruct (setValue_spec E c ch v w Hc (is_undefined_false v Hv))
    as (id' & T & S & Hg & _ & Hsv).
  cbv zeta in Hsv, Hg.
  assert (Heq : id' = id).
  { unfold local_id in Hid.
    erewrite <- getTabId_reads in Hid; [rewrite Hg in Hid|..]; try reflexivity.
    simpl in Hid. congruence. }
  subst id'. rewrite Hsv. simpl. rewrite Htr. unfold publish_ls.
  rewrite Hk, Hw, Hjs, Hset. apply lookup_insert_eq.
Qed.

(** C2, as the code has it: with [persist] false, a slot whose content
    [setValue] changed is the physical slot [xts-<channelName>] of the
    channel's storage-fallback transport; with any other transport no slot
    changes.  That slot is written, with the text of the envelope, when the
    value is not [undefined] and neither [JSON.stringify] nor
    [localStorage.setItem] throws; [setValue(undefined)] and a publish that
    throws leave it as it was. *)
Theorem setValue_without_persist_writes_only_fallback_slot
    (E : Env) (w : World) (c : nat) (ch : Channel) (v : JsVal) :
  channel_objs w !! c = Some ch ->
  persist (c_options ch) = false ->
  (forall k, localStorage (snd (setValue E c v w)) !! k <> localStorage w !! k ->
     exists tr, transport_objs w !! c_transport ch = Some tr /\
                t_kind tr = TFallback /\ k = slot_of (t_name tr)) /\
  ((forall tr, transport_objs w !! c_transport ch = Some tr -> t_kind tr <> TFallback) ->
   localStorage (snd (setValue E c v w)) = localStorage w) /\
  (forall tr id,
     transport_objs w !! c_transport ch = Some tr -> t_kind tr = TFallback ->
     has_window E = true -> local_id E w id ->
     (forall text,
        v <> VUndef ->
        JSON_stringify E (envelope v (c_key ch) id (now w)) = Ret text ->
        (forall L, ls_set_throws E L (slot_of (t_name tr)) text = false) ->
        localStorage (snd (setValue E c v w)) !! slot_of (t_name tr) = Some text) /\
     (v = VUndef \/
      JSON_stringify E (envelope v (c_key ch) id (now w)) = Exn \/
      (exists text, JSON_stringify E (envelope v (c_key ch) id (now w)) = Ret text /\
                    forall L, ls_set_throws E L (slot_of (t_name tr)) text = true) ->
      localStorage (snd (setValue E c v w)) = localStorage w)).
Proof.
  intros Hc Hp.
  assert (Hframe : forall k,
    localStorage (snd (setValue E c v w)) !! k <> localStorage w !! k ->
    exists tr, transport_objs w !! c_transport ch = Some tr /\
               t_kind tr = TFallback /\ k = slot_of (t_name tr)).
  { intros k. apply (setValue_storage_frame E c ch v w k Hc).
    intros L. apply persist_ls_off. exact Hp. }
  split; [exact Hframe|]. split.
  - intros Hnf. apply map_eq. intros k.
    destruct (decide (localStorage (snd (setValue E c v w)) !! k = localStorage w !! k))
      as [Heq|Hne]; [exact Heq|].
    destruct (Hframe k Hne) as (tr & Ht & Hk & _). exfalso. exact (Hnf tr Ht Hk).
  - intros tr id Htr Hk Hw Hid. split.
    + intros text Hv Hjs Hset.
      exact (setValue_fallback_slot E c ch tr v id text w Hw Hc Htr Hk Hv Hid Hjs Hset).
    + intros Hcase. destruct (is_undefined v) eqn:Hu.
      { destruct v; try discriminate. rewrite setValue_undefined. reflexivity. }
      assert (Hv : v <> VUndef) by (intros ->; discriminate).
      destruct Hcase as [Hcase|Hcase]; [contradiction|].
      destruct (setValue_spec E c ch v w Hc Hu) as (id' & T & S & Hg & _ & Hsv).
      cbv zeta in Hsv, Hg.
      assert (Heq : id' = id).
      { unfold local_id in Hid.
        erewrite <- getTabId_reads in Hid; [rewrite Hg in Hid|..]; try reflexivity.
        simpl in Hid. congruence. }
      subst id'. rewrite Hsv. simpl. rewrite Htr, (persist_ls_off E ch v _ Hp).
      unfold publish_ls. rewrite Hk, Hw.
      destruct Hcase as [Hjs|(text & Hjs & Hthrow)]; rewrite Hjs; [reflexivity|].
      rewrite Hthrow. reflexivity.
Qed.

Section Accept.
Variable E : Env.

(** The world the channel's listener leaves when it accepts a message. *)
Lemma channel_listener_accept c ch msg w :
  channel_objs w !! c = Some ch ->
  typeof_object msg = true -> is_null msg = false ->
  strict_eq_str (get_prop "key" msg) (c_key ch) = true ->
  is_undefined (get_prop "value" msg) = false ->
  channel_listener E c msg w
  = (Ret tt,
     set_trace (trace w ++ map (fun fn => EvSub c fn (get_prop "value" msg)) (c_subscribers ch))
       (set_localStorage (persist_ls E ch (get_prop "value" msg) (localStorage w))
          (set_channel_objs (alter (with_value (get_prop "value" msg)) c (channel_objs w)) w))).
Proof.
  intros Hc Ho Hn Hk Hv. unfold channel_listener.
  unfold bind at 1. unfold get at 1. simpl. rewrite Hc, Ho, Hn, Hk, Hv. simpl.
  unfold bind at 1. unfold update_channel, modify. simpl.
  unfold bind at 1. rewrite persist_value_spec. simpl.
  rewrite notify_subscribers_spec. simpl.
  rewrite list_lookup_alter_eq, Hc. reflexivity.
Qed.

Lemma channel_listener_absent c msg w :
  channel_objs w !! c = None -> channel_listener E c msg w = (Ret tt, w).
Proof. intros Hc. unfold channel_listener, bind, get. simpl. rewrite Hc. reflexivity. Qed.

Lemma channel_listener_reject c ch msg w :
  channel_objs w !! c = Some ch ->
  typeof_object msg && negb (is_null msg)
    && strict_eq_str (get_prop "key" msg) (c_key ch)
    && negb (is_undefined (get_prop "value" msg)) = false ->
  channel_listener E c msg w = (Ret tt, w).
Proof.
  intros Hc Hr. unfold channel_listener, bind, get. simpl. rewrite Hc.
  destruct (typeof_object msg), (is_null msg),
    (strict_eq_str (get_prop "key" msg) (c_key ch)),
    (is_undefined (get_prop "value" msg)); simpl in *; try reflexivity; discriminate.
Qed.

(** The listener either rejects the message and leaves the world, or
    accepts it. *)
Lemma channel_listener_cases c msg w :
  channel_listener E c msg w = (Ret tt, w) \/
  exists ch,
    channel_objs w !! c = Some ch /\
    strict_eq_str (get_prop "key" msg) (c_key ch) = true /\
    channel_listener E c msg w
    = (Ret tt,
       set_trace (trace w ++ map (fun fn => EvSub c fn (get_prop "value" msg)) (c_subscribers ch))
         (set_localStorage (persist_ls E ch (get_prop "value" msg) (localStorage w))
            (set_channel_objs (alter (with_value (get_prop "value" msg)) c (channel_objs w)) w))).
Proof.
  destruct (channel_objs w !! c) as [ch|] eqn:Hc.
  2:{ left. apply channel_listener_absent, Hc. }
  destruct (typeof_object msg && negb (is_null msg)
    && strict_eq_str (get_prop "key" msg) (c_key ch)
    && negb (is_undefined (get_prop "value" msg))) eqn:Hr.
  2:{ left. apply (channel_listener_reject c ch), Hr. exact Hc. }
  right. exists ch. apply andb_prop in Hr as [Hr Hv]. apply andb_prop in Hr as [Hr Hk].
  apply andb_prop in Hr as [Ho Hn].
  split; [reflexivity|]. split; [exact Hk|].
  apply channel_listener_accept; auto.
  - destruct (is_null msg); [discriminate|reflexivity].
  - destruct (is_undefined _); [discriminate|reflexivity].
Qed.
End Accept.

#[global] Instance storage_kept_preorder E key v : PreOrder (storage_kept E key v).
Proof.
  split.
  - intros w H. auto.
  - intros w1 w2 w3 H12 H23 H. destruct (H12 H) as [N2 L2]. destruct (H23 N2) as [N3 L3].
    split; [exact N3|congruence].
Qed.

Section Delivery.
Variable E : Env.
Variable key : string.
Variable v : JsVal.
Variable msg : JsVal.
Hypothesis msg_key : get_prop "key" msg = VStr key.
Hypothesis msg_value : get_prop "value" msg = v.

Lemma skips_persist_ls ch L : skips_persist E ch v -> persist_ls E ch v L = L.
Proof.
  unfold persist_ls. intros [H|[H|[H|[H|H]]]]; rewrite H; simpl;
    rewrite ?andb_false_r; try reflexivity;
    destruct (persist (c_options ch) && has_window E); reflexivity.
Qed.

Lemma storage_kept_same {A} (m : M A) :
  (forall w, channel_objs (snd (m w)) = channel_objs w /\
             localStorage (snd (m w)) = localStorage w) ->
  frame (storage_kept E key v) m.
Proof.
  intros H w Hn. destruct (H w) as [Hc Hl]. unfold none_persists in *. rewrite Hc. auto.
Qed.

Lemma storage_kept_getTabId : frame (storage_kept E key v) (getTabId E).
Proof.
  apply storage_kept_same. intros w. destruct (getTabId_spec E w) as (id & T & S & Hg & _).
  rewrite Hg. auto.
Qed.

Lemma storage_kept_listener c : frame (storage_kept E key v) (channel_listener E c msg).
Proof.
  intros w Hn.
  destruct (channel_listener_cases E c msg w) as [->|(ch & Hc & Hk & ->)]; [auto|].
  rewrite msg_key in Hk. simpl in Hk. apply String.eqb_eq in Hk.
  rewrite msg_value. simpl. split.
  - intros c' ch'. simpl. destruct (decide (c = c')) as [<-|Hne].
    + rewrite list_lookup_alter_eq, Hc. simpl. intros [= <-] Hkey.
      exact (Hn c ch Hc Hkey).
    + rewrite list_lookup_alter_ne by exact Hne. apply Hn.
  - apply skips_persist_ls. exact (Hn c ch Hc (eq_sym Hk)).
Qed.

Ltac storage_leaf :=
  first
    [ apply storage_kept_getTabId
    | apply storage_kept_listener
    | solve [ apply storage_kept_same; let w := fresh "w" in intros w; simpl; auto ] ].

Lemma storage_kept_deliver t : frame (storage_kept E key v) (deliver E t msg).
Proof. frames storage_leaf. Qed.

Lemma storage_kept_bc_message t : frame (storage_kept E key v) (bc_message E t msg).
Proof. frames ltac:(first [apply storage_kept_deliver | storage_leaf]). Qed.

Lemma storage_kept_storage_event k text :
  JSON_parse E text = Ret msg ->
  frame (storage_kept E key v) (storage_event E k (Some text)).
Proof.
  intros Hp.
  frames ltac:(first
    [ match goal with
      | H : JSON_parse E _ = Ret ?a |- frame _ (deliver E _ ?a) =>
          rewrite Hp in H; injection H as <-; apply storage_kept_deliver
      end
    | storage_leaf ]).
Qed.
End Delivery.


Section Registry.
Variable E : Env.

Lemma set_storage_handlers_id w : set_storage_handlers (storage_handlers w) w = w.
Proof. destruct w; reflexivity. Qed.

Lemma createTransport_spec n w :
  createTransport E n w = (Ret (length (transport_objs w)), created_world E n w).
Proof.
  unfold createTransport, created_world, created_kind.
  destruct (has_window E) eqn:Hw; simpl; [|reflexivity].
  unfold bind, try_catch, alloc_transport, modify, throw, ret.
  destruct (has_BroadcastChannel E); simpl.
  - destruct (bc_new_throws E n); simpl; reflexivity.
  - reflexivity.
Qed.

Lemma getTransport_found n t w :
  transports w !! n = Some t ->
  getTransport E n w
  = (Ret t, set_transportRefs (<[n := num_succ (transportRefs w !! n)]> (transportRefs w)) w).
Proof.
  intros H. unfold getTransport, bind, get, modify, ret. simpl. rewrite H. reflexivity.
Qed.

Lemma getTransport_created n w :
  transports w !! n = None ->
  getTransport E n w
  = (Ret (length (transport_objs w)),
     set_transportRefs (<[n := Fin 1]> (<[n := Fin 0]> (transportRefs w)))
       (set_transports (<[n := length (transport_objs w)]> (transports w))
          (created_world E n w))).
Proof.
  intros H. unfold getTransport. unfold bind at 1. unfold get at 1. simpl. rewrite H.
  unfold bind at 1. unfold bind at 1. rewrite createTransport_spec.
  unfold bind, get, modify, ret. simpl.
  rewrite lookup_insert_eq. reflexivity.
Qed.
End Registry.

Lemma destroyed_app tr1 tr2 : destroyed (tr1 ++ tr2) = destroyed tr1 ++ destroyed tr2.
Proof.
  induction tr1 as [|e tr1 IH]; simpl; [reflexivity|].
  destruct e; simpl; congruence.
Qed.

Lemma held_app name ops1 ops2 : held name (ops1 ++ ops2) = held name ops1 + held name ops2.
Proof. induction ops1 as [|o ops1 IH]; simpl; lia. Qed.

Lemma paired_snoc ops o : paired (ops ++ [o]) -> paired ops.
Proof.
  intros H i name. destruct (le_lt_dec i (length ops)) as [Hle|Hgt].
  - specialize (H i name). rewrite take_app_le in H by exact Hle. exact H.
  - rewrite take_ge by lia. specialize (H (length ops) name).
    rewrite take_app_le, take_ge in H by lia. exact H.
Qed.

Lemma paired_held ops name : paired ops -> 0 <= held name ops.
Proof. intros H. specialize (H (length ops) name). rewrite take_ge in H by lia. exact H. Qed.

Lemma snd_bind_ret {A} (m : M A) w : snd (bind m (fun _ => ret tt) w) = snd (m w).
Proof. unfold bind, ret. destruct (m w) as [[a|] w1]; reflexivity. Qed.

Section RefCount.
Variable E : Env.

(** What [destroy()] of a transport leaves. *)
Lemma transport_destroy_spec t tr w :
  transport_objs w !! t = Some tr ->
  exists objs hs,
    transport_destroy E t w
    = (Ret tt, set_transport_objs objs
                 (set_storage_handlers hs (set_trace (trace w ++ [EvDestroy t]) w))) /\
    length objs = length (transport_objs w).
Proof.
  intros Ht. unfold transport_destroy. unfold bind at 1. unfold get at 1. simpl. rewrite Ht.
  unfold bind at 1. unfold emit, modify. simpl.
  destruct (t_kind tr) eqn:Hk; simpl.
  - exists (transport_objs w), (storage_handlers w). split; [reflexivity|reflexivity].
  - unfold bind, update_transport, modify. simpl.
    eexists _, (storage_handlers w). split; [reflexivity|].
    rewrite !length_alter. reflexivity.
  - unfold bind, update_transport, modify, ret. simpl.
    destruct (has_window E); simpl; eexists _, _; (split; [reflexivity|]);
      rewrite !length_alter; reflexivity.
Qed.

Lemma releaseTransport_decrement n k w :
  transportRefs w !! n = Some (Fin k) -> 1 < k ->
  releaseTransport E n w
  = (Ret tt, set_transportRefs (<[n := Fin (k - 1)]> (transportRefs w)) w).
Proof.
  intros Hr Hk. unfold releaseTransport, bind, get. simpl. rewrite Hr. simpl.
  destruct (Z.leb_spec k 1); [lia|]. reflexivity.
Qed.

Lemma releaseTransport_last n t tr w :
  transportRefs w !! n = Some (Fin 1) ->
  transports w !! n = Some t -> transport_objs w !! t = Some tr ->
  exists objs hs,
    releaseTransport E n w
    = (Ret tt,
       set_transportRefs (delete n (transportRefs w))
         (set_transports (delete n (transports w))
            (set_transport_objs objs
               (set_storage_handlers hs (set_trace (trace w ++ [EvDestroy t]) w))))) /\
    length objs = length (transport_objs w).
Proof.
  intros Hr Ht Ho. destruct (transport_destroy_spec t tr w Ho) as (objs & hs & Hd & Hlen).
  exists objs, hs. split; [|exact Hlen].
  unfold releaseTransport. unfold bind at 1. unfold get at 1. simpl. rewrite Hr. simpl.
  unfold bind at 1. unfold get at 1. simpl. rewrite Ht.
  unfold bind at 1. rewrite Hd. reflexivity.
Qed.

Lemma registry_tracks_run ops w0 :
  transports w0 = ∅ -> transportRefs w0 = ∅ -> paired ops ->
  registry_tracks ops (reg_run E ops w0).
Proof.
  intros Ht0 Hr0. induction ops as [|o ops IH] using rev_ind; intros Hp.
  - intros name. simpl. split; [lia|]. intros _. rewrite Ht0, Hr0. split; apply lookup_empty.
  - specialize (IH (paired_snoc _ _ Hp)).
    unfold reg_run in *. rewrite fold_left_app. simpl.
    set (w := fold_left (fun w o => snd (reg_perform E o w)) ops w0) in *.
    intros name. rewrite held_app. simpl. rewrite Z.add_0_r.
    pose proof (paired_held ops name (paired_snoc _ _ Hp)) as Hk.
    pose proof (paired_held (ops ++ [o]) name Hp) as Hk'.
    rewrite held_app in Hk'. simpl in Hk'. rewrite Z.add_0_r in Hk'.
    destruct (IH name) as [IHpos IHzero].
    destruct o as [m|m]; simpl in *.
    + (* acquire *)
      rewrite snd_bind_ret.
      pose proof (paired_held ops m (paired_snoc _ _ Hp)) as Hkm.
      destruct (IH m) as [IHmpos IHmzero].
      destruct (decide (held m ops = 0)) as [Hz|Hnz].
      * destruct (IHmzero Hz) as [Hrm Htm].
        rewrite (getTransport_created E m w Htm). simpl.
        destruct (String.eqb_spec m name) as [->|Hne].
        -- split; [|lia]. intros _. rewrite lookup_insert_eq, Hz. split; [reflexivity|].
           eexists. rewrite lookup_insert_eq. split; [reflexivity|].
           rewrite lookup_app_r, Nat.sub_diag by lia. simpl. eauto.
        -- rewrite Z.add_0_r. rewrite !lookup_insert_ne by exact Hne.
           split; [|exact IHzero].
           intros Hpos. destruct (IHpos Hpos) as (Hr & t & Ht & Hobj).
           split; [exact Hr|]. exists t. split; [exact Ht|].
           destruct Hobj as [x Hx]. rewrite lookup_app_l by (eapply lookup_lt_Some; eauto).
           eauto.
      * destruct (IHmpos ltac:(lia)) as (Hrm & t & Htm & Hobj).
        rewrite (getTransport_found E m t w Htm). simpl. rewrite Hrm. simpl.
        destruct (String.eqb_spec m name) as [->|Hne].
        -- split; [|lia]. intros _. rewrite lookup_insert_eq.
           split; [f_equal; f_equal; lia|]. eauto.
        -- rewrite Z.add_0_r. rewrite !lookup_insert_ne by exact Hne.
           split; [exact IHpos|exact IHzero].
    + (* release *)
      pose proof (paired_held ops m (paired_snoc _ _ Hp)) as Hkm.
      pose proof (paired_held (ops ++ [Release m]) m Hp) as Hkm'.
      rewrite held_app in Hkm'. simpl in Hkm'. rewrite String.eqb_refl in Hkm'.
      destruct (IH m) as [IHmpos _].
      destruct (IHmpos ltac:(lia)) as (Hrm & t & Htm & [tr Hobj]).
      destruct (decide (held m ops = 1)) as [H1|Hn1].
      * rewrite H1 in Hrm.
        destruct (releaseTransport_last m t tr w Hrm Htm Hobj) as (objs & hs & Hrel & Hlen).
        rewrite Hrel. simpl.
        destruct (String.eqb_spec m name) as [->|Hne].
        -- split; [lia|]. intros _. rewrite !lookup_delete_eq. auto.
        -- rewrite Z.add_0_r. rewrite !lookup_delete_ne by exact Hne.
           split; [|exact IHzero].
           intros Hpos. destruct (IHpos Hpos) as (Hr & t' & Ht' & Hobj').
           split; [exact Hr|]. exists t'. split; [exact Ht'|].
           apply lookup_lt_is_Some. rewrite Hlen. apply lookup_lt_is_Some. exact Hobj'.
      * rewrite (releaseTransport_decrement m (held m ops) w Hrm ltac:(lia)). simpl.
        destruct (String.eqb_spec m name) as [->|Hne].
        -- split; [|lia]. intros _. rewrite lookup_insert_eq.
           split; [f_equal; f_equal; lia|]. eauto.
        -- rewrite Z.add_0_r. rewrite !lookup_insert_ne by exact Hne.
           split; [exact IHpos|exact IHzero].
Qed.
End RefCount.

(** The last release, with what [destroy()] does to the transport. *)
Lemma transport_destroy_effect (E : Env) t tr w :
  transport_objs w !! t = Some tr ->
  let w' := snd (transport_destroy E t w) in
  shut_down E t w w' /\ others_kept t w w' /\
  transports w' = transports w /\ transportRefs w' = transportRefs w /\
  trace w' = trace w ++ [EvDestroy t].
Proof.
  intros Ht. cbv zeta. unfold shut_down, others_kept.
  unfold transport_destroy, bind, get, emit, modify, update_transport, ret. simpl.
  rewrite Ht. simpl.
  destruct (t_kind tr) eqn:Hk; simpl.
  - split; [|repeat split; intros; try tauto; auto].
    exists tr, tr. rewrite Hk. repeat split; auto.
  - split; [|repeat split; intros; try tauto; auto].
    + exists tr. eexists. split; [reflexivity|].
      split; [rewrite !list_lookup_alter_eq, Ht; reflexivity|]. simpl. rewrite Hk.
      repeat split; auto.
    + rewrite !list_lookup_alter_ne by congruence. reflexivity.
  - destruct (has_window E); simpl.
    + split; [|repeat split; intros; try tauto; auto].
      * exists tr. eexists. split; [reflexivity|].
        split; [rewrite list_lookup_alter_eq, Ht; reflexivity|]. simpl. rewrite Hk.
        repeat split; auto. intros _. apply not_elem_of_set_delete.
      * rewrite list_lookup_alter_ne by congruence. reflexivity.
      * match goal with H : _ ∈ set_delete _ _ |- _ => apply elem_of_set_delete in H; tauto end.
      * apply elem_of_set_delete. tauto.
    + split; [|repeat split; intros; try tauto; auto].
      * exists tr. eexists. split; [reflexivity|].
        split; [rewrite list_lookup_alter_eq, Ht; reflexivity|]. simpl. rewrite Hk.
        repeat split; auto. discriminate.
      * rewrite list_lookup_alter_ne by congruence. reflexivity.
Qed.

Lemma releaseTransport_last_world (E : Env) n t tr w :
  transportRefs w !! n = Some (Fin 1) -> transports w !! n = Some t ->
  transport_objs w !! t = Some tr ->
  snd (releaseTransport E n w)
  = set_transportRefs (delete n (transportRefs w))
      (set_transports (delete n (transports w)) (snd (transport_destroy E t w))).
Proof.
  intros Hr Ht Ho. destruct (transport_destroy_spec E t tr w Ho) as (objs & hs & Hd & _).
  unfold releaseTransport. unfold bind at 1. unfold get at 1. simpl.
  rewrite Hr. simpl. unfold bind at 1. unfold get at 1. simpl. rewrite Ht.
  unfold bind at 1. rewrite Hd. reflexivity.
Qed.


(** Frames of the transport layer, for any relation that only looks at the
    channel objects and at the events [keep] selects, given that the
    channel listener is a frame on the messages [P]. *)
Section TransportFrames.
Variable E : Env.
Variable R : relation World.
Context `{!PreOrder R}.
Variable keep : Event -> bool.
Variable P : JsVal -> Prop.

Hypothesis R_objs : forall w w',
  channel_objs w' = channel_objs w ->
  List.filter keep (trace w') = List.filter keep (trace w) -> R w w'.
Hypothesis keep_listener : forall t l m, keep (EvListener t l m) = false.
Hypothesis keep_destroy : forall t, keep (EvDestroy t) = false.
Hypothesis listener_frame : forall c m, P m -> frame R (channel_listener E c m).

Lemma frame_same {A} (m : M A) :
  (forall w, channel_objs (snd (m w)) = channel_objs w /\
             List.filter keep (trace (snd (m w))) = List.filter keep (trace w)) ->
  frame R m.
Proof. intros H w. destruct (H w). apply R_objs; assumption. Qed.

Lemma frame_emit e : keep e = false -> frame R (emit e).
Proof.
  intros He. apply frame_same. intros w. simpl. split; [reflexivity|].
  rewrite List.filter_app. simpl. rewrite He. apply app_nil_r.
Qed.

Lemma frame_getTabId : frame R (getTabId E).
Proof.
  apply frame_same. intros w. destruct (getTabId_spec E w) as (id & T & S & Hg & _).
  rewrite Hg. simpl. auto.
Qed.

Lemma frame_ls_get k : frame R (localStorage_getItem E k).
Proof.
  apply frame_same. intros w. unfold localStorage_getItem.
  destruct (ls_get_throws E k); simpl; auto.
Qed.

Lemma frame_ls_set k v : frame R (localStorage_setItem E k v).
Proof.
  apply frame_same. intros w. unfold localStorage_setItem.
  destruct (ls_set_throws E _ k v); simpl; auto.
Qed.

Lemma frame_update_transport t f : frame R (update_transport t f).
Proof. apply frame_same. intros w. simpl. auto. Qed.

Lemma frame_alloc_transport t : frame R (alloc_transport t).
Proof. apply frame_same. intros w. simpl. auto. Qed.

Lemma frame_handlers f :
  frame R (modify (fun w => set_storage_handlers (f w) w)).
Proof. apply frame_same. intros w. simpl. auto. Qed.

Lemma frame_set_transports f :
  frame R (modify (fun w => set_transports (f w) w)).
Proof. apply frame_same. intros w. simpl. auto. Qed.

Lemma frame_set_transportRefs f :
  frame R (modify (fun w => set_transportRefs (f w) w)).
Proof. apply frame_same. intros w. simpl. auto. Qed.

Lemma frame_persist_value ch v : frame R (persist_value E ch v).
Proof. apply frame_same. intros w. rewrite persist_value_spec. simpl. auto. Qed.

Lemma frame_call_callback ev f v : keep ev = false -> frame R (call_callback E ev f v).
Proof.
  intros He. unfold call_callback. apply (frame_bind R); [apply frame_emit, He|].
  intros _. destruct (cb_throws E f v); frame_step.
Qed.

Lemma frame_call_listener t l m : P m -> frame R (call_listener E t l m).
Proof.
  intros Hm. destruct l as [c|f]; simpl.
  - apply (frame_bind R); [apply frame_emit, keep_listener|].
    intros _. apply listener_frame, Hm.
  - apply frame_call_callback, keep_listener.
Qed.

Lemma frame_forward t m : P m -> frame R (forward E t m).
Proof.
  intros Hm. unfold forward. repeat frame_step. apply frame_call_listener, Hm.
Qed.

Lemma frame_deliver t m : P m -> frame R (deliver E t m).
Proof.
  intros Hm. unfold deliver. destruct (well_formed m); [|frame_step].
  apply (frame_bind R); [apply frame_getTabId|]. intros id.
  destruct (negb _); [apply frame_forward, Hm|frame_step].
Qed.

Lemma frame_bc_message t m : P m -> frame R (bc_message E t m).
Proof.
  intros Hm. unfold bc_message, onmessage. repeat frame_step. apply frame_deliver, Hm.
Qed.

Lemma frame_storage_handler t k text :
  (forall m, JSON_parse E text = Ret m -> P m) ->
  frame R (storage_handler E t k (Some text)).
Proof.
  intros Hm. unfold storage_handler. repeat frame_step.
  apply frame_deliver, Hm. assumption.
Qed.

Lemma frame_storage_handler_null t k : frame R (storage_handler E t k None).
Proof. unfold storage_handler. repeat frame_step. Qed.

Lemma frame_storage_event k nv :
  (forall text m, nv = Some text -> JSON_parse E text = Ret m -> P m) ->
  frame R (storage_event E k nv).
Proof.
  intros Hm. unfold storage_event. repeat frame_step.
  destruct nv as [text|].
  - apply frame_storage_handler. intros m. apply Hm. reflexivity.
  - apply frame_storage_handler_null.
Qed.

Hypothesis P_all : forall m, P m.

Lemma frame_envelope_of m : frame R (envelope_of E m).
Proof.
  unfold envelope_of, Date_now. destruct (_ && _); [frame_step|].
  apply (frame_bind R); [apply frame_getTabId|]. intros id. repeat frame_step.
Qed.

Lemma frame_postMessage t m : frame R (postMessage E t m).
Proof.
  unfold postMessage, onmessage. repeat frame_step. apply frame_deliver, P_all.
Qed.

Lemma frame_transport_publish t m : frame R (transport_publish E t m).
Proof.
  unfold transport_publish. repeat frame_step;
    first [apply frame_envelope_of | apply frame_postMessage | apply frame_ls_set].
Qed.

Lemma frame_transport_subscribe t l : frame R (transport_subscribe E t l).
Proof.
  unfold transport_subscribe. repeat frame_step;
    first [apply frame_update_transport | apply frame_ls_get
          | apply frame_call_listener, P_all].
Qed.

Lemma frame_call_unsubscribe u : frame R (call_unsubscribe u).
Proof. destruct u; simpl; [frame_step|apply frame_update_transport]. Qed.

Lemma frame_transport_destroy t : frame R (transport_destroy E t).
Proof.
  unfold transport_destroy. repeat frame_step;
    first [apply frame_emit, keep_destroy | apply frame_update_transport
          | apply frame_handlers].
Qed.

Lemma frame_getTransport n : frame R (getTransport E n).
Proof.
  apply frame_same. intros w. destruct (transports w !! n) as [t|] eqn:Ht.
  - rewrite (getTransport_found E n t w Ht). simpl. auto.
  - rewrite (getTransport_created E n w Ht). simpl. auto.
Qed.

Lemma frame_releaseTransport n : frame R (releaseTransport E n).
Proof.
  unfold releaseTransport. repeat frame_step;
    first [apply frame_transport_destroy | apply frame_set_transports
          | apply frame_set_transportRefs].
Qed.
End TransportFrames.

Section Totality.
Variable E : Env.

Lemma total_getTabId : total (getTabId E).
Proof.
  intros w. destruct (getTabId_spec E w) as (id & T & S & Hg & _).
  rewrite Hg. eauto.
Qed.

Lemma total_persist_value ch v : total (persist_value E ch v).
Proof. intros w. rewrite persist_value_spec. eauto. Qed.

Lemma total_notify_subscribers c v : total (notify_subscribers E c v).
Proof. intros w. rewrite notify_subscribers_spec. eauto. Qed.

Lemma total_channel_listener c m : total (channel_listener E c m).
Proof.
  unfold channel_listener. repeat total_step;
    first [apply total_persist_value | apply total_notify_subscribers].
Qed.

Lemma total_forward t m : total (forward E t m).
Proof. unfold forward. repeat total_step. Qed.

Lemma total_deliver t m : total (deliver E t m).
Proof.
  unfold deliver. destruct (well_formed m); [|total_step].
  apply total_bind; [apply total_getTabId|]. intros id.
  destruct (negb _); [apply total_forward|total_step].
Qed.

Lemma total_transport_publish t m : total (transport_publish E t m).
Proof. unfold transport_publish. repeat total_step. Qed.

Lemma total_transport_subscribe t l : total (transport_subscribe E t l).
Proof. unfold transport_subscribe. repeat total_step. Qed.

Lemma total_call_unsubscribe u : total (call_unsubscribe u).
Proof. destruct u; simpl; total_step. Qed.

Lemma total_transport_destroy t : total (transport_destroy E t).
Proof. unfold transport_destroy. repeat total_step. Qed.

Lemma total_getTransport n : total (getTransport E n).
Proof.
  intros w. destruct (transports w !! n) as [t|] eqn:Ht.
  - rewrite (getTransport_found E n t w Ht). eauto.
  - rewrite (getTransport_created E n w Ht). eauto.
Qed.

Lemma total_releaseTransport n : total (releaseTransport E n).
Proof.
  unfold releaseTransport. repeat total_step. apply total_transport_destroy.
Qed.

Lemma total_alloc_channel ch : total (alloc_channel ch).
Proof. intros w. unfold alloc_channel. eauto. Qed.

Lemma total_new key init opts : total (new_CrossTabChannel E key init opts).
Proof.
  unfold new_CrossTabChannel.
  apply total_bind; [apply total_getTransport|]. intros t.
  apply total_bind; [apply total_alloc_channel|]. intros c.
  apply total_bind; [unfold restore_persisted; destruct (_ && _); total_step|]. intros _.
  apply total_bind; [apply total_transport_subscribe|]. intros u.
  repeat total_step.
Qed.

Lemma total_getValue c : total (getValue c).
Proof. unfold getValue. total_step. Qed.

Lemma total_setValue c v : total (setValue E c v).
Proof.
  unfold setValue, Date_now. repeat total_step;
    first [apply total_persist_value | apply total_getTabId
          | apply total_transport_publish | apply total_notify_subscribers].
Qed.

Lemma total_subscribe c fn : total (subscribe E c fn).
Proof. unfold subscribe. repeat total_step. Qed.

Lemma total_unsubscribe c fn : total (unsubscribe c fn).
Proof. unfold unsubscribe. total_step. Qed.

Lemma total_destroy c : total (destroy E c).
Proof.
  unfold destroy.
  apply total_bind; [total_step|]. intros [ch|]; [|total_step].
  apply total_bind; [destruct (c_unsubscribe ch); [apply total_call_unsubscribe|total_step]|].
  intros _. apply total_bind; [apply total_releaseTransport|]. intros _. total_step.
Qed.

Lemma total_bc_message t m : total (bc_message E t m).
Proof. unfold bc_message, onmessage. repeat total_step. apply total_deliver. Qed.

Lemma total_storage_event k nv : total (storage_event E k nv).
Proof. unfold storage_event. repeat total_step. Qed.
End Totality.

(** C5: from every world and whatever the platform and the consumers do
    (storage calls, the BroadcastChannel constructor and [postMessage],
    [JSON.parse], [serialize]/[deserialize] and callbacks may all throw),
    the constructor, [getValue], [setValue], [subscribe], the unsubscribe
    function, [destroy], the transport's [publish], [subscribe] and
    [destroy], and the two event handlers return normally; and [setValue]
    calls every member of the subscriber set with the new value, throwing
    members included. *)
Theorem core_operations_never_throw (E : Env) (w : World) :
  (forall key init opts, returns (new_CrossTabChannel E key init opts w)) /\
  (forall c, returns (getValue c w)) /\
  (forall c v, returns (setValue E c v w)) /\
  (forall c fn, returns (subscribe E c fn w)) /\
  (forall c fn, returns (unsubscribe c fn w)) /\
  (forall c, returns (destroy E c w)) /\
  (forall t msg, returns (transport_publish E t msg w)) /\
  (forall t l, returns (transport_subscribe E t l w)) /\
  (forall t, returns (transport_destroy E t w)) /\
  (forall t data, returns (bc_message E t data w)) /\
  (forall k nv, returns (storage_event E k nv w)) /\
  (forall c ch v fn,
     channel_objs w !! c = Some ch -> v <> VUndef -> fn ∈ c_subscribers ch ->
     exists evs, trace (snd (setValue E c v w)) = trace w ++ evs /\ EvSub c fn v ∈ evs).
Proof.
  split; [intros; apply total_returns, total_new|].
  split; [intros; apply total_returns, total_getValue|].
  split; [intros; apply total_returns, total_setValue|].
  split; [intros; apply total_returns, total_subscribe|].
  split; [intros; apply total_returns, total_unsubscribe|].
  split; [intros; apply total_returns, total_destroy|].
  split; [intros; apply total_returns, total_transport_publish|].
  split; [intros; apply total_returns, total_transport_subscribe|].
  split; [intros; apply total_returns, total_transport_destroy|].
  split; [intros; apply total_returns, total_bc_message|].
  split; [intros; apply total_returns, total_storage_event|].
  intros c ch v fn Hc Hv Hin.
  destruct (setValue_spec E c ch v w Hc (is_undefined_false v Hv))
    as (id & T & S & _ & _ & Hset).
  cbv zeta in Hset. rewrite Hset. simpl.
  eexists. split; [reflexivity|].
  apply list_elem_of_fmap. eexists. split; [reflexivity|assumption].
Qed.

(** *** Key isolation *)

Lemma sub_calls_filter c tr : sub_calls c tr = sub_calls c (List.filter (is_sub_of c) tr).
Proof.
  induction tr as [|e tr IH]; simpl; [reflexivity|].
  destruct e as [t l m|c' fn v|t]; simpl; auto.
  destruct (Nat.eqb c' c) eqn:Hc; simpl; [rewrite Hc; f_equal|]; exact IH.
Qed.

Lemma filter_notify_other c c' v subs tr :
  c' <> c ->
  List.filter (is_sub_of c) (tr ++ map (fun fn => EvSub c' fn v) subs)
  = List.filter (is_sub_of c) tr.
Proof.
  intros Hne. rewrite List.filter_app.
  replace (List.filter (is_sub_of c) (map (fun fn => EvSub c' fn v) subs)) with (@nil Event).
  - apply app_nil_r.
  - induction subs as [|fn subs IH]; simpl; [reflexivity|].
    destruct (Nat.eqb_spec c' c); [contradiction|exact IH].
Qed.

Section KeyIsolation.
Variable E : Env.
Variable c : nat.
Variable ch : Channel.

#[global] Instance untouched_preorder : PreOrder (untouched c ch).
Proof.
  split.
  - intros w Hc. auto.
  - intros w1 w2 w3 H12 H23 Hc. destruct (H12 Hc) as [Hc2 Ht2].
    destruct (H23 Hc2) as [Hc3 Ht3]. split; [exact Hc3|congruence].
Qed.

Lemma untouched_objs w w' :
  channel_objs w' = channel_objs w ->
  List.filter (is_sub_of c) (trace w') = List.filter (is_sub_of c) (trace w) ->
  untouched c ch w w'.
Proof. intros Ho Ht Hc. rewrite Ho. auto. Qed.

Lemma untouched_listener c' m : foreign_key ch m -> frame (untouched c ch) (channel_listener E c' m).
Proof.
  intros Hm w Hc.
  destruct (channel_listener_cases E c' m w) as [Hrej|(ch' & Hc' & Hk & Hacc)].
  - rewrite Hrej. simpl. auto.
  - assert (Hne : c' <> c).
    { intros ->. rewrite Hc in Hc'. injection Hc' as <-.
      unfold foreign_key in Hm. congruence. }
    rewrite Hacc. simpl. rewrite list_lookup_alter_ne by exact Hne.
    split; [exact Hc|]. apply filter_notify_other. exact Hne.
Qed.
End KeyIsolation.

(** C8: an envelope whose [key] is not the key of channel [c] leaves the
    object of [c] (its value included) as it was and makes [c] call none of
    its subscribers, whether it is handed to the listener of [c], arrives as
    a BroadcastChannel message or as a storage event on any transport, or is
    forwarded to the listeners of a transport directly. *)
Theorem foreign_key_leaves_channel_alone
    (E : Env) (w : World) (c : nat) (ch : Channel) (msg : JsVal) :
  channel_objs w !! c = Some ch ->
  strict_eq_str (get_prop "key" msg) (c_key ch) = false ->
  let unchanged w' :=
    channel_objs w' !! c = Some ch /\ sub_calls c (trace w') = sub_calls c (trace w) in
  unchanged (snd (channel_listener E c msg w)) /\
  (forall t, unchanged (snd (bc_message E t msg w))) /\
  (forall k text, JSON_parse E text = Ret msg ->
                  unchanged (snd (storage_event E k (Some text) w))) /\
  (forall t, unchanged (snd (forward E t msg w))).
Proof.
  intros Hc Hk unchanged.
  assert (Hlift : forall w', untouched c ch w w' -> unchanged w').
  { intros w' H. destruct (H Hc) as [Hc' Ht]. split; [exact Hc'|].
    rewrite (sub_calls_filter c (trace w')), (sub_calls_filter c (trace w)), Ht.
    reflexivity. }
  pose proof (untouched_listener E c ch) as Hl.
  pose proof (untouched_objs c ch) as Ho.
  assert (Hkl : forall t l m, is_sub_of c (EvListener t l m) = false) by reflexivity.
  split; [apply Hlift, Hl, Hk|].
  split; [intros t; apply Hlift|split; [intros k text Hp; apply Hlift|intros t; apply Hlift]].
  - exact (frame_bc_message E _ _ _ Ho Hkl Hl t msg Hk w).
  - refine (frame_storage_event E _ _ _ Ho Hkl Hl k (Some text) _ w).
    intros text' m [= <-] Hp'. rewrite Hp in Hp'. injection Hp' as <-. exact Hk.
  - exact (frame_forward E _ _ _ Ho Hkl Hl t msg Hk w).
Qed.

(** *** A destroyed channel *)

#[global] Instance keeps_silent_preorder c : PreOrder (keeps_silent c).
Proof. split; [intros w H; exact H|intros w1 w2 w3 H12 H23 H; auto]. Qed.

#[global] Instance same_channels_preorder : PreOrder same_channels.
Proof. split; [intros w; reflexivity|intros w1 w2 w3 H12 H23; red; congruence]. Qed.

Section Silent.
Variable E : Env.
Variable c : nat.

Lemma silent_objs w w' :
  channel_objs w' = channel_objs w ->
  List.filter keep_none (trace w') = List.filter keep_none (trace w) ->
  keeps_silent c w w'.
Proof. intros Ho _ H. unfold subs_empty in *. rewrite Ho. exact H. Qed.

Lemma silent_update c' g :
  (forall x, c_subscribers x = [] -> c_subscribers (g x) = []) ->
  frame (keeps_silent c) (update_channel c' g).
Proof.
  intros Hg w H. unfold subs_empty in *. simpl.
  destruct (decide (c' = c)) as [->|Hne].
  - rewrite list_lookup_alter_eq. destruct (channel_objs w !! c); simpl in *; auto.
  - rewrite list_lookup_alter_ne by exact Hne. exact H.
Qed.

Lemma silent_update_other c' g : c' <> c -> frame (keeps_silent c) (update_channel c' g).
Proof.
  intros Hne w H. unfold subs_empty in *. simpl.
  rewrite list_lookup_alter_ne by exact Hne. exact H.
Qed.

Lemma silent_alloc x : c_subscribers x = [] -> frame (keeps_silent c) (alloc_channel x).
Proof.
  intros Hx w H. unfold subs_empty in *. simpl.
  destruct (lt_eq_lt_dec c (length (channel_objs w))) as [[Hlt|Heq]|Hgt].
  - rewrite lookup_app_l by exact Hlt. exact H.
  - rewrite lookup_app_r by lia. rewrite Heq, Nat.sub_diag. simpl. exact Hx.
  - rewrite lookup_ge_None_2; [reflexivity|]. rewrite length_app. simpl. lia.
Qed.

Lemma filter_keep_none tr : List.filter keep_none tr = [].
Proof. induction tr; simpl; auto. Qed.

Lemma silent_notify c' v : frame (keeps_silent c) (notify_subscribers E c' v).
Proof.
  apply (frame_same (keeps_silent c) keep_none silent_objs). intros w.
  rewrite notify_subscribers_spec. simpl. split; [reflexivity|].
  rewrite !filter_keep_none. reflexivity.
Qed.

Lemma silent_listener c' m : any_message m -> frame (keeps_silent c) (channel_listener E c' m).
Proof.
  intros _. unfold channel_listener. repeat frame_step;
    first [ apply silent_update; intros x Hx; exact Hx
          | apply (frame_persist_value E (keeps_silent c) keep_none silent_objs)
          | apply silent_notify ].
Qed.

(** The transport layer's frames, at this relation. *)
Lemma silent_getTransport n : frame (keeps_silent c) (getTransport E n).
Proof. apply (frame_getTransport E (keeps_silent c) keep_none silent_objs). Qed.

Lemma silent_releaseTransport n : frame (keeps_silent c) (releaseTransport E n).
Proof.
  apply (frame_releaseTransport E (keeps_silent c) keep_none silent_objs). reflexivity.
Qed.

Lemma silent_call_unsubscribe u : frame (keeps_silent c) (call_unsubscribe u).
Proof. apply (frame_call_unsubscribe (keeps_silent c) keep_none silent_objs). Qed.

Lemma silent_getTabId : frame (keeps_silent c) (getTabId E).
Proof. apply (frame_getTabId E (keeps_silent c) keep_none silent_objs). Qed.

Lemma silent_persist_value ch v : frame (keeps_silent c) (persist_value E ch v).
Proof. apply (frame_persist_value E (keeps_silent c) keep_none silent_objs). Qed.

Lemma silent_ls_get k : frame (keeps_silent c) (localStorage_getItem E k).
Proof. apply (frame_ls_get E (keeps_silent c) keep_none silent_objs). Qed.

Lemma silent_call_callback ev f v : frame (keeps_silent c) (call_callback E ev f v).
Proof.
  apply (frame_call_callback E (keeps_silent c) keep_none silent_objs). reflexivity.
Qed.

Lemma silent_transport_publish t m : frame (keeps_silent c) (transport_publish E t m).
Proof.
  apply (frame_transport_publish E (keeps_silent c) keep_none any_message silent_objs);
    first [reflexivity | exact silent_listener | intros; exact I].
Qed.

Lemma silent_transport_subscribe t l : frame (keeps_silent c) (transport_subscribe E t l).
Proof.
  apply (frame_transport_subscribe E (keeps_silent c) keep_none any_message silent_objs);
    first [reflexivity | exact silent_listener | intros; exact I].
Qed.

Lemma silent_bc_message t m : frame (keeps_silent c) (bc_message E t m).
Proof.
  apply (frame_bc_message E (keeps_silent c) keep_none any_message silent_objs);
    first [reflexivity | exact silent_listener | exact I].
Qed.

Lemma silent_storage_event k nv : frame (keeps_silent c) (storage_event E k nv).
Proof.
  apply (frame_storage_event E (keeps_silent c) keep_none any_message silent_objs);
    first [reflexivity | exact silent_listener | intros; exact I].
Qed.

Lemma silent_new key init opts :
  frame (keeps_silent c) (new_CrossTabChannel E key init opts).
Proof.
  unfold new_CrossTabChannel, restore_persisted. repeat frame_step;
    first [ apply silent_getTransport
          | apply silent_alloc; reflexivity
          | apply silent_ls_get
          | apply silent_transport_subscribe
          | apply silent_update; intros x Hx; exact Hx ].
Qed.

Lemma silent_setValue c' v : frame (keeps_silent c) (setValue E c' v).
Proof.
  unfold setValue, Date_now. repeat frame_step;
    first [ apply silent_update; intros x Hx; exact Hx
          | apply silent_persist_value
          | apply silent_getTabId
          | apply silent_transport_publish
          | apply silent_notify ].
Qed.

Lemma silent_subscribe c' fn : c' <> c -> frame (keeps_silent c) (subscribe E c' fn).
Proof.
  intros Hne. unfold subscribe. repeat frame_step;
    first [apply silent_update_other, Hne | apply silent_call_callback].
Qed.

Lemma silent_unsubscribe c' fn : frame (keeps_silent c) (unsubscribe c' fn).
Proof. apply silent_update. intros x Hx. simpl. rewrite Hx. reflexivity. Qed.

Lemma silent_destroy c' : frame (keeps_silent c) (destroy E c').
Proof.
  unfold destroy. repeat frame_step;
    first [ apply silent_call_unsubscribe
          | apply silent_releaseTransport
          | apply silent_update; intros x Hx; reflexivity ].
Qed.

(** Every action but subscribing to [c] keeps [c] without subscribers. *)
Lemma silent_perform a :
  (forall fn, a <> ASubscribe c fn) -> frame (keeps_silent c) (perform E a).
Proof.
  intros Ha. destruct a; simpl.
  - apply (frame_bind (keeps_silent c)); [apply silent_new|intros ?; frame_step].
  - unfold getValue. repeat frame_step.
  - apply silent_setValue.
  - apply silent_subscribe. intros ->. exact (Ha _ eq_refl).
  - apply silent_unsubscribe.
  - apply silent_destroy.
  - apply silent_transport_publish.
  - apply (frame_bind (keeps_silent c)); [apply silent_transport_subscribe|].
    intros ?. frame_step.
  - exact (silent_call_unsubscribe (UDelete t (LExt f))).
  - apply silent_bc_message.
  - apply silent_storage_event.
  - apply (frame_same (keeps_silent c) keep_none silent_objs). intros w. simpl. auto.
Qed.

Lemma silent_run acts w :
  (forall fn, ASubscribe c fn ∉ acts) -> subs_empty c w -> subs_empty c (run E acts w).
Proof.
  revert w. induction acts as [|a acts IH]; intros w Ha Hw; simpl; [exact Hw|].
  apply IH.
  - intros fn Hin. apply (Ha fn). right. exact Hin.
  - apply (silent_perform a); [|exact Hw].
    intros fn ->. apply (Ha fn). left.
Qed.

(** [destroy()] leaves the subscriber set of its channel empty. *)
Lemma destroy_clears w : subs_empty c (snd (destroy E c w)).
Proof.
  assert (Hobjs : forall w w', channel_objs w' = channel_objs w ->
            List.filter keep_none (trace w') = List.filter keep_none (trace w) ->
            same_channels w w') by (intros ? ? H _; exact H).
  unfold subs_empty, destroy. unfold bind at 1. unfold get at 1. simpl.
  destruct (channel_objs w !! c) as [ch|] eqn:Hc; simpl; [|rewrite Hc; reflexivity].
  set (m1 := match c_unsubscribe ch with
             | Some u => call_unsubscribe u
             | None => ret tt
             end).
  assert (Ht1 : total m1).
  { subst m1. destruct (c_unsubscribe ch); [apply total_call_unsubscribe|apply total_ret]. }
  assert (Hf1 : frame same_channels m1).
  { subst m1. destruct (c_unsubscribe ch);
      [ apply (frame_call_unsubscribe same_channels keep_none Hobjs)
      | apply (frame_ret same_channels) ]. }
  unfold bind. destruct (Ht1 w) as [a1 Ha1]. specialize (Hf1 w).
  destruct (m1 w) as [[[]|] w1]; simpl in *; [|discriminate].
  destruct (total_releaseTransport E (channel_name_of (c_options ch)) w1) as [a2 Ha2].
  pose proof (frame_releaseTransport E same_channels keep_none Hobjs (fun _ => eq_refl)
                (channel_name_of (c_options ch)) w1) as Hf2.
  destruct (releaseTransport E _ w1) as [[[]|] w2]; simpl in *; [|discriminate].
  unfold same_channels in *. rewrite Hf2, Hf1, list_lookup_alter_eq, Hc. reflexivity.
Qed.

(** [setValue] on a channel without subscribers calls nobody. *)
Lemma setValue_silent v w : subs_empty c w -> trace (snd (setValue E c v w)) = trace w.
Proof.
  intros Hs. destruct (is_undefined v) eqn:Hv.
  { destruct v; try discriminate. rewrite setValue_undefined. reflexivity. }
  destruct (channel_objs w !! c) as [ch|] eqn:Hc.
  - destruct (setValue_spec E c ch v w Hc Hv) as (id & T & S & _ & _ & Hset).
    cbv zeta in Hset. rewrite Hset. simpl.
    unfold subs_empty in Hs. rewrite Hc in Hs. simpl in Hs. rewrite Hs. apply app_nil_r.
  - unfold setValue, bind, get. simpl. rewrite Hc. reflexivity.
Qed.
End Silent.

#[global] Instance mute_preorder c fn : PreOrder (mute c fn).
Proof.
  split.
  - intros w H. auto.
  - intros w1 w2 w3 H12 H23 H. destruct (H12 H) as [N2 T2]. destruct (H23 N2) as [N3 T3].
    split; [exact N3|congruence].
Qed.

Section Mute.
Variable E : Env.
Variables c fn : nat.

Lemma mute_objs {A} (m : M A) :
  (forall w, channel_objs (snd (m w)) = channel_objs w /\ trace (snd (m w)) = trace w) ->
  frame (mute c fn) m.
Proof.
  intros H w Hn. destruct (H w) as [Hc Ht]. unfold not_subscribed in *.
  rewrite Hc, Ht. auto.
Qed.

Lemma mute_getTabId : frame (mute c fn) (getTabId E).
Proof.
  apply mute_objs. intros w. destruct (getTabId_spec E w) as (id & T & S & Hg & _).
  rewrite Hg. auto.
Qed.

Lemma mute_emit e :
  (forall v, e <> EvSub c fn v) -> frame (mute c fn) (emit e).
Proof.
  intros He w Hn. split; [exact Hn|]. simpl. rewrite calls_of_app. simpl.
  destruct e as [| c' fn' v |]; simpl; try apply app_nil_r.
  destruct (Nat.eqb_spec c' c) as [->|]; simpl; [|apply app_nil_r].
  destruct (Nat.eqb_spec fn' fn) as [->|]; simpl; [|apply app_nil_r].
  exfalso. exact (He v eq_refl).
Qed.

Lemma mute_update_channel c' g :
  c' <> c \/ (forall x, fn ∈ c_subscribers (g x) -> fn ∈ c_subscribers x) ->
  frame (mute c fn) (update_channel c' g).
Proof.
  intros Hg w Hn. split; [|reflexivity]. unfold not_subscribed in *. simpl.
  destruct (decide (c' = c)) as [->|Hne].
  - destruct Hg as [Hg|Hg]; [contradiction|].
    rewrite list_lookup_alter_eq. destruct (channel_objs w !! c) as [x|]; simpl in *; auto.
  - rewrite list_lookup_alter_ne by exact Hne. exact Hn.
Qed.

Lemma mute_alloc_channel x : c_subscribers x = [] -> frame (mute c fn) (alloc_channel x).
Proof.
  intros Hx w Hn. split; [|reflexivity]. unfold not_subscribed in *. simpl.
  destruct (lt_eq_lt_dec c (length (channel_objs w))) as [[Hlt|Heq]|Hgt].
  - rewrite lookup_app_l by exact Hlt. exact Hn.
  - rewrite lookup_app_r by lia. rewrite Heq, Nat.sub_diag. simpl. rewrite Hx.
    apply not_elem_of_nil.
  - rewrite lookup_ge_None_2; [apply not_elem_of_nil|]. rewrite length_app. simpl. lia.
Qed.

Lemma mute_notify c' v : frame (mute c fn) (notify_subscribers E c' v).
Proof.
  intros w Hn. rewrite notify_subscribers_spec. simpl. split; [exact Hn|].
  rewrite calls_of_app.
  destruct (decide (c' = c)) as [->|Hne].
  - rewrite calls_of_notify_absent by exact Hn. apply app_nil_r.
  - replace (calls_of c fn (map (fun f => EvSub c' f v) _)) with (@nil JsVal);
      [apply app_nil_r|].
    induction (from_option c_subscribers [] (channel_objs w !! c')) as [|f l IH]; simpl;
      [reflexivity|].
    destruct (Nat.eqb_spec c' c); [contradiction|]. simpl. exact IH.
Qed.

Ltac mute_plain :=
  solve [ apply mute_objs;
          let w := fresh "w" in
          intros w;
          unfold localStorage_getItem, localStorage_setItem, update_transport,
            alloc_transport, modify; simpl;
          repeat match goal with |- context [if ?b then _ else _] => destruct b end;
          simpl; auto ].

Ltac mute_leaf :=
  first
    [ apply mute_getTabId
    | apply mute_notify
    | apply mute_emit; intros ?; discriminate
    | apply mute_alloc_channel; reflexivity
    | apply mute_update_channel; right; intros ?; simpl;
        first [ tauto
              | rewrite elem_of_set_delete; tauto
              | (let H := fresh "H" in intros H; exfalso; exact (not_elem_of_nil _ H)) ]
    | mute_plain ].

Lemma mute_new key init opts : frame (mute c fn) (new_CrossTabChannel E key init opts).
Proof. frames mute_leaf. Qed.

Lemma mute_setValue c' v : frame (mute c fn) (setValue E c' v).
Proof. frames mute_leaf. Qed.

Lemma mute_destroy c' : frame (mute c fn) (destroy E c').
Proof. frames mute_leaf. Qed.

Lemma mute_add fn' x : fn' <> fn -> fn ∈ set_add fn' x -> fn ∈ x.
Proof.
  intros Hne. unfold set_add. destruct (bool_decide (fn' ∈ x)); [auto|].
  rewrite elem_of_app, list_elem_of_singleton. intros [H|H]; [exact H|congruence].
Qed.

Lemma mute_subscribe c' fn' :
  c' <> c \/ fn' <> fn -> frame (mute c fn) (subscribe E c' fn').
Proof.
  intros Hd. unfold subscribe, call_callback.
  repeat first
    [ frame_step
    | apply mute_emit; intros ? [= -> ->]; destruct Hd; congruence
    | apply mute_update_channel;
        destruct Hd as [Hd|Hd]; [left; exact Hd|right; intros ?; simpl; apply mute_add, Hd] ].
Qed.

(** Every action but subscribing [fn] to [c] keeps [fn] out of the
    subscribers of [c] and uncalled by [c]. *)
Lemma mute_perform a : a <> ASubscribe c fn -> frame (mute c fn) (perform E a).
Proof.
  intros Ha. destruct a; simpl.
  - apply (frame_bind (mute c fn)); [apply mute_new|intros ?; frame_step].
  - frames mute_leaf.
  - apply mute_setValue.
  - apply mute_subscribe.
    destruct (decide (c0 = c)) as [->|]; [|left; assumption].
    right. intros ->. exact (Ha eq_refl).
  - frames mute_leaf.
  - apply mute_destroy.
  - frames mute_leaf.
  - frames mute_leaf.
  - frames mute_leaf.
  - frames mute_leaf.
  - frames mute_leaf.
  - mute_plain.
Qed.

Lemma mute_run acts w : ASubscribe c fn ∉ acts -> mute c fn w (run E acts w).
Proof.
  revert w. induction acts as [|a acts IH]; intros w Ha; simpl; [reflexivity|].
  transitivity (snd (perform E a w)).
  - apply mute_perform. intros ->. apply Ha. left.
  - apply IH. intros Hin. apply Ha. right. exact Hin.
Qed.
End Mute.

(** C7: once [destroy()] has run on a channel, the channel never calls a
    callback again unless that callback is subscribed to it anew: whatever
    happens after the destroy (other callbacks may subscribe, messages may
    arrive, values may be set) and then on [setValue], a callback that was
    registered before the destroy has no call more than it had when the
    destroy returned.  When nothing at all subscribes after the destroy,
    [setValue] makes no call.  And [destroy()] returns normally both the
    first time and when called again on the destroyed channel. *)
Theorem destroyed_channel_notifies_nobody
    (E : Env) (w : World) (c : nat) (acts : list Action) (v : JsVal) :
  let w1 := snd (destroy E c w) in
  let w2 := run E acts w1 in
  returns (destroy E c w) /\
  returns (destroy E c w1) /\
  (forall fn, ASubscribe c fn ∉ acts ->
     calls_of c fn (trace (snd (setValue E c v w2))) = calls_of c fn (trace w1)) /\
  ((forall fn, ASubscribe c fn ∉ acts) -> trace (snd (setValue E c v w2)) = trace w2).
Proof.
  intros w1 w2.
  split; [apply total_returns, total_destroy|].
  split; [apply total_returns, total_destroy|].
  split.
  - intros fn Ha.
    assert (H1 : not_subscribed c fn w1).
    { pose proof (destroy_clears E c w) as Hd. unfold subs_empty in Hd.
      unfold not_subscribed, w1. rewrite Hd. apply not_elem_of_nil. }
    destruct (mute_run E c fn acts w1 Ha H1) as [H2 T2].
    destruct (mute_setValue E c fn c v w2 H2) as [_ T3].
    fold w2 in T2. congruence.
  - intros Ha. apply setValue_silent, silent_run; [exact Ha|apply destroy_clears].
Qed.

(** *** Self-suppression on the live paths *)

#[global] Instance suppressed_preorder E id : PreOrder (suppressed E id).
Proof.
  split.
  - intros w H. auto.
  - intros w1 w2 w3 H12 H23 H. destruct (H12 H) as [Hr2 Hi2].
    destruct (H23 Hi2) as [Hr3 Hi3]. split; [congruence|exact Hi3].
Qed.

Section Suppression.
Variable E : Env.
Variable id : string.
Variable msg : JsVal.
Hypothesis own : get_prop "tabId" msg = VStr id.

Lemma suppressed_deliver t : frame (suppressed E id) (deliver E t msg).
Proof.
  intros w Hid. destruct (deliver_own E t msg id w Hid own) as (w' & Hd & Hr & Hi).
  rewrite Hd. auto.
Qed.

Lemma suppressed_bc_message t : frame (suppressed E id) (bc_message E t msg).
Proof. unfold bc_message, onmessage. repeat frame_step. apply suppressed_deliver. Qed.

Lemma suppressed_storage_event k text :
  JSON_parse E text = Ret msg -> frame (suppressed E id) (storage_event E k (Some text)).
Proof.
  intros Hp. unfold storage_event, storage_handler. repeat frame_step.
  match goal with H : JSON_parse E text = Ret _ |- _ => rewrite Hp in H; injection H as <- end.
  apply suppressed_deliver.
Qed.

Lemma suppressed_publish t w :
  local_id E w id -> typeof_object msg = true -> is_null msg = false ->
  trace (snd (transport_publish E t msg w)) = trace w /\
  channel_objs (snd (transport_publish E t msg w)) = channel_objs w.
Proof.
  intros Hid Ho Hn. unfold transport_publish, bind, get. simpl.
  destruct (transport_objs w !! t) as [tr|] eqn:Ht; simpl; [|auto].
  destruct (t_kind tr); simpl; [auto| |].
  - unfold try_, try_catch, bind, envelope_of, postMessage, bind, get, ret, throw. simpl.
    rewrite Ho, Hn. simpl. rewrite Ht. simpl.
    destruct (t_closed tr); simpl; [auto|].
    destruct (bc_post_throws E msg); simpl; [auto|].
    destruct (bc_echo E); simpl; [|auto].
    unfold onmessage.
    destruct (deliver_own E t msg id w Hid own) as (w' & Hd & Hr & Hi).
    rewrite Hd. simpl. unfold rest in Hr. injection Hr as _ _ _ _ _ Hc _ Htr. auto.
  - destruct (has_window E); simpl; [|auto].
    unfold try_, try_catch, bind, envelope_of, lift, localStorage_setItem, ret. simpl.
    rewrite Ho, Hn. simpl.
    destruct (JSON_stringify E msg); simpl; [|auto].
    destruct (ls_set_throws E _ _ _); simpl; auto.
Qed.
End Suppression.

Section Replay.
Variable E : Env.

Lemma call_listener_trace t l msg w :
  exists evs, trace (snd (call_listener E t l msg w)) = trace w ++ EvListener t l msg :: evs.
Proof.
  destruct l as [c|f]; simpl.
  - unfold bind, emit, modify. simpl.
    match goal with
    | |- context [channel_listener E c msg ?w1] =>
        destruct (channel_listener_cases E c msg w1) as [Hrej|(ch & _ & _ & Hacc)]
    end.
    + rewrite Hrej. simpl. exists []. reflexivity.
    + rewrite Hacc. simpl. rewrite <- app_assoc. simpl. eauto.
  - unfold call_callback, bind, emit, modify, throw, ret. simpl.
    destruct (cb_throws E f msg); simpl; exists []; reflexivity.
Qed.

(** The fallback's [subscribe] calls the new listener with the stored
    envelope, whatever its [tabId]. *)
Lemma subscribe_hands_over_stored_envelope t tr l text msg w :
  has_window E = true ->
  transport_objs w !! t = Some tr -> t_kind tr = TFallback ->
  ls_get_throws E (slot_of (t_name tr)) = false ->
  localStorage w !! slot_of (t_name tr) = Some text ->
  truthy_str text = true ->
  JSON_parse E text = Ret msg -> well_formed msg = true ->
  exists evs,
    trace (snd (transport_subscribe E t l w)) = trace w ++ EvListener t l msg :: evs.
Proof.
  intros Hw Ht Hk Hget Hslot Htext Hp Hwf.
  unfold transport_subscribe. unfold bind at 1. unfold get at 1. simpl. rewrite Ht, Hk, Hw.
  unfold bind at 1. unfold update_transport at 1, modify at 1.
  unfold bind at 1, try_, try_catch, bind at 1, localStorage_getItem. rewrite Hget. simpl.
  rewrite Hslot, Htext. unfold bind at 1, lift. rewrite Hp, Hwf.
  match goal with
  | |- context [call_listener E t l msg ?w1] =>
      destruct (call_listener_trace t l msg w1) as [evs Hevs];
        destruct (call_listener E t l msg w1) as [[[]|] w2] eqn:Hcall
  end; simpl in *; exists evs; exact Hevs.
Qed.
End Replay.

(** C1, as the code has it: a message that carries the local identity is
    stopped on the live paths.  When it arrives as a BroadcastChannel
    message or as a storage event, or comes back from the transport's own
    [publish], no listener is called and no channel object changes.  The
    fallback's read of the stored slot inside [subscribe] makes no identity
    test: a well-formed stored envelope is handed to the new listener even
    then. *)
Theorem own_messages_stop_at_live_filter
    (E : Env) (w : World) (id : string) (msg : JsVal) :
  local_id E w id ->
  get_prop "tabId" msg = VStr id ->
  (forall t, trace (snd (bc_message E t msg w)) = trace w /\
             channel_objs (snd (bc_message E t msg w)) = channel_objs w) /\
  (forall k text, JSON_parse E text = Ret msg ->
     trace (snd (storage_event E k (Some text) w)) = trace w /\
     channel_objs (snd (storage_event E k (Some text) w)) = channel_objs w) /\
  (forall t, typeof_object msg = true -> is_null msg = false ->
     trace (snd (transport_publish E t msg w)) = trace w /\
     channel_objs (snd (transport_publish E t msg w)) = channel_objs w) /\
  (forall t tr l text,
     has_window E = true ->
     transport_objs w !! t = Some tr -> t_kind tr = TFallback ->
     ls_get_throws E (slot_of (t_name tr)) = false ->
     localStorage w !! slot_of (t_name tr) = Some text ->
     truthy_str text = true ->
     JSON_parse E text = Ret msg -> well_formed msg = true ->
     exists evs,
       trace (snd (transport_subscribe E t l w)) = trace w ++ EvListener t l msg :: evs).
Proof.
  intros Hid Hown.
  assert (Hrest : forall w', suppressed E id w w' ->
            trace w' = trace w /\ channel_objs w' = channel_objs w).
  { intros w' H. destruct (H Hid) as [Hr _]. unfold rest in Hr.
    injection Hr as _ _ _ _ _ Hc _ Htr. auto. }
  split; [intros t; apply Hrest; exact (suppressed_bc_message E id msg Hown t w)|].
  split; [intros k text Hp; apply Hrest;
          exact (suppressed_storage_event E id msg Hown k text Hp w)|].
  split; [intros t Ho Hn; apply (suppressed_publish E id); assumption|].
  intros t tr l text. apply subscribe_hands_over_stored_envelope.
Qed.

Section Restore.
Variable E : Env.

Lemma getTransport_native n w :
  has_window E = true -> native_strategy E w ->
  exists t w1,
    getTransport E n w = (Ret t, w1) /\
    channel_objs w1 = channel_objs w /\
    localStorage w1 = localStorage w /\
    (forall tr, transport_objs w1 !! t = Some tr -> t_kind tr <> TFallback).
Proof.
  intros Hw (Hbc & Hnew & Hobjs).
  destruct (transports w !! n) as [t|] eqn:Ht.
  - rewrite (getTransport_found E n t w Ht). eexists _, _. split; [reflexivity|].
    simpl. split; [reflexivity|]. split; [reflexivity|]. apply Hobjs.
  - rewrite (getTransport_created E n w Ht). eexists _, _. split; [reflexivity|].
    simpl. split; [reflexivity|]. split; [reflexivity|].
    intros tr. rewrite lookup_app_r, Nat.sub_diag by lia. simpl.
    intros [= <-]. simpl. unfold created_kind. rewrite Hw, Hbc, Hnew. simpl. discriminate.
Qed.

Lemma transport_subscribe_native t l w :
  (forall tr, transport_objs w !! t = Some tr -> t_kind tr <> TFallback) ->
  exists u w', transport_subscribe E t l w = (Ret u, w') /\ channel_objs w' = channel_objs w.
Proof.
  intros Hnf. unfold transport_subscribe, bind, get, update_transport, modify, ret. simpl.
  destruct (transport_objs w !! t) as [tr|] eqn:Ht; simpl; [|eauto].
  specialize (Hnf tr eq_refl).
  destruct (t_kind tr); simpl; [eauto|eauto|contradiction].
Qed.

(** Under the native strategy the constructor on a persisting key adopts
    what the slot holds. *)
Lemma new_channel_restores key init cn text v0 w :
  storage_works E -> native_strategy E w ->
  localStorage w !! ("xts-" +:+ key) = Some text ->
  truthy_str text = true -> String.eqb text "undefined" = false ->
  trim_truthy text = true -> JSON_parse E text = Ret v0 ->
  exists w',
    new_CrossTabChannel E key init (mkOptions cn true None None) w
    = (Ret (length (channel_objs w)), w') /\
    getValue (length (channel_objs w)) w' = (Ret v0, w').
Proof.
  intros (Hw & Hget & Hset) Hnat Hslot Ht Hu Htr Hp.
  destruct (getTransport_native (channel_name_of (mkOptions cn true None None)) w Hw Hnat)
    as (t & w1 & Hg & Hc1 & Hl1 & Hnf).
  assert (Hrestore : forall w2,
            localStorage w2 = localStorage w ->
            restore_persisted E (length (channel_objs w)) key (mkOptions cn true None None) w2
            = (Ret tt, set_channel_objs
                         (alter (with_value v0) (length (channel_objs w)) (channel_objs w2)) w2)).
  { intros w2 Hl2. unfold restore_persisted. simpl. rewrite Hw. simpl.
    unfold try_, try_catch, bind, localStorage_getItem, lift, update_channel, modify.
    rewrite Hget, Hl2, Hslot, Ht, Hu, Htr. simpl. rewrite Hp. reflexivity. }
  unfold new_CrossTabChannel.
  erewrite bind_ret_eq by exact Hg.
  erewrite bind_ret_eq by reflexivity. rewrite Hc1.
  erewrite bind_ret_eq by (apply Hrestore; simpl; exact Hl1).
  match goal with
  | |- context [bind (transport_subscribe E t ?l) _ ?w2] =>
      destruct (transport_subscribe_native t l w2) as (u & w3 & Hs & Hc3);
        [exact Hnf|]
  end.
  erewrite bind_ret_eq by exact Hs.
  unfold bind, update_channel, modify, ret. simpl.
  eexists. split; [reflexivity|].
  unfold getValue, get. simpl. rewrite Hc3. simpl.
  rewrite !list_lookup_alter_eq, lookup_app_r, Nat.sub_diag by lia. reflexivity.
Qed.
End Restore.

(** ** The scenarios *)

(** *** The repository's tests, replayed *)

(** "should update value" and "should not set undefined values" *)
Example test_setValue :
  let w := run browser_env [ANew "test-key" (VStr "initial") default_options] (init_world 0) in
  fst (getValue 0 (run browser_env [ASetValue 0 (VStr "updated")] w)) = Ret (VStr "updated") /\
  fst (getValue 0 (run browser_env [ASetValue 0 VUndef] w)) = Ret (VStr "initial").
Proof. vm_compute. split; reflexivity. Qed.

(** "should handle subscriber errors gracefully": the bad subscriber (13)
    throws, the good one (2) is still called. *)
Example test_subscriber_errors :
  trace (run browser_env
           [ANew "test-key" (VStr "initial") default_options;
            ASubscribe 0 13; ASubscribe 0 2; ASetValue 0 (VStr "updated")] (init_world 0))
  = [EvSub 0 13 (VStr "initial"); EvSub 0 2 (VStr "initial");
     EvSub 0 13 (VStr "updated"); EvSub 0 2 (VStr "updated")].
Proof. vm_compute. reflexivity. Qed.

(** "should persist value to localStorage when persist is enabled" and
    "should not persist when persist is disabled" *)
Example test_persist :
  localStorage (run browser_env
                  [ANew "test-key" (VStr "initial") persist_options;
                   ASetValue 0 (VStr "persisted")] (init_world 0)) !! "xts-test-key"
  = Some (JSON.quoted "persisted") /\
  localStorage (run browser_env
                  [ANew "test-key" (VStr "initial") default_options;
                   ASetValue 0 (VStr "not-persisted")] (init_world 0)) !! "xts-test-key"
  = None.
Proof. vm_compute. split; reflexivity. Qed.

(** "should restore value from localStorage on initialization", "should
    handle invalid stored data gracefully", "should handle empty stored
    data" and "should handle undefined stored data" *)
Example test_restore :
  let value_after text :=
    fst (getValue 0 (run browser_env [ANew "test-key" (VStr "initial") persist_options]
                       (world_with "xts-test-key" text))) in
  value_after (JSON.quoted "restored") = Ret (VStr "restored") /\
  value_after "invalid-json" = Ret (VStr "initial") /\
  value_after "" = Ret (VStr "initial") /\
  value_after "undefined" = Ret (VStr "initial").
Proof. vm_compute. repeat split. Qed.

(** "should handle invalid serialized value" *)
Example test_invalid_serialized :
  localStorage (run browser_env
                  [ANew "test-key" (VStr "initial")
                     (mkOptions None true (Some (fun _ => Ret "undefined")) None);
                   ASetValue 0 (VStr "value")] (init_world 0)) !! "xts-test-key"
  = None.
Proof. vm_compute. reflexivity. Qed.

(** "should clean up resources": after [destroy], [setValue] does not reach
    the subscriber, which was called once, at subscription. *)
Example test_destroy :
  trace (run browser_env
           [ANew "test-key" (VStr "initial") default_options;
            ASubscribe 0 1; ADestroy 0; ASetValue 0 (VStr "after-destroy")] (init_world 0))
  = [EvSub 0 1 (VStr "initial"); EvDestroy 0].
Proof. vm_compute. reflexivity. Qed.

(** "should reuse transports for same channel name" and "should use
    different transports for different channel names" *)
Example test_transport_sharing :
  let named n := mkOptions (Some n) false None None in
  c_transport <$>
    channel_objs (run browser_env
                    [ANew "key1" (VStr "value1") (named "same-channel");
                     ANew "key2" (VStr "value2") (named "same-channel");
                     ANew "key3" (VStr "value3") (named "channel2")] (init_world 0))
  = [0; 0; 1]%nat.
Proof. vm_compute. reflexivity. Qed.

(** "should receive messages from other tabs", with the envelope injected
    as a message event, and "should filter messages by key" *)
Example test_remote_envelope :
  let w := run browser_env
             [ANew "k" (VStr "initial") default_options; ASubscribe 0 1;
              ANew "other" (VStr "mine") default_options] (init_world 0) in
  let w' := run browser_env [ABcMessage 0 (envelope (VStr "remote") "k" "other-tab" 5)] w in
  c_value <$> channel_objs w' = [VStr "remote"; VStr "mine"] /\
  trace w' = trace w ++
    [EvListener 0 (LChan 0) (envelope (VStr "remote") "k" "other-tab" 5);
     EvSub 0 1 (VStr "remote");
     EvListener 0 (LChan 1) (envelope (VStr "remote") "k" "other-tab" 5)].
Proof. vm_compute. split; reflexivity. Qed.

(** *** Witnesses and counterexamples *)

Lemma demo_channel_in_world : channel_objs demo_world !! 0%nat = Some demo_channel.
Proof. reflexivity. Qed.

Lemma demo_subscribers_distinct : NoDup (c_subscribers demo_channel).
Proof. apply (bool_decide_unpack _). vm_compute. reflexivity. Qed.

(** C1 fails on the subscribe-time read: with the storage fallback, after a
    channel has published its own envelope, a listener subscribed to the
    transport is called at once with that envelope, whose [tabId] is the
    local identity. *)
Lemma fallback_subscribe_replays_own_message :
  let w1 := run fallback_env
              [ANew "k" (VStr "a") default_options; ASetValue 0 (VStr "x")] (init_world 0) in
  let msg := envelope (VStr "x") "k" "0-r4nd0m" 0 in
  local_id fallback_env w1 "0-r4nd0m" /\
  get_prop "tabId" msg = VStr "0-r4nd0m" /\
  trace (snd (transport_subscribe fallback_env 0 (LExt 7) w1))
  = trace w1 ++ [EvListener 0 (LExt 7) msg] /\
  trace (snd (new_CrossTabChannel fallback_env "k" (VStr "b") default_options w1))
  = trace w1 ++ [EvListener 0 (LChan 1) msg] /\
  fst (getValue 1 (snd (new_CrossTabChannel fallback_env "k" (VStr "b") default_options w1)))
  = Ret (VStr "x").
Proof. vm_compute. repeat split. Qed.

(** C2 fails with the storage fallback: [persist] is false and [setValue]
    writes the slot [xts-xts]. *)
Lemma setValue_without_persist_writes_fallback_slot :
  let w1 := run fallback_env [ANew "k" (VStr "a") default_options] (init_world 0) in
  let w2 := snd (setValue fallback_env 0 (VStr "x") w1) in
  (persist ∘ c_options) <$> channel_objs w1 !! 0%nat = Some false /\
  localStorage w1 !! "xts-xts" = None /\
  localStorage w2 !! "xts-xts"
  = Some (JSON.print (envelope (VStr "x") "k" "0-r4nd0m" 0)).
Proof. vm_compute. repeat split. Qed.



Lemma own_messages_stop_at_live_filter_witness :
  local_id browser_env demo_world "0-r4nd0m" /\
  get_prop "tabId" (envelope (VStr "x") "k" "0-r4nd0m" 0) = VStr "0-r4nd0m" /\
  trace (snd (bc_message browser_env 0 (envelope (VStr "x") "k" "0-r4nd0m" 0) demo_world))
  = trace demo_world.
Proof.
  assert (Hid : local_id browser_env demo_world "0-r4nd0m") by reflexivity.
  split; [exact Hid|]. split; [reflexivity|].
  destruct (own_messages_stop_at_live_filter browser_env demo_world "0-r4nd0m"
              (envelope (VStr "x") "k" "0-r4nd0m" 0) Hid eq_refl) as (Hbc & _ & _).
  apply (Hbc 0%nat).
Defined.

Lemma setValue_without_persist_writes_only_fallback_slot_witness :
  (channel_objs demo_world !! 0%nat = Some demo_channel /\
   persist (c_options demo_channel) = false /\
   localStorage (snd (setValue browser_env 0 (VStr "x") demo_world)) = localStorage demo_world) /\
  (channel_objs writer_world !! 0%nat = Some writer_channel /\
   persist (c_options writer_channel) = false /\
   localStorage (snd (setValue fallback_env 0 (VStr "x") writer_world)) !! "xts-xts"
   = Some (JSON.print written_envelope)).
Proof.
  split.
  - split; [reflexivity|]. split; [reflexivity|].
    destruct (setValue_without_persist_writes_only_fallback_slot
                browser_env demo_world 0 demo_channel (VStr "x") eq_refl eq_refl)
      as (_ & Hnative & _).
    apply Hnative.
    intros tr Htr. change (transport_objs demo_world !! c_transport demo_channel)
        with (Some (mkTransport TNative "xts" [LChan 0] false)) in Htr.
    injection Htr as <-. discriminate.
  - split; [reflexivity|]. split; [reflexivity|].
    destruct (setValue_without_persist_writes_only_fallback_slot
                fallback_env writer_world 0 writer_channel (VStr "x") eq_refl eq_refl)
      as (_ & _ & Hwritten).
    destruct (Hwritten (mkTransport TFallback "xts" [LChan 0] false) "0-r4nd0m"
                eq_refl eq_refl eq_refl eq_refl) as [Hw _].
    apply (Hw (JSON.print written_envelope)); [discriminate|reflexivity|reflexivity].
Defined.

Lemma paired_demo : paired [Acquire "a"; Acquire "a"; Release "a"].
Proof.
  intros i name. destruct i as [|[|[|[|i]]]]; cbn -[String.eqb];
    destruct (String.eqb "a" name); cbn; lia.
Qed.


Lemma core_operations_never_throw_witness :
  cb_throws browser_env 13 (VStr "x") = true /\
  channel_objs demo_world !! 0%nat = Some demo_channel /\
  VStr "x" <> VUndef /\
  2%nat ∈ c_subscribers demo_channel /\
  returns (setValue browser_env 0 (VStr "x") demo_world) /\
  exists evs,
    trace (snd (setValue browser_env 0 (VStr "x") demo_world)) = trace demo_world ++ evs /\
    EvSub 0 2 (VStr "x") ∈ evs.
Proof.
  assert (Hin : 2%nat ∈ c_subscribers demo_channel).
  { simpl. apply elem_of_cons. right. apply elem_of_cons. right. apply elem_of_cons. left.
    reflexivity. }
  split; [reflexivity|]. split; [reflexivity|]. split; [discriminate|]. split; [exact Hin|].
  destruct (core_operations_never_throw browser_env demo_world)
    as (_ & _ & Hset & _ & _ & _ & _ & _ & _ & _ & _ & Hall).
  split; [apply Hset|].
  apply (Hall 0%nat demo_channel (VStr "x") 2%nat); [reflexivity|discriminate|exact Hin].
Defined.

Lemma destroyed_channel_notifies_nobody_witness :
  1%nat ∈ c_subscribers demo_channel /\
  (ASubscribe 0 1
     ∉ [ASubscribe 0 5; ASetValue 0 (VStr "y"); ABcMessage 0 foreign_envelope]) /\
  returns (destroy browser_env 0 demo_world) /\
  returns (destroy browser_env 0 (snd (destroy browser_env 0 demo_world))) /\
  calls_of 0 1
    (trace (snd (setValue browser_env 0 (VStr "x")
                   (run browser_env
                      [ASubscribe 0 5; ASetValue 0 (VStr "y"); ABcMessage 0 foreign_envelope]
                      (snd (destroy browser_env 0 demo_world))))))
  = calls_of 0 1 (trace (snd (destroy browser_env 0 demo_world))).
Proof.
  assert (Hacts : ASubscribe 0 1
            ∉ [ASubscribe 0 5; ASetValue 0 (VStr "y"); ABcMessage 0 foreign_envelope]).
  { intros Hin. apply elem_of_cons in Hin as [Hin|Hin]; [discriminate|].
    apply elem_of_cons in Hin as [Hin|Hin]; [discriminate|].
    apply elem_of_cons in Hin as [Hin|Hin]; [discriminate|]. inversion Hin. }
  split; [left|]. split; [exact Hacts|].
  destruct (destroyed_channel_notifies_nobody browser_env demo_world 0
              [ASubscribe 0 5; ASetValue 0 (VStr "y"); ABcMessage 0 foreign_envelope] (VStr "x"))
    as (H1 & H2 & Hfn & _).
  split; [exact H1|]. split; [exact H2|]. exact (Hfn 1%nat Hacts).
Defined.

Lemma foreign_key_leaves_channel_alone_witness :
  channel_objs demo_world !! 0%nat = Some demo_channel /\
  strict_eq_str (get_prop "key" foreign_envelope) (c_key demo_channel) = false /\
  channel_objs (snd (bc_message browser_env 0 foreign_envelope demo_world)) !! 0%nat
  = Some demo_channel /\
  sub_calls 0 (trace (snd (bc_message browser_env 0 foreign_envelope demo_world)))
  = sub_calls 0 (trace demo_world).
Proof.
  split; [reflexivity|]. split; [reflexivity|].
  destruct (foreign_key_leaves_channel_alone browser_env demo_world 0 demo_channel
              foreign_envelope eq_refl eq_refl) as (_ & Hbc & _ & _).
  apply (Hbc 0%nat).
Defined.


(** * Further properties of the code *)

Section Distinct.
Variable E : Env.

Lemma distinct_update_channel c g :
  (forall x, NoDup (c_subscribers x) -> NoDup (c_subscribers (g x))) ->
  frame (keeps sets_distinct) (update_channel c g).
Proof.
  intros Hg w [Hc Ht]. split; [|exact Ht]. simpl. intros c' ch'.
  destruct (decide (c = c')) as [->|Hne].
  - rewrite list_lookup_alter_eq. destruct (channel_objs w !! c') as [x|] eqn:Hx; [|discriminate].
    simpl. intros [= <-]. apply Hg, (Hc c'), Hx.
  - rewrite list_lookup_alter_ne by exact Hne. apply Hc.
Qed.

Lemma distinct_update_transport t g :
  (forall x, NoDup (t_listeners x) -> NoDup (t_listeners (g x))) ->
  frame (keeps sets_distinct) (update_transport t g).
Proof.
  intros Hg w [Hc Ht]. split; [exact Hc|]. simpl. intros t' tr'.
  destruct (decide (t = t')) as [->|Hne].
  - rewrite list_lookup_alter_eq. destruct (transport_objs w !! t') as [x|] eqn:Hx; [|discriminate].
    simpl. intros [= <-]. apply Hg, (Ht t'), Hx.
  - rewrite list_lookup_alter_ne by exact Hne. apply Ht.
Qed.

Lemma distinct_alloc_channel x :
  NoDup (c_subscribers x) -> frame (keeps sets_distinct) (alloc_channel x).
Proof.
  intros Hx w [Hc Ht]. split; [|exact Ht]. simpl. intros c ch Hl.
  apply lookup_app_Some in Hl as [Hl|[_ Hl]]; [exact (Hc c ch Hl)|].
  destruct (c - length (channel_objs w))%nat; simpl in Hl; [|discriminate].
  injection Hl as <-. exact Hx.
Qed.

Lemma distinct_alloc_transport x :
  NoDup (t_listeners x) -> frame (keeps sets_distinct) (alloc_transport x).
Proof.
  intros Hx w [Hc Ht]. split; [exact Hc|]. simpl. intros t tr Hl.
  apply lookup_app_Some in Hl as [Hl|[_ Hl]]; [exact (Ht t tr Hl)|].
  destruct (t - length (transport_objs w))%nat; simpl in Hl; [|discriminate].
  injection Hl as <-. exact Hx.
Qed.

Lemma distinct_getTabId : frame (keeps sets_distinct) (getTabId E).
Proof.
  intros w H. destruct (getTabId_spec E w) as (id & T & S & Hg & _). rewrite Hg. exact H.
Qed.

Ltac distinct_leaf :=
  first
    [ apply distinct_getTabId
    | apply distinct_update_channel; intros ? ?; simpl;
        auto using NoDup_set_add, NoDup_set_delete, NoDup_nil_2
    | apply distinct_update_transport; intros ? ?; simpl;
        auto using NoDup_set_add, NoDup_set_delete, NoDup_nil_2
    | apply distinct_alloc_channel; simpl; apply NoDup_nil_2
    | apply distinct_alloc_transport; simpl; apply NoDup_nil_2
    | (let w := fresh "w" in
       let H := fresh "H" in
       intros w H; unfold localStorage_getItem, localStorage_setItem, emit, modify; simpl;
       repeat match goal with |- context [if ?b then _ else _] => destruct b end;
       exact H) ].

Lemma distinct_perform a : frame (keeps sets_distinct) (perform E a).
Proof. destruct a; simpl; frames distinct_leaf. Qed.

Lemma distinct_run acts w : sets_distinct w -> sets_distinct (run E acts w).
Proof.
  revert w. induction acts as [|a acts IH]; intros w H; simpl; [exact H|].
  apply IH, (distinct_perform a), H.
Qed.

Lemma fresh_distinct w : fresh_module w -> sets_distinct w.
Proof.
  intros [Hc Ht]. split; intros k x; [rewrite Hc|rewrite Ht]; intros Hl; inversion Hl.
Qed.
End Distinct.

Lemma new_events_app w w' evs : trace w' = trace w ++ evs -> new_events w w' = evs.
Proof. intros H. unfold new_events. rewrite H. apply drop_app_length. Qed.

(** ** The identity across calls and reloads *)

Section IdentityReload.
Variable E : Env.

Lemma getTabId_fresh_stored s w :
  has_window E = true -> ss_get_throws E "xts-tid" = false ->
  tabId w = None -> sessionStorage w !! "xts-tid" = Some s -> truthy_str s = true ->
  getTabId E w = (Ret s, set_tabId (Some s) w).
Proof.
  intros Hw Hg Ht Hs Htr. unfold getTabId, getTabId_uncached. rewrite Hw. simpl.
  unfold bind, get, try_catch, sessionStorage_getItem, modify, ret. simpl.
  rewrite Ht, Hg, Hs, Htr. reflexivity.
Qed.

Lemma getTabId_fresh_generated w :
  has_window E = true -> ss_get_throws E "xts-tid" = false ->
  (forall S v, ss_set_throws E S "xts-tid" v = false) ->
  tabId w = None ->
  (forall s, sessionStorage w !! "xts-tid" = Some s -> truthy_str s = false) ->
  let id := pretty (now w) +:+ "-" +:+ random_id E in
  getTabId E w
  = (Ret id, set_sessionStorage (<["xts-tid" := id]> (sessionStorage w)) (set_tabId (Some id) w)).
Proof.
  intros Hw Hg Hset Ht Hs id. unfold getTabId, getTabId_uncached. rewrite Hw. simpl.
  unfold bind, get, try_catch, try_, try_catch, sessionStorage_getItem, sessionStorage_setItem,
    modify, Date_now, get, ret. simpl.
  rewrite Ht, Hg. simpl.
  destruct (sessionStorage w !! "xts-tid") as [s|] eqn:Hst; simpl.
  - rewrite (Hs s eq_refl). simpl. rewrite Hset. reflexivity.
  - rewrite Hset. reflexivity.
Qed.
End IdentityReload.

(** X1: the first [getTabId()] of a page load leaves in the session storage
    what the first [getTabId()] after a reload of the page returns. *)
Theorem identity_survives_reload (E : Env) (w w' : World) (id : string) :
  has_window E = true ->
  ss_get_throws E "xts-tid" = false ->
  (forall S v, ss_set_throws E S "xts-tid" v = false) ->
  tabId w = None ->
  fst (getTabId E w) = Ret id ->
  tabId w' = None ->
  sessionStorage w' = sessionStorage (snd (getTabId E w)) ->
  fst (getTabId E w') = Ret id /\
  sessionStorage (snd (getTabId E w')) = sessionStorage w'.
Proof.
  intros Hw Hg Hset Ht Hid Ht' Hs'.
  destruct (sessionStorage w !! "xts-tid") as [s|] eqn:Hst;
    [destruct (truthy_str s) eqn:Htr|].
  - rewrite (getTabId_fresh_stored E s w Hw Hg Ht Hst Htr) in Hid, Hs'. simpl in *.
    injection Hid as <-. rewrite <- Hs' in Hst.
    rewrite (getTabId_fresh_stored E s w' Hw Hg Ht' Hst Htr). auto.
  - assert (Hfalsy : forall s', sessionStorage w !! "xts-tid" = Some s' -> truthy_str s' = false)
      by (intros s'; rewrite Hst; intros [= <-]; exact Htr).
    rewrite (getTabId_fresh_generated E w Hw Hg Hset Ht Hfalsy) in Hid, Hs'. simpl in *.
    injection Hid as <-.
    assert (Hst' : sessionStorage w' !! "xts-tid"
                   = Some (pretty (now w) +:+ "-" +:+ random_id E))
      by (rewrite Hs'; apply lookup_insert_eq).
    rewrite (getTabId_fresh_stored E _ w' Hw Hg Ht' Hst' (truthy_generated _ _)). auto.
  - assert (Hfalsy : forall s', sessionStorage w !! "xts-tid" = Some s' -> truthy_str s' = false)
      by (intros s'; rewrite Hst; discriminate).
    rewrite (getTabId_fresh_generated E w Hw Hg Hset Ht Hfalsy) in Hid, Hs'. simpl in *.
    injection Hid as <-.
    assert (Hst' : sessionStorage w' !! "xts-tid"
                   = Some (pretty (now w) +:+ "-" +:+ random_id E))
      by (rewrite Hs'; apply lookup_insert_eq).
    rewrite (getTabId_fresh_stored E _ w' Hw Hg Ht' Hst' (truthy_generated _ _)). auto.
Qed.

Section IdentityStable.
Variable E : Env.
Variable id : string.

Lemma stable_getTabId : frame (keeps (cached_id E id)) (getTabId E).
Proof. intros w H. rewrite (cached_getTabId E id w H). exact H. Qed.

Ltac stable_leaf :=
  first
    [ apply stable_getTabId
    | (let w := fresh "w" in
       let H := fresh "H" in
       intros w H;
       unfold localStorage_getItem, localStorage_setItem, emit, update_channel,
         update_transport, alloc_channel, alloc_transport, modify; simpl;
       repeat match goal with |- context [if ?b then _ else _] => destruct b end;
       exact H) ].

Lemma stable_perform a : frame (keeps (cached_id E id)) (perform E a).
Proof. destruct a; simpl; frames stable_leaf. Qed.

Lemma stable_run acts w : cached_id E id w -> cached_id E id (run E acts w).
Proof.
  revert w. induction acts as [|a acts IH]; intros w H; simpl; [exact H|].
  apply IH, (stable_perform a), H.
Qed.
End IdentityStable.

(** X2: once [getTabId()] has returned an identity, it returns the same one
    after any sequence of operations and events, and it no longer touches
    the module or the storage. *)
Theorem identity_never_changes (E : Env) (w : World) (id : string) (acts : list Action) :
  fst (getTabId E w) = Ret id ->
  let w1 := run E acts (snd (getTabId E w)) in
  getTabId E w1 = (Ret id, w1).
Proof.
  intros Hid w1. destruct (getTabId_spec E w) as (id0 & T & S & Hg & Hc).
  rewrite Hg in Hid. simpl in Hid. injection Hid as ->.
  apply cached_getTabId. subst w1. rewrite Hg. simpl. apply stable_run, Hc.
Qed.

(** ** Subscribers *)

Lemma setValue_trace (E : Env) c ch v w :
  channel_objs w !! c = Some ch -> v <> VUndef ->
  trace (snd (setValue E c v w)) = trace w ++ map (fun fn => EvSub c fn v) (c_subscribers ch) /\
  channel_objs (snd (setValue E c v w)) = alter (with_value v) c (channel_objs w) /\
  fst (setValue E c v w) = Ret tt.
Proof.
  intros Hc Hv.
  destruct (setValue_spec E c ch v w Hc (is_undefined_false v Hv)) as (id & T & S & _ & _ & Hset).
  cbv zeta in Hset. rewrite Hset. simpl. auto.
Qed.

Lemma subscribe_spec (E : Env) c ch fn w :
  channel_objs w !! c = Some ch ->
  subscribe E c fn w
  = (Ret tt,
     set_trace (trace w ++ [EvSub c fn (c_value ch)])
       (set_channel_objs
          (alter (fun x => with_subscribers (set_add fn (c_subscribers x)) x) c (channel_objs w))
          w)).
Proof.
  intros Hc. unfold subscribe. unfold bind at 1. unfold get at 1. simpl. rewrite Hc.
  unfold bind, update_channel, modify. simpl. rewrite call_callback_try. reflexivity.
Qed.


(** X5: after the function [subscribe(fn)] returned has been called, neither
    [setValue] nor an accepted remote envelope calls [fn]; the other
    subscribers are still there. *)
Theorem unsubscribed_callback_is_not_called
    (E : Env) (w : World) (c : nat) (ch : Channel) (fn : nat) (v : JsVal) :
  channel_objs w !! c = Some ch ->
  v <> VUndef ->
  let w1 := snd (unsubscribe c fn w) in
  (exists ch1, channel_objs w1 !! c = Some ch1 /\
     forall g, g ∈ c_subscribers ch1 <-> g ∈ c_subscribers ch /\ g <> fn) /\
  calls_of c fn (new_events w1 (snd (setValue E c v w1))) = [] /\
  (forall msg,
     get_prop "value" msg = v ->
     calls_of c fn (new_events w1 (snd (channel_listener E c msg w1))) = []).
Proof.
  intros Hc Hv w1.
  assert (Hc1 : channel_objs w1 !! c
                = Some (with_subscribers (set_delete fn (c_subscribers ch)) ch)).
  { subst w1. simpl. rewrite list_lookup_alter_eq, Hc. reflexivity. }
  assert (Hnotin : fn ∉ set_delete fn (c_subscribers ch)).
  { rewrite elem_of_set_delete. tauto. }
  split; [eexists; split; [exact Hc1|]; intros g; apply elem_of_set_delete|].
  split.
  - destruct (setValue_trace E c _ v w1 Hc1 Hv) as (Htr & _ & _).
    rewrite (new_events_app _ _ _ Htr). apply calls_of_notify_absent. exact Hnotin.
  - intros msg Hval.
    destruct (channel_listener_cases E c msg w1) as [Hrej|(ch1 & Hch1 & _ & Hacc)].
    + rewrite Hrej. simpl. unfold new_events. rewrite drop_all. reflexivity.
    + rewrite Hacc. simpl. rewrite Hc1 in Hch1. injection Hch1 as <-.
      erewrite new_events_app by reflexivity. apply calls_of_notify_absent. exact Hnotin.
Qed.

(** X6: [setValue] on one channel object leaves every other channel object of
    the same context as it is, one for the same key on the same transport
    included, and makes it call nobody. *)
Theorem setValue_does_not_reach_sibling
    (E : Env) (w : World) (c c' : nat) (ch' : Channel) (v : JsVal) :
  c' <> c ->
  channel_objs w !! c' = Some ch' ->
  let w' := snd (setValue E c v w) in
  channel_objs w' !! c' = Some ch' /\
  sub_calls c' (new_events w w') = [] /\
  listener_calls (new_events w w') = [].
Proof.
  intros Hne Hc' w'. subst w'.
  destruct (is_undefined v) eqn:Hu.
  { destruct v; try discriminate.
    rewrite setValue_undefined. simpl. unfold new_events. rewrite drop_all. auto. }
  assert (Hv : v <> VUndef) by (intros ->; discriminate).
  destruct (channel_objs w !! c) as [ch|] eqn:Hc.
  - destruct (setValue_trace E c ch v w Hc Hv) as (Htr & Hobjs & _).
    rewrite (new_events_app _ _ _ Htr), Hobjs.
    rewrite list_lookup_alter_ne by congruence.
    split; [exact Hc'|]. split; [|apply listener_calls_notify].
    clear Htr. induction (c_subscribers ch) as [|f l IH]; simpl; [reflexivity|].
    destruct (Nat.eqb_spec c c'); [congruence|exact IH].
  - unfold setValue, bind, get. simpl. rewrite Hc. simpl.
    unfold new_events. rewrite drop_all. auto.
Qed.

(** ** Remote updates *)

Lemma for_each_app {A} (f : A -> M unit) l1 l2 w :
  for_each f (l1 ++ l2) w = bind (for_each f l1) (fun _ => for_each f l2) w.
Proof.
  revert w. induction l1 as [|x l1 IH]; intros w; simpl; [reflexivity|].
  unfold bind. destruct (f x w) as [[[]|] w1]; [|reflexivity].
  rewrite IH. reflexivity.
Qed.

Lemma calls_of_filter c fn tr :
  calls_of c fn tr = calls_of c fn (List.filter (is_sub_of c) tr).
Proof.
  induction tr as [|e tr IH]; simpl; [reflexivity|].
  destruct e as [t l m|c' g v|t]; simpl; auto.
  destruct (Nat.eqb c' c) eqn:Hc; simpl; [rewrite Hc; simpl|]; rewrite IH; reflexivity.
Qed.

Lemma get_prop_object k msg v : get_prop k msg = v -> v <> VUndef ->
  truthy msg = true /\ typeof_object msg = true /\ is_null msg = false.
Proof. destruct msg; simpl; intros <- H; try contradiction; auto. Qed.

Section Remote.
Variable E : Env.
Variable c : nat.

Lemma untouched_other ch c' m : c' <> c -> frame (untouched c ch) (channel_listener E c' m).
Proof.
  intros Hne w Hc.
  destruct (channel_listener_cases E c' m w) as [Hrej|(ch' & Hc' & Hk & Hacc)].
  - rewrite Hrej. simpl. auto.
  - rewrite Hacc. simpl. rewrite list_lookup_alter_ne by exact Hne.
    split; [exact Hc|]. apply filter_notify_other. exact Hne.
Qed.

Lemma untouched_call_listener ch t l m :
  l <> LChan c -> frame (untouched c ch) (call_listener E t l m).
Proof.
  intros Hl. destruct l as [c'|f]; simpl.
  - apply (frame_bind (untouched c ch)).
    + apply (frame_emit (untouched c ch) (is_sub_of c) (untouched_objs c ch)). reflexivity.
    + intros _. apply untouched_other. congruence.
  - apply (frame_call_callback E (untouched c ch) (is_sub_of c) (untouched_objs c ch)).
    reflexivity.
Qed.

Lemma untouched_for_each ch t m ls :
  LChan c ∉ ls ->
  frame (untouched c ch) (for_each (fun fn => try_ (call_listener E t fn m)) ls).
Proof.
  induction ls as [|l ls IH]; intros Hn; simpl.
  - apply (frame_ret (untouched c ch)).
  - apply (frame_bind (untouched c ch)).
    + apply (frame_try (untouched c ch)), untouched_call_listener.
      intros ->. apply Hn. left.
    + intros _. apply IH. intros Hin. apply Hn. right. exact Hin.
Qed.

Lemma for_each_listeners_ret t m ls w :
  exists w', for_each (fun fn => try_ (call_listener E t fn m)) ls w = (Ret tt, w').
Proof.
  destruct (total_for_each (fun fn => try_ (call_listener E t fn m)) ls
              (fun x => total_try _) w) as [[] H].
  destruct (for_each _ ls w) as [r w'] eqn:Heq. simpl in H. subst r. eauto.
Qed.

(** What the listeners of a transport do to channel [c] when the listener
    of [c] is among them and accepts the message. *)
Lemma forward_accepts t tr ch msg w :
  transport_objs w !! t = Some tr ->
  NoDup (t_listeners tr) -> LChan c ∈ t_listeners tr ->
  channel_objs w !! c = Some ch ->
  get_prop "key" msg = VStr (c_key ch) ->
  get_prop "value" msg <> VUndef ->
  let w' := snd (forward E t msg w) in
  channel_objs w' !! c = Some (with_value (get_prop "value" msg) ch) /\
  List.filter (is_sub_of c) (trace w')
  = List.filter (is_sub_of c) (trace w)
    ++ map (fun fn => EvSub c fn (get_prop "value" msg)) (c_subscribers ch).
Proof.
  intros Ht Hnd Hin Hc Hk Hv w'. subst w'.
  destruct (get_prop_object "value" msg _ eq_refl Hv) as (_ & Ho & Hn).
  apply list_elem_of_split in Hin as (l1 & l2 & Hls). rewrite Hls in Hnd.
  apply NoDup_app in Hnd as (_ & Hdisj & Hnd2). apply NoDup_cons in Hnd2 as [Hn2 _].
  assert (Hn1 : LChan c ∉ l1) by (intros Hin; apply (Hdisj _ Hin); left).
  set (F := fun fn => try_ (call_listener E t fn msg)).
  destruct (for_each_listeners_ret t msg l1 w) as [w1 H1]. fold F in H1.
  pose proof (untouched_for_each ch t msg l1 Hn1 w Hc) as [Hc1 Hf1].
  fold F in Hc1, Hf1. rewrite H1 in Hc1, Hf1. simpl in Hc1, Hf1.
  set (w2 := set_trace ((trace w1 ++ [EvListener t (LChan c) msg])
                    ++ map (fun fn => EvSub c fn (get_prop "value" msg)) (c_subscribers ch))
         (set_localStorage (persist_ls E ch (get_prop "value" msg) (localStorage w1))
            (set_channel_objs
               (alter (with_value (get_prop "value" msg)) c (channel_objs w1)) w1))).
  assert (Hacc : F (LChan c) w1 = (Ret tt, w2)).
  { unfold F, try_, try_catch. simpl. unfold bind at 1. unfold emit, modify. simpl.
    rewrite (channel_listener_accept E c ch msg); simpl; auto.
    - rewrite Hk. apply strict_eq_str_refl.
    - apply is_undefined_false, Hv. }
  assert (Heq : forward E t msg w = for_each F l2 w2).
  { unfold forward. erewrite bind_ret_eq by reflexivity. rewrite Ht. simpl. rewrite Hls.
    fold F. rewrite for_each_app. erewrite bind_ret_eq by exact H1.
    change (for_each F (LChan c :: l2)) with (bind (F (LChan c)) (fun _ => for_each F l2)).
    erewrite bind_ret_eq by exact Hacc. reflexivity. }
  rewrite Heq.
  pose proof (untouched_for_each (with_value (get_prop "value" msg) ch) t msg l2 Hn2 w2) as H2.
  fold F in H2.
  assert (Hcw2 : channel_objs w2 !! c = Some (with_value (get_prop "value" msg) ch)).
  { unfold w2. simpl. rewrite list_lookup_alter_eq, Hc1. reflexivity. }
  destruct (H2 Hcw2) as [Hc2 Hf2]. split; [exact Hc2|].
  rewrite Hf2. unfold w2. simpl. rewrite !List.filter_app, Hf1. simpl.
  rewrite app_nil_r. f_equal.
  clear. induction (c_subscribers ch) as [|f l IH]; simpl; [reflexivity|].
  rewrite Nat.eqb_refl. f_equal. exact IH.
Qed.

Lemma deliver_foreign t msg id w :
  local_id E w id -> well_formed msg = true ->
  strict_eq_str (get_prop "tabId" msg) id = false ->
  exists T S,
    deliver E t msg w = forward E t msg (set_sessionStorage S (set_tabId T w)).
Proof.
  intros Hid Hwf Hne. destruct (getTabId_local E id w Hid) as (T & S & Hg & _).
  exists T, S. unfold deliver. rewrite Hwf. unfold bind. rewrite Hg, Hne. reflexivity.
Qed.
End Remote.

Lemma forward_adopted (E : Env) c t tr ch msg w :
  transport_objs w !! t = Some tr ->
  NoDup (t_listeners tr) -> LChan c ∈ t_listeners tr ->
  channel_objs w !! c = Some ch -> NoDup (c_subscribers ch) ->
  get_prop "key" msg = VStr (c_key ch) ->
  get_prop "value" msg <> VUndef ->
  forall w0, List.filter (is_sub_of c) (trace w0) = List.filter (is_sub_of c) (trace w) ->
  adopted c ch (get_prop "value" msg) w0 (snd (forward E t msg w)).
Proof.
  intros Ht Hnd Hin Hc Hnds Hk Hv w0 Hw0.
  destruct (forward_accepts E c t tr ch msg w Ht Hnd Hin Hc Hk Hv) as [Hobj Htr].
  split; [unfold getValue, get; simpl; rewrite Hobj; reflexivity|].
  split; intros fn Hfn;
    rewrite (calls_of_filter c fn (trace (snd _))), Htr, <- Hw0, calls_of_app,
      <- calls_of_filter.
  - rewrite calls_of_notify_once by assumption. reflexivity.
  - rewrite calls_of_notify_absent by assumption. apply app_nil_r.
Qed.

(** The two live paths of a transport whose listener set holds the
    listener of [c], for a well-formed envelope of another context. *)
Lemma live_paths_adopt (E : Env) (w : World)
    (t : nat) (tr : Transport) (c : nat) (ch : Channel) (msg : JsVal) (id : string) :
  sets_distinct w ->
  transport_objs w !! t = Some tr ->
  LChan c ∈ t_listeners tr ->
  channel_objs w !! c = Some ch ->
  get_prop "key" msg = VStr (c_key ch) ->
  get_prop "value" msg <> VUndef ->
  local_id E w id ->
  strict_eq_str (get_prop "tabId" msg) id = false ->
  (t_kind tr = TNative -> t_closed tr = false ->
   adopted c ch (get_prop "value" msg) w (snd (bc_message E t msg w))) /\
  (forall text, truthy_str text = true -> JSON_parse E text = Ret msg ->
     adopted c ch (get_prop "value" msg) w
       (snd (storage_handler E t (Some (slot_of (t_name tr))) (Some text) w))).
Proof.
  intros [Hsubs Hls] Ht Hin Hc Hk Hv Hid Hne.
  destruct (get_prop_object "value" msg _ eq_refl Hv) as (Htruthy & Ho & Hn).
  assert (Hwf : well_formed msg = true).
  { unfold well_formed. rewrite Htruthy, Ho, (is_undefined_false _ Hv). reflexivity. }
  destruct (deliver_foreign E t msg id w Hid Hwf Hne) as (T & S & Hd).
  assert (Had : adopted c ch (get_prop "value" msg) w (snd (deliver E t msg w))).
  { rewrite Hd. apply (forward_adopted E c t tr); auto.
    - apply (Hls t tr Ht).
    - apply (Hsubs c ch Hc). }
  split.
  - intros Hkind Hopen. unfold bc_message, bind, get. simpl.
    rewrite Ht, Hkind, Hopen. exact Had.
  - intros text Htext Hp. unfold storage_handler, bind, get. simpl.
    rewrite Ht, String.eqb_refl, Htext. simpl.
    unfold try_, try_catch, bind, lift. rewrite Hp.
    destruct (total_deliver E t msg w) as [[] Hret].
    destruct (deliver E t msg w) as [r w'] eqn:Hdel. simpl in Hret. subst r. exact Had.
Qed.

(** ** The constructor's value *)

Section Construct.
Variable E : Env.

Lemma getTransport_no_fallback n w :
  no_fallback E w ->
  exists t w1,
    getTransport E n w = (Ret t, w1) /\
    channel_objs w1 = channel_objs w /\
    localStorage w1 = localStorage w /\
    (forall tr, transport_objs w1 !! t = Some tr -> t_kind tr <> TFallback).
Proof.
  intros (Hnew & Hobjs).
  destruct (transports w !! n) as [t|] eqn:Ht.
  - rewrite (getTransport_found E n t w Ht). eexists _, _. split; [reflexivity|].
    simpl. split; [reflexivity|]. split; [reflexivity|]. apply Hobjs.
  - rewrite (getTransport_created E n w Ht). eexists _, _. split; [reflexivity|].
    simpl. split; [reflexivity|]. split; [reflexivity|].
    intros tr. rewrite lookup_app_r, Nat.sub_diag by lia. simpl.
    intros [= <-]. simpl. apply Hnew.
Qed.

Lemma restore_persisted_spec c key opts w :
  restore_persisted E c key opts w
  = (Ret tt,
     match restored E key opts (localStorage w) with
     | Some v => set_channel_objs (alter (with_value v) c (channel_objs w)) w
     | None => w
     end).
Proof.
  unfold restore_persisted, restored.
  destruct (persist opts && has_window E); [|reflexivity].
  unfold try_, try_catch, bind, localStorage_getItem, lift, update_channel, modify, ret.
  destruct (ls_get_throws E _); [reflexivity|].
  destruct (localStorage w !! _) as [text|]; [|reflexivity].
  destruct (truthy_str text && negb (String.eqb text "undefined") && trim_truthy text);
    [|reflexivity].
  destruct (default (JSON_parse E) (deserialize opts) text); reflexivity.
Qed.

(** Without a storage fallback nothing is replayed at subscribe time, and
    the value of a new channel is what the restore step adopted, or the
    initial value. *)
Lemma new_channel_value key init opts w :
  no_fallback E w ->
  exists w',
    new_CrossTabChannel E key init opts w = (Ret (length (channel_objs w)), w') /\
    getValue (length (channel_objs w)) w'
    = (Ret (default init (restored E key opts (localStorage w))), w').
Proof.
  intros Hnf.
  destruct (getTransport_no_fallback (channel_name_of opts) w Hnf)
    as (t & w1 & Hg & Hc1 & Hl1 & Hnft).
  unfold new_CrossTabChannel.
  erewrite bind_ret_eq by exact Hg.
  erewrite bind_ret_eq by reflexivity. rewrite Hc1.
  erewrite bind_ret_eq by apply restore_persisted_spec.
  match goal with
  | |- context [restored E key opts (localStorage ?x)] =>
      change (localStorage x) with (localStorage w1); rewrite Hl1
  end.
  match goal with
  | |- context [bind (transport_subscribe E t ?l) _ ?w2] =>
      destruct (transport_subscribe_native E t l w2) as (u & w3 & Hs & Hc3)
  end.
  { destruct (restored E key opts _); simpl; exact Hnft. }
  erewrite bind_ret_eq by exact Hs.
  unfold bind, update_channel, modify, ret. simpl.
  eexists. split; [reflexivity|].
  unfold getValue, get. simpl. rewrite Hc3.
  destruct (restored E key opts (localStorage w)); simpl;
    rewrite ?list_lookup_alter_eq, lookup_app_r, Nat.sub_diag by lia; reflexivity.
Qed.

Lemma nothing_restored key opts w :
  nothing_to_restore E key opts w -> restored E key opts (localStorage w) = None.
Proof.
  unfold restored.
  intros [H|[H|[H|[H|(text & Ht & H)]]]]; rewrite ?H; simpl.
  - reflexivity.
  - rewrite andb_false_r. reflexivity.
  - destruct (_ && _); reflexivity.
  - destruct (_ && _); [|reflexivity]. destruct (ls_get_throws E _); reflexivity.
  - destruct (_ && _); [|reflexivity]. destruct (ls_get_throws E _); [reflexivity|].
    rewrite Ht. destruct H as [->|[->|[H|H]]]; simpl; try reflexivity.
    + rewrite H, andb_false_r. reflexivity.
    + rewrite H. destruct (_ && _); reflexivity.
Qed.
End Construct.

Section FirstValue.
Variable E : Env.

(** [transport.subscribe] of a fallback transport for the listener of a
    channel that has no subscriber yet. *)
Lemma fallback_subscribe_value t tr c ch w :
  transport_objs w !! t = Some tr -> t_kind tr = TFallback ->
  channel_objs w !! c = Some ch -> c_subscribers ch = [] ->
  exists w',
    transport_subscribe E t (LChan c) w = (Ret (UDelete t (LChan c)), w') /\
    length (channel_objs w') = length (channel_objs w) /\
    c_value <$> channel_objs w' !! c
    = Some (default (c_value ch) (replayed E (t_name tr) (c_key ch) (localStorage w))).
Proof.
  intros Ht Hk Hc Hs.
  unfold transport_subscribe. unfold bind at 1. unfold get at 1. simpl. rewrite Ht, Hk.
  unfold bind at 1. unfold update_transport at 1, modify at 1.
  unfold replayed.
  set (w1 := set_transport_objs _ w).
  assert (Hc1 : channel_objs w1 !! c = Some ch) by exact Hc.
  destruct (has_window E); simpl.
  2:{ eexists. unfold bind, ret. simpl. split; [reflexivity|]. split; [reflexivity|].
      exact (f_equal (fmap c_value) Hc). }
  unfold bind at 1, try_, try_catch, bind at 1, localStorage_getItem.
  destruct (ls_get_throws E (slot_of (t_name tr))); simpl.
  { eexists. split; [reflexivity|]. split; [reflexivity|]. exact (f_equal (fmap c_value) Hc). }
  destruct (localStorage w !! slot_of (t_name tr)) as [text|]; simpl.
  2:{ eexists. split; [reflexivity|]. split; [reflexivity|]. exact (f_equal (fmap c_value) Hc). }
  destruct (truthy_str text); simpl.
  2:{ eexists. split; [reflexivity|]. split; [reflexivity|]. exact (f_equal (fmap c_value) Hc). }
  unfold bind at 1, lift.
  destruct (JSON_parse E text) as [msg|]; simpl.
  2:{ eexists. split; [reflexivity|]. split; [reflexivity|]. exact (f_equal (fmap c_value) Hc). }
  destruct (well_formed msg); simpl.
  2:{ eexists. split; [reflexivity|]. split; [reflexivity|]. exact (f_equal (fmap c_value) Hc). }
  unfold bind at 1, emit, modify. simpl.
  set (w2 := set_trace _ w1).
  assert (Hc2 : channel_objs w2 !! c = Some ch) by exact Hc.
  destruct (typeof_object msg && negb (is_null msg)
            && strict_eq_str (get_prop "key" msg) (c_key ch)
            && negb (is_undefined (get_prop "value" msg))) eqn:Hacc.
  - apply andb_prop in Hacc as [Hacc Hv]. apply andb_prop in Hacc as [Hacc Hkey].
    apply andb_prop in Hacc as [Ho Hn].
    rewrite (channel_listener_accept E c ch msg w2 Hc2 Ho).
    + simpl. eexists. split; [reflexivity|]. simpl.
      split; [rewrite length_alter; reflexivity|].
      rewrite list_lookup_alter_eq, Hc. reflexivity.
    + destruct (is_null msg); [discriminate|reflexivity].
    + exact Hkey.
    + destruct (is_undefined _); [discriminate|reflexivity].
  - rewrite (channel_listener_reject E c ch msg w2 Hc2 Hacc). simpl.
    eexists. split; [reflexivity|]. split; [reflexivity|].
    exact (f_equal (fmap c_value) Hc).
Qed.

(** The value a new channel starts with, whatever its transport. *)
Lemma new_channel_first_value key init opts w :
  registry_named (channel_name_of opts) w ->
  exists w',
    new_CrossTabChannel E key init opts w = (Ret (length (channel_objs w)), w') /\
    getValue (length (channel_objs w)) w' = (Ret (first_value E w key init opts), w').
Proof.
  intros Hnamed.
  set (name := channel_name_of opts) in *.
  set (c := length (channel_objs w)).
  assert (Hg : exists t w1,
            getTransport E name w = (Ret t, w1) /\
            channel_objs w1 = channel_objs w /\ localStorage w1 = localStorage w /\
            t_kind <$> transport_objs w1 !! t = joined_kind E w name /\
            (forall tr, transport_objs w1 !! t = Some tr -> t_name tr = name)).
  { unfold joined_kind. destruct (transports w !! name) as [t|] eqn:Ht.
    - rewrite (getTransport_found E name t w Ht). eexists _, _. split; [reflexivity|].
      simpl. repeat split. intros tr Htr. exact (Hnamed t tr Ht Htr).
    - rewrite (getTransport_created E name w Ht). eexists _, _. split; [reflexivity|].
      simpl. rewrite lookup_app_r, Nat.sub_diag by lia. simpl. repeat split.
      intros tr [= <-]. reflexivity. }
  destruct Hg as (t & w1 & Hg & Hc1 & Hl1 & Hkind & Hname).
  unfold new_CrossTabChannel. fold name.
  erewrite bind_ret_eq by exact Hg.
  erewrite bind_ret_eq by reflexivity. rewrite Hc1. fold c.
  erewrite bind_ret_eq by apply restore_persisted_spec.
  match goal with
  | |- context [restored E key opts (localStorage ?x)] =>
      change (localStorage x) with (localStorage w1); rewrite Hl1
  end.
  set (ch0 := mkChannel key init [] t ("xts-" +:+ key)
                (default (JSON_stringify E) (serialize opts))
                (default (JSON_parse E) (deserialize opts)) opts None).
  set (ch1 := with_value (default init (restored E key opts (localStorage w))) ch0).
  match goal with
  | |- context [bind (transport_subscribe E t ?l) _ ?x] => set (w2 := x)
  end.
  assert (Hch : channel_objs w2 !! c = Some ch1 /\ length (channel_objs w2) = S c /\
                localStorage w2 = localStorage w /\ transport_objs w2 = transport_objs w1).
  { unfold w2, ch1. destruct (restored E key opts (localStorage w)); simpl.
    - rewrite list_lookup_alter_eq, lookup_app_r, Nat.sub_diag by (unfold c; lia).
      rewrite length_alter, length_app. simpl. repeat split; [unfold c; lia|exact Hl1].
    - rewrite lookup_app_r, Nat.sub_diag by (unfold c; lia).
      rewrite length_app. simpl. repeat split; [unfold c; lia|exact Hl1]. }
  destruct Hch as (Hch & Hlen & Hl2 & Ho2).
  unfold first_value, replayed_in. fold name. rewrite <- Hkind, <- Ho2.
  destruct (transport_objs w2 !! t) as [tr|] eqn:Htr; simpl.
  - destruct (t_kind tr) eqn:Hk.
    + (* no-op *)
      assert (Hs : transport_subscribe E t (LChan c) w2 = (Ret UNoop, w2)).
      { unfold transport_subscribe, bind, get. simpl. rewrite Htr, Hk. reflexivity. }
      erewrite bind_ret_eq by exact Hs.
      unfold bind, update_channel, modify, ret. simpl. eexists. split; [reflexivity|].
      unfold getValue, get. simpl. rewrite list_lookup_alter_eq, Hch. reflexivity.
    + (* native *)
      assert (Hs : exists w3, transport_subscribe E t (LChan c) w2
                              = (Ret (UDelete t (LChan c)), w3) /\
                              channel_objs w3 = channel_objs w2).
      { unfold transport_subscribe, bind, get, update_transport, modify, ret. simpl.
        rewrite Htr, Hk. eexists. split; reflexivity. }
      destruct Hs as (w3 & Hs & Hc3).
      erewrite bind_ret_eq by exact Hs.
      unfold bind, update_channel, modify, ret. simpl. eexists. split; [reflexivity|].
      unfold getValue, get. simpl. rewrite list_lookup_alter_eq, Hc3, Hch. reflexivity.
    + (* fallback *)
      destruct (fallback_subscribe_value t tr c ch1 w2 Htr Hk Hch eq_refl)
        as (w3 & Hs & _ & Hv3).
      erewrite bind_ret_eq by exact Hs.
      unfold bind, update_channel, modify, ret. simpl. eexists. split; [reflexivity|].
      unfold getValue, get. simpl. rewrite list_lookup_alter_eq.
      rewrite Ho2 in Htr. rewrite (Hname tr Htr), Hl2 in Hv3.
      destruct (channel_objs w3 !! c) as [x|]; simpl in *; [|discriminate].
      injection Hv3 as ->. reflexivity.
  - assert (Hs : transport_subscribe E t (LChan c) w2 = (Ret UNoop, w2)).
    { unfold transport_subscribe, bind, get. simpl. rewrite Htr. reflexivity. }
    erewrite bind_ret_eq by exact Hs.
    unfold bind, update_channel, modify, ret. simpl. eexists. split; [reflexivity|].
    unfold getValue, get. simpl. rewrite list_lookup_alter_eq, Hch. reflexivity.
Qed.
End FirstValue.





(** X10: the constructor keeps [initialValue] when it has nothing to restore:
    [persist] is off, there is no window, reading the slot throws, the slot
    is missing, empty, the text [undefined] or white space only, or
    [deserialize] throws. *)
Theorem unusable_slot_keeps_initial_value
    (E : Env) (w : World) (key : string) (init : JsVal) (opts : Options) :
  no_fallback E w ->
  nothing_to_restore E key opts w ->
  exists b w',
    new_CrossTabChannel E key init opts w = (Ret b, w') /\
    getValue b w' = (Ret init, w').
Proof.
  intros Hnf Hnone.
  destruct (new_channel_value E key init opts w Hnf) as (w' & Hnew & Hval).
  eexists _, w'. split; [exact Hnew|].
  rewrite Hval, (nothing_restored E key opts w Hnone). reflexivity.
Qed.

(** ** Construction, destruction and the registry *)

#[global] Instance registry_kept_preorder : PreOrder registry_kept.
Proof.
  split.
  - intros w. repeat split.
  - intros w1 w2 w3 (A1 & B1 & C1 & D1) (A2 & B2 & C2 & D2).
    repeat split; congruence.
Qed.

Ltac plain_leaf fin :=
  let w := fresh "w" in
  intros w;
  unfold localStorage_getItem, localStorage_setItem, emit, update_channel, update_transport,
    alloc_channel, alloc_transport, modify; simpl;
  repeat match goal with |- context [if ?b then _ else _] => destruct b end;
  simpl; fin.

Section Lifecycle.
Variable E : Env.

Lemma kept_getTabId : frame registry_kept (getTabId E).
Proof.
  intros w. destruct (getTabId_spec E w) as (id & T & S & Hg & _). rewrite Hg.
  repeat split.
Qed.

Ltac kept_leaf :=
  first
    [ apply kept_getTabId
    | plain_leaf ltac:(repeat split; simpl;
                       rewrite ?destroyed_app, ?length_alter; simpl;
                       rewrite ?app_nil_r; reflexivity) ].

Lemma kept_restore c key opts : frame registry_kept (restore_persisted E c key opts).
Proof. frames kept_leaf. Qed.

Lemma kept_transport_subscribe t l : frame registry_kept (transport_subscribe E t l).
Proof. frames kept_leaf. Qed.

Lemma kept_call_unsubscribe u : frame registry_kept (call_unsubscribe u).
Proof. frames kept_leaf. Qed.

Lemma built_with_update c opts c' g :
  (forall x, c_options (g x) = c_options x) ->
  frame (keeps (built_with c opts)) (update_channel c' g).
Proof.
  intros Hg w (ch & Hc & Ho). unfold built_with. simpl.
  destruct (decide (c' = c)) as [->|Hne].
  - rewrite list_lookup_alter_eq, Hc. simpl. eexists. split; [reflexivity|].
    rewrite Hg. exact Ho.
  - rewrite list_lookup_alter_ne by exact Hne. eauto.
Qed.

Lemma built_with_getTabId c opts : frame (keeps (built_with c opts)) (getTabId E).
Proof.
  intros w H. destruct (getTabId_spec E w) as (id & T & S & Hg & _). rewrite Hg. exact H.
Qed.

Ltac built_leaf :=
  first
    [ apply built_with_getTabId
    | apply built_with_update; intros ?; reflexivity
    | plain_leaf ltac:(let H := fresh "H" in intros H; exact H) ].

Lemma built_with_restore c opts c' key o :
  frame (keeps (built_with c opts)) (restore_persisted E c' key o).
Proof. frames built_leaf. Qed.

Lemma built_with_transport_subscribe c opts t l :
  frame (keeps (built_with c opts)) (transport_subscribe E t l).
Proof. frames built_leaf. Qed.

Lemma transport_subscribe_result t l w :
  exists u w', transport_subscribe E t l w = (Ret u, w') /\ (u = UNoop \/ u = UDelete t l).
Proof.
  destruct (total_transport_subscribe E t l w) as [u Hu].
  destruct (transport_subscribe E t l w) as [r w'] eqn:Heq. simpl in Hu. subst r.
  exists u, w'. split; [reflexivity|].
  revert Heq. unfold transport_subscribe. unfold bind at 1. unfold get at 1. simpl.
  destruct (transport_objs w !! t) as [tr|]; simpl; [|intros [= <- _]; auto].
  destruct (t_kind tr); simpl.
  - intros [= <- _]. auto.
  - unfold bind, update_transport, modify, ret. simpl. intros [= <- _]. auto.
  - unfold bind at 1. unfold update_transport at 1, modify at 1. unfold bind at 1.
    match goal with |- context [if has_window E then ?m else _] => set (rd := m) end.
    destruct ((if has_window E then rd else ret tt) _) as [[[]|] w2]; simpl;
      [intros [= <- _]; auto|discriminate].
Qed.

(** What the constructor leaves, as far as [destroy] is concerned. *)
Lemma new_channel_shape key init opts w :
  exists t wg w1 ch1 u,
    getTransport E (channel_name_of opts) w = (Ret t, wg) /\
    new_CrossTabChannel E key init opts w = (Ret (length (channel_objs w)), w1) /\
    registry_kept wg w1 /\
    channel_objs w1 !! length (channel_objs w) = Some ch1 /\
    c_options ch1 = opts /\
    c_unsubscribe ch1 = Some u /\
    (u = UNoop \/ u = UDelete t (LChan (length (channel_objs w)))).
Proof.
  destruct (total_getTransport E (channel_name_of opts) w) as [t Ht].
  destruct (getTransport E (channel_name_of opts) w) as [r wg] eqn:Hg. simpl in Ht. subst r.
  assert (Hcg : channel_objs wg = channel_objs w).
  { destruct (transports w !! channel_name_of opts) as [t'|] eqn:Hl.
    - rewrite (getTransport_found E _ t' w Hl) in Hg. injection Hg as _ <-. reflexivity.
    - rewrite (getTransport_created E _ w Hl) in Hg. injection Hg as _ <-. reflexivity. }
  set (c := length (channel_objs w)).
  set (ch0 := mkChannel key init [] t ("xts-" +:+ key)
                (default (JSON_stringify E) (serialize opts))
                (default (JSON_parse E) (deserialize opts)) opts None).
  set (w0 := set_channel_objs (channel_objs w ++ [ch0]) wg).
  assert (Hb0 : built_with c opts w0).
  { exists ch0. split; [|reflexivity]. unfold w0, c. simpl.
    rewrite lookup_app_r by lia. rewrite Nat.sub_diag. reflexivity. }
  pose proof (kept_restore c key opts w0) as Hk1.
  pose proof (built_with_restore c opts c key opts w0 Hb0) as Hb1.
  rewrite restore_persisted_spec in Hk1, Hb1.
  set (w2 := match restored E key opts (localStorage w0) with
             | Some v => set_channel_objs (alter (with_value v) c (channel_objs w0)) w0
             | None => w0
             end) in *.
  change (snd (Ret tt, w2)) with w2 in Hk1, Hb1.
  destruct (transport_subscribe_result t (LChan c) w2) as (u & w3 & Hs & Hu).
  pose proof (kept_transport_subscribe t (LChan c) w2) as Hk2.
  pose proof (built_with_transport_subscribe c opts t (LChan c) w2 Hb1) as Hb2.
  rewrite Hs in Hk2, Hb2. simpl in Hk2, Hb2. destruct Hb2 as (ch3 & Hc3 & Ho3).
  exists t, wg, (set_channel_objs (alter (with_unsubscribe (Some u)) c (channel_objs w3)) w3),
    (with_unsubscribe (Some u) ch3), u.
  split; [reflexivity|]. split.
  { unfold new_CrossTabChannel. erewrite bind_ret_eq by exact Hg.
    erewrite bind_ret_eq by reflexivity. rewrite Hcg. fold c ch0 w0.
    erewrite bind_ret_eq by apply restore_persisted_spec. fold w2.
    erewrite bind_ret_eq by exact Hs. reflexivity. }
  split.
  { transitivity w0; [repeat split|]. transitivity w2; [exact Hk1|].
    transitivity w3; [exact Hk2|repeat split]. }
  split; [simpl; rewrite list_lookup_alter_eq, Hc3; reflexivity|].
  split; [exact Ho3|]. split; [reflexivity|exact Hu].
Qed.

Lemma transport_destroy_clears t tr w :
  transport_objs w !! t = Some tr ->
  exists w',
    transport_destroy E t w = (Ret tt, w') /\
    channel_objs w' = channel_objs w /\
    transports w' = transports w /\
    transportRefs w' = transportRefs w /\
    trace w' = trace w ++ [EvDestroy t] /\
    exists tr', transport_objs w' !! t = Some tr' /\
                (t_kind tr' = TNoop \/ t_listeners tr' = []).
Proof.
  intros Ht. unfold transport_destroy. unfold bind at 1. unfold get at 1. simpl. rewrite Ht.
  unfold bind at 1. unfold emit, modify. simpl.
  destruct (t_kind tr) eqn:Hk; simpl.
  - eexists. split; [reflexivity|]. simpl. repeat split. eauto.
  - unfold bind, update_transport, modify. simpl.
    eexists. split; [reflexivity|]. simpl. repeat split.
    rewrite !list_lookup_alter_eq, Ht. simpl. eauto.
  - unfold bind, update_transport, modify, ret. simpl.
    destruct (has_window E); simpl; (eexists; split; [reflexivity|]); simpl; repeat split;
      rewrite !list_lookup_alter_eq, Ht; simpl; eauto.
Qed.

(** [destroy] up to its call of [releaseTransport]. *)
Lemma destroy_unfold c ch w :
  channel_objs w !! c = Some ch ->
  exists objs,
    length objs = length (transport_objs w) /\
    destroy E c w
    = bind (releaseTransport E (channel_name_of (c_options ch)))
        (fun _ => update_channel c (with_subscribers []))
        (set_transport_objs objs w).
Proof.
  intros Hc. unfold destroy. unfold bind at 1. unfold get at 1. simpl. rewrite Hc.
  destruct (c_unsubscribe ch) as [[|t l]|]; simpl.
  - exists (transport_objs w). split; [reflexivity|]. destruct w; reflexivity.
  - eexists. split; [|reflexivity]. apply length_alter.
  - exists (transport_objs w). split; [reflexivity|]. destruct w; reflexivity.
Qed.
End Lifecycle.

(** X11: constructing a channel and destroying it leaves the transport registry
    as it was: a transport that was registered keeps its count and is not
    destroyed, and one that the constructor had to create is destroyed and
    forgotten. *)
Theorem construct_then_destroy_restores_registry
    (E : Env) (w : World) (key : string) (init : JsVal) (opts : Options) :
  registry_sound (channel_name_of opts) w ->
  exists c w1,
    new_CrossTabChannel E key init opts w = (Ret c, w1) /\
    let w2 := snd (destroy E c w1) in
    fst (destroy E c w1) = Ret tt /\
    transports w2 = transports w /\
    transportRefs w2 = transportRefs w /\
    (is_Some (transports w !! channel_name_of opts) ->
     destroyed (trace w2) = destroyed (trace w)) /\
    (transports w !! channel_name_of opts = None ->
     destroyed (trace w2) = destroyed (trace w) ++ [length (transport_objs w)]).
Proof.
  intros Hsound. set (n := channel_name_of opts) in *.
  destruct (new_channel_shape E key init opts w)
    as (t & wg & w1 & ch1 & u & Hg & Hnew & (Kt & Kr & Kd & Kl) & Hc1 & Ho1 & _).
  fold n in Hg. exists (length (channel_objs w)), w1. split; [exact Hnew|]. cbv zeta.
  destruct (destroy_unfold E _ ch1 w1 Hc1) as (objs & Hlen & Hd). rewrite Hd, Ho1. fold n.
  set (w1' := set_transport_objs objs w1).
  destruct Hsound as [[Ht Hr]|(t0 & k & Ht & Hobj & Hr & Hk)].
  - rewrite (getTransport_created E n w Ht) in Hg. injection Hg as <- <-.
    simpl in Kt, Kr, Kd, Kl. rewrite insert_insert_eq in Kr.
    assert (Hex : is_Some (transport_objs w1' !! length (transport_objs w))).
    { apply lookup_lt_is_Some. unfold w1'. simpl. rewrite Hlen, Kl, length_app. simpl. lia. }
    destruct Hex as [tr Htr].
    destruct (releaseTransport_last E n (length (transport_objs w)) tr w1')
      as (objs' & hs & Hrel & _).
    { unfold w1'. simpl. rewrite Kr. apply lookup_insert_eq. }
    { unfold w1'. simpl. rewrite Kt. apply lookup_insert_eq. }
    { exact Htr. }
    erewrite bind_ret_eq by exact Hrel. simpl.
    rewrite Kt, Kr, !delete_insert_id by assumption.
    rewrite destroyed_app, Kd. simpl.
    split; [reflexivity|]. split; [reflexivity|]. split; [reflexivity|].
    split; [intros [x Hx]; rewrite Ht in Hx; discriminate|reflexivity].
  - rewrite (getTransport_found E n t0 w Ht) in Hg. injection Hg as <- <-.
    simpl in Kt, Kr, Kd, Kl. rewrite Hr in Kr. simpl in Kr.
    assert (Hrel : releaseTransport E n w1'
                   = (Ret tt, set_transportRefs (<[n := Fin (k + 1 - 1)]> (transportRefs w1')) w1')).
    { apply releaseTransport_decrement; [|lia].
      unfold w1'. simpl. rewrite Kr. apply lookup_insert_eq. }
    erewrite bind_ret_eq by exact Hrel. simpl.
    rewrite Kt, Kr, insert_insert_eq, Kd.
    replace (k + 1 - 1) with k by lia. rewrite insert_id by exact Hr.
    split; [reflexivity|]. split; [reflexivity|]. split; [reflexivity|].
    split; [reflexivity|]. rewrite Ht. discriminate.
Qed.

(** X12: every call of [destroy()] releases one reference of the channel's
    transport, whether or not the channel was destroyed before: the object
    keeps its options and its unsubscribe function, so that the statement
    applies again to the world it leaves.  On a count above one the count
    goes down and the transport stays; on a count of one the transport is
    destroyed and forgotten, and its listener set is emptied (that of a
    no-op transport is never filled). *)
Theorem destroy_releases_one_reference
    (E : Env) (w : World) (c : nat) (ch : Channel) (t : nat) (k : Z) :
  channel_objs w !! c = Some ch ->
  let n := channel_name_of (c_options ch) in
  transports w !! n = Some t ->
  is_Some (transport_objs w !! t) ->
  transportRefs w !! n = Some (Fin k) ->
  0 < k ->
  let w' := snd (destroy E c w) in
  (exists ch', channel_objs w' !! c = Some ch' /\
     c_options ch' = c_options ch /\ c_unsubscribe ch' = c_unsubscribe ch /\
     c_subscribers ch' = []) /\
  (1 < k ->
   transportRefs w' !! n = Some (Fin (k - 1)) /\
   transports w' !! n = Some t /\
   is_Some (transport_objs w' !! t) /\
   destroyed (trace w') = destroyed (trace w)) /\
  (k = 1 ->
   transportRefs w' !! n = None /\
   transports w' !! n = None /\
   destroyed (trace w') = destroyed (trace w) ++ [t] /\
   exists tr', transport_objs w' !! t = Some tr' /\
               (t_kind tr' = TNoop \/ t_listeners tr' = [])).
Proof.
  intros Hc n Ht Hobj Hr Hk w'. subst w'.
  destruct (destroy_unfold E c ch w Hc) as (objs & Hlen & Hd). rewrite Hd. fold n.
  set (w1 := set_transport_objs objs w).
  assert (Hex : is_Some (transport_objs w1 !! t)).
  { apply lookup_lt_is_Some. unfold w1. simpl. rewrite Hlen. apply lookup_lt_is_Some, Hobj. }
  destruct (decide (k = 1)) as [->|Hk1].
  - destruct Hex as [tr Htr].
    destruct (transport_destroy_clears E t tr w1 Htr)
      as (w2 & Hdes & Hc2 & Ht2 & Hr2 & Htr2 & tr' & Hobj2 & Hclear).
    assert (Hrel : releaseTransport E n w1
              = (Ret tt, set_transportRefs (delete n (transportRefs w2))
                           (set_transports (delete n (transports w2)) w2))).
    { unfold releaseTransport. unfold bind at 1. unfold get at 1. simpl. rewrite Hr. simpl.
      unfold bind at 1. unfold get at 1. simpl. rewrite Ht.
      unfold bind at 1. rewrite Hdes. reflexivity. }
    erewrite bind_ret_eq by exact Hrel. simpl.
    rewrite Hc2, Ht2, Hr2, Htr2, list_lookup_alter_eq. unfold w1 at 1. simpl. rewrite Hc. simpl.
    split; [eexists; split; [reflexivity|]; simpl; auto|].
    split; [lia|]. intros _. rewrite !lookup_delete_eq, destroyed_app. simpl.
    split; [reflexivity|]. split; [reflexivity|]. split; [reflexivity|].
    exists tr'. split; [exact Hobj2|exact Hclear].
  - assert (Hrel : releaseTransport E n w1
              = (Ret tt, set_transportRefs (<[n := Fin (k - 1)]> (transportRefs w1)) w1)).
    { apply releaseTransport_decrement; [exact Hr|lia]. }
    erewrite bind_ret_eq by exact Hrel. simpl.
    rewrite list_lookup_alter_eq, Hc. simpl.
    split; [eexists; split; [reflexivity|]; simpl; auto|].
    split; [|intros ->; lia]. intros _. rewrite lookup_insert_eq.
    split; [reflexivity|]. split; [exact Ht|]. split; [exact Hex|reflexivity].
Qed.

(** ** The hook's channel registry *)

Lemma in_core_eq {A} (m : M A) (r : Outcome A) (w : World) (h : HookWorld) :
  m (core h) = (r, w) -> in_core m h = (r, set_core w h).
Proof. intros H. unfold in_core. rewrite H. reflexivity. Qed.

Lemma hbind_ret_eq {A B} (m : HM A) (k : A -> HM B) a h h' :
  m h = (Ret a, h') -> hbind m k h = k a h'.
Proof. intros H. unfold hbind. rewrite H. reflexivity. Qed.

Lemma set_core_id h : set_core (core h) h = h.
Proof. destruct h; reflexivity. Qed.

Section HookRegistry.
Variable E : Env.

Lemma getChannel_found key init o c h :
  channels h !! channelKey_of (channelName_of o) key = Some c ->
  getChannel E key init o h
  = (Ret c, set_refs (<[channelKey_of (channelName_of o) key
                        := num_succ (refs h !! channelKey_of (channelName_of o) key)]> (refs h))
              h).
Proof. intros H. unfold getChannel, hbind, hget, hmodify, hret. rewrite H. reflexivity. Qed.

Lemma getChannel_created key init o h :
  channels h !! channelKey_of (channelName_of o) key = None ->
  exists w1,
    new_CrossTabChannel E key init (default empty_options o) (core h)
    = (Ret (length (channel_objs (core h))), w1) /\
    getChannel E key init o h
    = (Ret (length (channel_objs (core h))),
       set_refs (<[channelKey_of (channelName_of o) key := Fin 1]>
                   (<[channelKey_of (channelName_of o) key := Fin 0]> (refs h)))
         (set_channels (<[channelKey_of (channelName_of o) key
                          := length (channel_objs (core h))]> (channels h))
            (set_core w1 h))).
Proof.
  intros H.
  destruct (new_channel_shape E key init (default empty_options o) (core h))
    as (t & wg & w1 & ch1 & u & _ & Hnew & _).
  exists w1. split; [exact Hnew|].
  unfold getChannel. unfold hbind at 1. unfold hget at 1. rewrite H.
  unfold hbind at 1. unfold hbind at 1. rewrite (in_core_eq _ _ _ _ Hnew).
  unfold hbind, hget, hmodify, hret. simpl. rewrite lookup_insert_eq. reflexivity.
Qed.

Lemma releaseChannel_decrement key name k h :
  refs h !! channelKey_of name key = Some (Fin k) -> 1 < k ->
  releaseChannel E key name h
  = (Ret tt, set_refs (<[channelKey_of name key := Fin (k - 1)]> (refs h)) h).
Proof.
  intros Hr Hk. unfold releaseChannel, hbind, hget, hmodify. rewrite Hr. simpl.
  destruct (Z.leb_spec k 1); [lia|]. reflexivity.
Qed.

Lemma destroy_ret c w : exists w', destroy E c w = (Ret tt, w').
Proof.
  destruct (total_destroy E c w) as [[] H].
  destruct (destroy E c w) as [r w'] eqn:Heq. simpl in H. subst r. eauto.
Qed.

Lemma releaseChannel_last key name c h :
  refs h !! channelKey_of name key = Some (Fin 1) ->
  channels h !! channelKey_of name key = Some c ->
  releaseChannel E key name h
  = (Ret tt,
     set_refs (delete (channelKey_of name key) (refs h))
       (set_channels (delete (channelKey_of name key) (channels h))
          (set_core (snd (destroy E c (core h))) h))).
Proof.
  intros Hr Hc. unfold releaseChannel. unfold hbind at 1. unfold hget at 1. rewrite Hr. simpl.
  unfold hbind at 1. unfold hget at 1. rewrite Hc.
  destruct (destroy_ret c (core h)) as [w' Hd].
  unfold hbind at 1. rewrite (in_core_eq _ _ _ _ Hd), Hd. reflexivity.
Qed.

Lemma hook_held_app ck ops1 ops2 :
  hook_held ck (ops1 ++ ops2) = hook_held ck ops1 + hook_held ck ops2.
Proof. induction ops1 as [|o ops1 IH]; simpl; lia. Qed.

Lemma hook_paired_snoc ops o : hook_paired (ops ++ [o]) -> hook_paired ops.
Proof.
  intros H i ck. destruct (le_lt_dec i (length ops)) as [Hle|Hgt].
  - specialize (H i ck). rewrite take_app_le in H by exact Hle. exact H.
  - rewrite take_ge by lia. specialize (H (length ops) ck).
    rewrite take_app_le, take_ge in H by lia. exact H.
Qed.

Lemma hook_paired_held ops ck : hook_paired ops -> 0 <= hook_held ck ops.
Proof. intros H. specialize (H (length ops) ck). rewrite take_ge in H by lia. exact H. Qed.

Lemma snd_hbind_ret {A} (m : HM A) h : snd (hbind m (fun _ => hret tt) h) = snd (m h).
Proof. unfold hbind, hret. destruct (m h) as [[a|] h1]; reflexivity. Qed.

Lemma hook_tracks_run ops h0 :
  channels h0 = ∅ -> refs h0 = ∅ -> hook_paired ops ->
  hook_tracks ops (hook_run E ops h0).
Proof.
  intros Hc0 Hr0. induction ops as [|o ops IH] using rev_ind; intros Hp.
  - intros ck. simpl. split; [lia|]. intros _. rewrite Hc0, Hr0. split; apply lookup_empty.
  - specialize (IH (hook_paired_snoc _ _ Hp)).
    unfold hook_run in *. rewrite fold_left_app. simpl.
    set (h := fold_left (fun h o => snd (hook_perform E o h)) ops h0) in *.
    intros ck. rewrite hook_held_app. simpl. rewrite Z.add_0_r.
    pose proof (hook_paired_held ops ck (hook_paired_snoc _ _ Hp)) as Hk.
    destruct (IH ck) as [IHpos IHzero].
    destruct o as [key init o|key name]; simpl.
    + rewrite snd_hbind_ret.
      set (m := channelKey_of (channelName_of o) key) in *.
      pose proof (hook_paired_held ops m (hook_paired_snoc _ _ Hp)) as Hkm.
      destruct (IH m) as [IHmpos IHmzero].
      destruct (decide (hook_held m ops = 0)) as [Hz|Hnz].
      * destruct (IHmzero Hz) as [Hrm Hcm].
        destruct (getChannel_created key init o h Hcm) as (w1 & _ & Hget). fold m in Hget.
        rewrite Hget. simpl.
        destruct (String.eqb_spec m ck) as [<-|Hne].
        -- split; [|lia]. intros _. rewrite !lookup_insert_eq, Hz. split; [reflexivity|eauto].
        -- rewrite Z.add_0_r. rewrite !lookup_insert_ne by exact Hne.
           split; [exact IHpos|exact IHzero].
      * destruct (IHmpos ltac:(lia)) as (Hrm & c & Hcm).
        rewrite (getChannel_found key init o c h Hcm). fold m. simpl. rewrite Hrm. simpl.
        destruct (String.eqb_spec m ck) as [<-|Hne].
        -- split; [|lia]. intros _. rewrite lookup_insert_eq.
           split; [f_equal; f_equal; lia|eauto].
        -- rewrite Z.add_0_r. rewrite !lookup_insert_ne by exact Hne.
           split; [exact IHpos|exact IHzero].
    + set (m := channelKey_of name key) in *.
      pose proof (hook_paired_held ops m (hook_paired_snoc _ _ Hp)) as Hkm.
      pose proof (hook_paired_held (ops ++ [HRelease key name]) m Hp) as Hkm'.
      rewrite hook_held_app in Hkm'. simpl in Hkm'. fold m in Hkm'.
      rewrite String.eqb_refl in Hkm'.
      destruct (IH m) as [IHmpos _].
      destruct (IHmpos ltac:(lia)) as (Hrm & c & Hcm).
      destruct (decide (hook_held m ops = 1)) as [H1|Hn1].
      * rewrite H1 in Hrm. rewrite (releaseChannel_last key name c h Hrm Hcm). fold m. simpl.
        destruct (String.eqb_spec m ck) as [<-|Hne].
        -- split; [lia|]. intros _. rewrite !lookup_delete_eq. auto.
        -- rewrite Z.add_0_r. rewrite !lookup_delete_ne by exact Hne.
           split; [exact IHpos|exact IHzero].
      * rewrite (releaseChannel_decrement key name (hook_held m ops) h Hrm ltac:(lia)).
        fold m. simpl.
        destruct (String.eqb_spec m ck) as [<-|Hne].
        -- split; [|lia]. intros _. rewrite lookup_insert_eq.
           split; [f_equal; f_equal; lia|eauto].
        -- rewrite Z.add_0_r. rewrite !lookup_insert_ne by exact Hne.
           split; [exact IHpos|exact IHzero].
Qed.
End HookRegistry.

(** X17: in a hook module whose registry starts empty, after any history of
    [getChannel] and [releaseChannel] calls in which every release releases
    an earlier acquire of the same composite key, with [k] the number of
    acquires of a composite key not yet released: the stored count is [k]
    and a channel is registered exactly when [k > 0]; a further
    [getChannel] returns the registered channel, constructs nothing and
    makes the count [k + 1]; a release at [k > 1] makes the count [k - 1]
    and leaves the core alone; a release at [k = 1] runs [destroy()] on the
    channel and removes the key from both maps. *)
Theorem hook_channels_counted_by_holders
    (E : Env) (ops : list HookOp) (h0 : HookWorld) (key : string) (name : option string) :
  channels h0 = ∅ -> refs h0 = ∅ -> hook_paired ops ->
  let h := hook_run E ops h0 in
  let ck := channelKey_of name key in
  let k := hook_held ck ops in
  (0 < k -> refs h !! ck = Some (Fin k) /\ is_Some (channels h !! ck)) /\
  (k = 0 -> refs h !! ck = None /\ channels h !! ck = None) /\
  (0 < k ->
   forall init o, channelName_of o = name ->
     exists c, channels h !! ck = Some c /\
       getChannel E key init o h = (Ret c, set_refs (<[ck := Fin (k + 1)]> (refs h)) h)) /\
  (1 < k ->
   releaseChannel E key name h = (Ret tt, set_refs (<[ck := Fin (k - 1)]> (refs h)) h)) /\
  (k = 1 ->
   exists c, channels h !! ck = Some c /\
     let h' := snd (releaseChannel E key name h) in
     core h' = snd (destroy E c (core h)) /\
     refs h' !! ck = None /\ channels h' !! ck = None).
Proof.
  intros Hc0 Hr0 Hp h ck k.
  pose proof (hook_tracks_run E ops h0 Hc0 Hr0 Hp ck) as [Hpos Hzero].
  fold h in Hpos, Hzero. fold k in Hpos, Hzero.
  split; [exact Hpos|]. split; [exact Hzero|]. split; [|split].
  - intros Hk init o <-. destruct (Hpos Hk) as (Hr & c & Hc).
    exists c. split; [exact Hc|]. fold ck in Hc |- *.
    rewrite (getChannel_found E key init o c h Hc). fold ck. rewrite Hr. reflexivity.
  - intros Hk. destruct (Hpos ltac:(lia)) as (Hr & _).
    apply releaseChannel_decrement; assumption.
  - intros Hk. destruct (Hpos ltac:(lia)) as (Hr & c & Hc). rewrite Hk in Hr.
    exists c. split; [exact Hc|]. cbv zeta.
    rewrite (releaseChannel_last E key name c h Hr Hc). fold ck. simpl.
    rewrite !lookup_delete_eq. auto.
Qed.

(** X18: [getChannel] tells channels apart by the text
    [channelName + "-" + key] alone: a second call whose channel name and
    key give the same text returns the channel object of the first, makes
    no new one and leaves the core untouched, whatever its key, initial
    value and other options are. *)
Theorem getChannel_shares_by_composite_key
    (E : Env) (h : HookWorld)
    (key1 : string) (init1 : JsVal) (o1 : option Options)
    (key2 : string) (init2 : JsVal) (o2 : option Options) :
  channelKey_of (channelName_of o1) key1 = channelKey_of (channelName_of o2) key2 ->
  exists c h1 h2,
    getChannel E key1 init1 o1 h = (Ret c, h1) /\
    getChannel E key2 init2 o2 h1 = (Ret c, h2) /\
    core h2 = core h1 /\
    channels h2 = channels h1.
Proof.
  intros Hck. set (ck := channelKey_of (channelName_of o1) key1) in *.
  assert (H1 : exists c h1, getChannel E key1 init1 o1 h = (Ret c, h1) /\
                            channels h1 !! ck = Some c).
  { destruct (channels h !! ck) as [c|] eqn:Hc.
    - rewrite (getChannel_found E key1 init1 o1 c h Hc). eexists _, _.
      split; [reflexivity|exact Hc].
    - destruct (getChannel_created E key1 init1 o1 h Hc) as (w1 & _ & Hget).
      rewrite Hget. eexists _, _. split; [reflexivity|]. simpl. apply lookup_insert_eq. }
  destruct H1 as (c & h1 & Hg1 & Hc1). exists c, h1. rewrite Hck in Hc1.
  rewrite (getChannel_found E key2 init2 o2 c h1 Hc1).
  eexists. split; [exact Hg1|]. split; [reflexivity|]. split; reflexivity.
Qed.

(** ** The hook's effects *)

Section HookEffects.
Variable E : Env.

(** What [getChannel] leaves, in both of its cases. *)
Lemma getChannel_sound key init o h :
  hook_sound (channelKey_of (channelName_of o) key) h ->
  exists c ch hg,
    getChannel E key init o h = (Ret c, hg) /\
    channel_objs (core hg) !! c = Some ch /\
    hook_refs hg = hook_refs h /\
    setState_calls hg = setState_calls h /\
    channels hg = <[channelKey_of (channelName_of o) key := c]> (channels h) /\
    ((channels h !! channelKey_of (channelName_of o) key = None /\
      refs hg = <[channelKey_of (channelName_of o) key := Fin 1]> (refs h)) \/
     (exists k, channels h !! channelKey_of (channelName_of o) key = Some c /\
        refs h !! channelKey_of (channelName_of o) key = Some (Fin k) /\ 0 < k /\
        refs hg = <[channelKey_of (channelName_of o) key := Fin (k + 1)]> (refs h) /\
        core hg = core h)).
Proof.
  set (ck := channelKey_of (channelName_of o) key).
  intros [[Hc Hr]|(c & k & Hc & [ch Hobj] & Hr & Hk)].
  - destruct (new_channel_shape E key init (default empty_options o) (core h))
      as (t & wg & w1 & ch1 & u & _ & Hnew & _ & Hc1 & _).
    destruct (getChannel_created E key init o h Hc) as (w1' & Hnew' & Hget). fold ck in Hget.
    rewrite Hnew in Hnew'. injection Hnew' as <-.
    eexists _, ch1, _. split; [exact Hget|]. simpl.
    split; [exact Hc1|]. split; [reflexivity|]. split; [reflexivity|].
    split; [reflexivity|]. left. split; [exact Hc|]. apply insert_insert_eq.
  - rewrite (getChannel_found E key init o c h Hc). fold ck. rewrite Hr. simpl.
    eexists c, ch, _. split; [reflexivity|]. simpl.
    split; [exact Hobj|]. split; [reflexivity|]. split; [reflexivity|].
    split; [symmetry; apply insert_id, Hc|].
    right. exists k. auto.
Qed.

Lemma effect_mount_spec s r key init fn c ch hg h :
  has_window E = true ->
  hook_refs h !! s = Some r ->
  getChannel E key init (optionsRef r) h = (Ret c, hg) ->
  channel_objs (core hg) !! c = Some ch ->
  effect_mount E s key init fn h
  = (Ret (Some (mkCleanup s key c fn)),
     set_core
       (set_trace (trace (core hg) ++ [EvSub c fn (c_value ch)])
          (set_channel_objs
             (alter (fun x => with_subscribers (set_add fn (c_subscribers x)) x) c
                (channel_objs (core hg)))
             (core hg)))
       (set_setState_calls (setState_calls hg ++ [(s, c_value ch)])
          (set_hook_refs (alter (with_channelRef (Some c)) s (hook_refs hg)) hg))).
Proof.
  intros Hw Hs Hg Hc. unfold effect_mount. rewrite Hw. simpl.
  erewrite hbind_ret_eq by reflexivity. rewrite Hs.
  erewrite hbind_ret_eq by exact Hg.
  erewrite hbind_ret_eq by reflexivity.
  erewrite hbind_ret_eq.
  2:{ apply in_core_eq. unfold getValue, get. simpl. rewrite Hc. reflexivity. }
  erewrite hbind_ret_eq by reflexivity.
  erewrite hbind_ret_eq.
  2:{ apply in_core_eq. simpl. apply (subscribe_spec E c ch fn), Hc. }
  reflexivity.
Qed.

Lemma effect_cleanup_spec k h :
  effect_cleanup E k h
  = hbind (releaseChannel E (cl_key k)
             (channelName_of (from_option optionsRef None (hook_refs h !! cl_site k))))
      (fun _ => update_refs (cl_site k) (with_channelRef None))
      (set_core (snd (unsubscribe (cl_channel k) (cl_fn k) (core h))) h).
Proof. reflexivity. Qed.
End HookEffects.

(** X19: the second effect of a call site takes the channel of its composite key
    from the registry, stores it in [channelRef], calls [setState] with the
    channel's current value and subscribes its callback, which is called
    with the same value.  When the channel is already registered, that value
    is the channel's and not the hook's [initialValue], and nothing else is
    called. *)
Theorem mount_adopts_channel_value
    (E : Env) (h : HookWorld) (s : nat) (r : HookRefs)
    (key : string) (init : JsVal) (fn : nat) :
  has_window E = true ->
  hook_refs h !! s = Some r ->
  let ck := channelKey_of (channelName_of (optionsRef r)) key in
  hook_sound ck h ->
  exists c v h1,
    effect_mount E s key init fn h = (Ret (Some (mkCleanup s key c fn)), h1) /\
    channels h1 !! ck = Some c /\
    from_option channelRef None (hook_refs h1 !! s) = Some c /\
    fst (getValue c (core h1)) = Ret v /\
    setState_calls h1 = setState_calls h ++ [(s, v)] /\
    last (trace (core h1)) = Some (EvSub c fn v) /\
    fn ∈ subscribers_of c (core h1) /\
    (forall c0 ch0,
       channels h !! ck = Some c0 -> channel_objs (core h) !! c0 = Some ch0 ->
       c = c0 /\ v = c_value ch0 /\
       trace (core h1) = trace (core h) ++ [EvSub c fn v]).
Proof.
  intros Hw Hs ck Hsound.
  destruct (getChannel_sound E key init (optionsRef r) h Hsound)
    as (c & ch & hg & Hg & Hc & Hrefs & Hst & Hch & Hcase).
  exists c, (c_value ch). eexists.
  split; [exact (effect_mount_spec E s r key init fn c ch hg h Hw Hs Hg Hc)|]. simpl.
  split; [rewrite Hch; apply lookup_insert_eq|].
  split; [rewrite Hrefs, list_lookup_alter_eq, Hs; reflexivity|].
  split; [unfold getValue, get; simpl; rewrite list_lookup_alter_eq, Hc; reflexivity|].
  split; [rewrite Hst; reflexivity|].
  split; [apply last_snoc|].
  split.
  { unfold subscribers_of. simpl. rewrite list_lookup_alter_eq, Hc. simpl.
    apply elem_of_set_add. }
  intros c0 ch0 Hc0 Hobj0.
  destruct Hcase as [[Hnone _]|(k & Hsome & _ & _ & _ & Hcore)].
  - fold ck in Hnone. congruence.
  - fold ck in Hsome. assert (c = c0) by congruence. subst c0.
    rewrite Hcore in Hc |- *. split; [reflexivity|]. split; [congruence|reflexivity].
Qed.

(** X20: running the cleanup the second effect returned, with the options the
    call site had at mount time, leaves both maps of the registry as they
    were before the mount, clears [channelRef], and the callback is no
    longer subscribed. *)
Theorem mount_then_cleanup_restores_registry
    (E : Env) (h : HookWorld) (s : nat) (r : HookRefs)
    (key : string) (init : JsVal) (fn : nat) :
  has_window E = true ->
  hook_refs h !! s = Some r ->
  hook_sound (channelKey_of (channelName_of (optionsRef r)) key) h ->
  exists k h1,
    effect_mount E s key init fn h = (Ret (Some k), h1) /\
    let h2 := snd (effect_cleanup E k h1) in
    fst (effect_cleanup E k h1) = Ret tt /\
    channels h2 = channels h /\
    refs h2 = refs h /\
    from_option channelRef None (hook_refs h2 !! s) = None /\
    fn ∉ subscribers_of (cl_channel k) (core h2).
Proof.
  intros Hw Hs Hsound. set (ck := channelKey_of (channelName_of (optionsRef r)) key) in *.
  destruct (getChannel_sound E key init (optionsRef r) h Hsound)
    as (c & ch & hg & Hg & Hc & Hrefs & Hst & Hch & Hcase). fold ck in Hch, Hcase.
  eexists _, _.
  split; [exact (effect_mount_spec E s r key init fn c ch hg h Hw Hs Hg Hc)|].
  cbv zeta. rewrite effect_cleanup_spec. simpl.
  rewrite Hrefs, list_lookup_alter_eq, Hs. simpl. fold ck.
  match goal with
  | |- context [hbind _ _ ?x] => set (h1 := x)
  end.
  assert (Hsubs : subscribers_of c (core h1)
                  = set_delete fn (set_add fn (c_subscribers ch))).
  { unfold subscribers_of, h1. simpl. rewrite !list_lookup_alter_eq, Hc. reflexivity. }
  assert (Hr1' : refs h1 = refs hg) by reflexivity.
  assert (Hch1 : channels h1 = channels hg) by reflexivity.
  assert (Hhr1 : hook_refs h1 = alter (with_channelRef (Some c)) s (hook_refs h))
    by reflexivity.
  clearbody h1.
  destruct Hcase as [[Hnone Hr1]|(k & Hsome & Hr0 & Hk & Hr1 & Hcore)].
  - assert (Hrn : refs h !! ck = None).
    { destruct Hsound as [[_ Hrn]|(c0 & k0 & Hc0 & _)]; [exact Hrn|congruence]. }
    assert (Hrel := releaseChannel_last E key (channelName_of (optionsRef r)) c h1).
    fold ck in Hrel. rewrite Hr1', Hr1, Hch1, Hch, !lookup_insert_eq in Hrel.
    specialize (Hrel eq_refl eq_refl).
    erewrite hbind_ret_eq by exact Hrel. simpl.
    rewrite !delete_insert_id by assumption.
    split; [reflexivity|]. split; [reflexivity|]. split; [reflexivity|].
    split; [rewrite Hhr1, !list_lookup_alter_eq, Hs; reflexivity|].
    pose proof (destroy_clears E c (core h1)) as Hclr. unfold subs_empty in Hclr.
    unfold subscribers_of. rewrite Hclr. apply not_elem_of_nil.
  - assert (Hrel := releaseChannel_decrement E key (channelName_of (optionsRef r)) (k + 1) h1).
    fold ck in Hrel. rewrite Hr1', Hr1, lookup_insert_eq in Hrel.
    specialize (Hrel eq_refl ltac:(lia)).
    erewrite hbind_ret_eq by exact Hrel. simpl.
    rewrite Hch1, Hch, insert_insert_eq. replace (k + 1 - 1) with k by lia.
    rewrite !insert_id by assumption.
    split; [reflexivity|]. split; [reflexivity|]. split; [reflexivity|].
    split; [rewrite Hhr1, !list_lookup_alter_eq, Hs; reflexivity|].
    rewrite Hsubs. apply not_elem_of_set_delete.
Qed.

Section HookMore.
Variable E : Env.

Lemma releaseChannel_other key name ck h :
  ck <> channelKey_of name key ->
  exists h',
    releaseChannel E key name h = (Ret tt, h') /\
    refs h' !! ck = refs h !! ck /\
    channels h' !! ck = channels h !! ck /\
    hook_refs h' = hook_refs h.
Proof.
  intros Hne. unfold releaseChannel. erewrite hbind_ret_eq by reflexivity.
  destruct (num_le_1 _).
  - erewrite hbind_ret_eq by reflexivity.
    destruct (channels h !! channelKey_of name key) as [c|].
    + destruct (destroy_ret E c (core h)) as [w' Hd].
      erewrite hbind_ret_eq by (apply in_core_eq; exact Hd).
      erewrite hbind_ret_eq by reflexivity.
      eexists. split; [reflexivity|]. simpl.
      rewrite !lookup_delete_ne by congruence. auto.
    + erewrite hbind_ret_eq by reflexivity. erewrite hbind_ret_eq by reflexivity.
      eexists. split; [reflexivity|]. simpl.
      rewrite !lookup_delete_ne by congruence. auto.
  - eexists. split; [reflexivity|]. simpl. rewrite lookup_insert_ne by congruence. auto.
Qed.
End HookMore.

(** X21: the cleanup releases the registry entry that the options current at
    cleanup time name.  When the channel name changed after the mount, the
    entry the mount acquired is not released: its count stays one above
    what it was before the mount, and its channel stays registered. *)
Theorem cleanup_after_options_change_keeps_reference
    (E : Env) (h : HookWorld) (s : nat) (r : HookRefs)
    (key : string) (init : JsVal) (fn : nat) (o2 : option Options) :
  has_window E = true ->
  hook_refs h !! s = Some r ->
  let ck1 := channelKey_of (channelName_of (optionsRef r)) key in
  let ck2 := channelKey_of (channelName_of o2) key in
  hook_sound ck1 h ->
  ck2 <> ck1 ->
  exists k h1 k0,
    effect_mount E s key init fn h = (Ret (Some k), h1) /\
    num_or_0 (refs h !! ck1) = Fin k0 /\
    let h3 := snd (effect_cleanup E k (snd (effect_options s o2 h1))) in
    fst (effect_cleanup E k (snd (effect_options s o2 h1))) = Ret tt /\
    refs h3 !! ck1 = Some (Fin (k0 + 1)) /\
    channels h3 !! ck1 = Some (cl_channel k).
Proof.
  intros Hw Hs ck1 ck2 Hsound Hne.
  destruct (getChannel_sound E key init (optionsRef r) h Hsound)
    as (c & ch & hg & Hg & Hc & Hrefs & Hst & Hch & Hcase). fold ck1 in Hch, Hcase.
  assert (Hcount : exists k0, num_or_0 (refs h !! ck1) = Fin k0 /\
                              refs hg !! ck1 = Some (Fin (k0 + 1))).
  { destruct Hcase as [[Hnone Hr1]|(k & Hsome & Hr0 & Hk & Hr1 & Hcore)].
    - exists 0. rewrite Hr1, lookup_insert_eq. split; [|reflexivity].
      destruct Hsound as [[_ Hrn]|(c0 & k0 & Hc0 & _)]; [|fold ck1 in Hc0; congruence].
      fold ck1 in Hrn. rewrite Hrn. reflexivity.
    - exists k. rewrite Hr0, Hr1, lookup_insert_eq. auto. }
  destruct Hcount as (k0 & Hk0 & Hr1).
  eexists _, _, k0.
  split; [exact (effect_mount_spec E s r key init fn c ch hg h Hw Hs Hg Hc)|].
  split; [exact Hk0|]. cbv zeta.
  rewrite effect_cleanup_spec. simpl.
  rewrite Hrefs, !list_lookup_alter_eq, Hs. simpl. fold ck2.
  match goal with
  | |- context [hbind (releaseChannel E key ?n) ?k ?x] =>
      destruct (releaseChannel_other E key n ck1 x) as (h3 & Hrel & Hr & Hcs & _);
        [fold ck2; congruence|]
  end.
  simpl in Hr, Hcs. erewrite hbind_ret_eq by exact Hrel. simpl.
  split; [reflexivity|]. split; [rewrite Hr; exact Hr1|].
  rewrite Hcs, Hch. apply lookup_insert_eq.
Qed.

(** X22: the setter the hook returns does nothing while [channelRef] is empty
    (before the mount and after the cleanup).  Given an updater, it applies
    it to the channel's current value and sets the result; an updater that
    throws makes the setter throw with nothing changed, and one that
    returns [undefined] changes nothing. *)
Theorem hook_setter_applies_updater
    (E : Env) (h : HookWorld) (s : nat) (arg : SetArg) :
  (from_option channelRef None (hook_refs h !! s) = None ->
   hook_setValue E s arg h = (Ret tt, h)) /\
  (forall c ch f,
     from_option channelRef None (hook_refs h !! s) = Some c ->
     channel_objs (core h) !! c = Some ch ->
     arg = ArgUpdater f ->
     match f (c_value ch) with
     | Ret v =>
         hook_setValue E s arg h = hook_setValue E s (ArgValue v) h /\
         hook_setValue E s arg h = (fst (setValue E c v (core h)),
                                    set_core (snd (setValue E c v (core h))) h) /\
         (v = VUndef -> hook_setValue E s arg h = (Ret tt, h))
     | Exn => hook_setValue E s arg h = (Exn, h)
     end).
Proof.
  split.
  - intros Hn. unfold hook_setValue, hbind, hget. rewrite Hn. reflexivity.
  - intros c ch f Hc Hobj ->. unfold hook_setValue, hbind, hget, hlift, in_core. rewrite Hc.
    unfold getValue, get. simpl. rewrite Hobj. simpl. rewrite set_core_id.
    destruct (f (c_value ch)) as [v|]; [|reflexivity].
    destruct (setValue E c v (core h)) as [r w'] eqn:Hset.
    split; [reflexivity|]. split; [reflexivity|].
    intros ->. rewrite setValue_undefined in Hset. injection Hset as <- <-.
    rewrite set_core_id. reflexivity.
Qed.

(** X23: two call sites that mount with the same key and options, the first of
    them creating the channel, hold the same channel object; a value set
    through the setter of one of them becomes the channel's value and
    reaches the callback of each exactly once. *)
Theorem hooks_of_one_key_share_updates
    (E : Env) (h : HookWorld) (s1 s2 : nat) (r1 r2 : HookRefs)
    (key : string) (init1 init2 : JsVal) (fn1 fn2 : nat) (v : JsVal) :
  has_window E = true ->
  hook_refs h !! s1 = Some r1 ->
  hook_refs h !! s2 = Some r2 ->
  s1 <> s2 ->
  fn1 <> fn2 ->
  let ck := channelKey_of (channelName_of (optionsRef r1)) key in
  channelKey_of (channelName_of (optionsRef r2)) key = ck ->
  channels h !! ck = None ->
  refs h !! ck = None ->
  v <> VUndef ->
  exists c k1 h1 k2 h2,
    effect_mount E s1 key init1 fn1 h = (Ret (Some k1), h1) /\
    effect_mount E s2 key init2 fn2 h1 = (Ret (Some k2), h2) /\
    cl_channel k1 = c /\ cl_channel k2 = c /\
    from_option channelRef None (hook_refs h2 !! s1) = Some c /\
    from_option channelRef None (hook_refs h2 !! s2) = Some c /\
    refs h2 !! ck = Some (Fin 2) /\
    let h3 := snd (hook_setValue E s1 (ArgValue v) h2) in
    fst (hook_setValue E s1 (ArgValue v) h2) = Ret tt /\
    fst (getValue c (core h3)) = Ret v /\
    calls_of c fn1 (new_events (core h2) (core h3)) = [v] /\
    calls_of c fn2 (new_events (core h2) (core h3)) = [v].
Proof.
  intros Hw Hs1 Hs2 Hss Hfn ck Hck Hcn Hrn Hv.
  (* the first mount creates the channel *)
  destruct (new_channel_shape E key init1 (default empty_options (optionsRef r1)) (core h))
    as (t & wg & w1 & ch1 & u & _ & Hnew & _ & Hc1 & _).
  set (c := length (channel_objs (core h))) in *.
  assert (Hsub1 : c_subscribers ch1 = []).
  { pose proof (silent_new E c key init1 (default empty_options (optionsRef r1)) (core h))
      as Hsil.
    rewrite Hnew in Hsil. simpl in Hsil. unfold keeps_silent, subs_empty in Hsil.
    rewrite Hc1 in Hsil. simpl in Hsil. apply Hsil.
    unfold c. rewrite lookup_ge_None_2 by lia. reflexivity. }
  destruct (getChannel_created E key init1 (optionsRef r1) h Hcn) as (w1' & Hnew' & Hget1).
  fold ck c in Hget1, Hnew'. rewrite Hnew in Hnew'. injection Hnew' as <-.
  rewrite insert_insert_eq in Hget1.
  pose proof (effect_mount_spec E s1 r1 key init1 fn1 c ch1 _ h Hw Hs1 Hget1 Hc1) as Hm1.
  simpl in Hm1.
  match type of Hm1 with _ = (_, ?x) => set (h1 := x) in * end.
  (* the second mount finds it *)
  assert (Hs2' : hook_refs h1 !! s2 = Some r2).
  { unfold h1. simpl. rewrite list_lookup_alter_ne by exact Hss. exact Hs2. }
  assert (Hch1 : channels h1 !! ck = Some c) by (unfold h1; simpl; apply lookup_insert_eq).
  assert (Hobj1 : channel_objs (core h1) !! c
                  = Some (with_subscribers (set_add fn1 (c_subscribers ch1)) ch1)).
  { unfold h1. simpl. rewrite list_lookup_alter_eq, Hc1. reflexivity. }
  assert (Hs1' : hook_refs h1 !! s1 = Some (with_channelRef (Some c) r1)).
  { unfold h1. simpl. rewrite list_lookup_alter_eq, Hs1. reflexivity. }
  assert (Hrf1 : refs h1 !! ck = Some (Fin 1)) by (unfold h1; simpl; apply lookup_insert_eq).
  clearbody h1.
  pose proof (getChannel_found E key init2 (optionsRef r2) c h1) as Hget2.
  rewrite Hck in Hget2. specialize (Hget2 Hch1). rewrite Hrf1 in Hget2. simpl in Hget2.
  pose proof (effect_mount_spec E s2 r2 key init2 fn2 c _ _ h1 Hw Hs2' Hget2 Hobj1) as Hm2.
  simpl in Hm2.
  match type of Hm2 with _ = (_, ?x) => set (h2 := x) in * end.
  exists c. eexists _, h1, _, h2.
  split; [exact Hm1|]. split; [exact Hm2|]. split; [reflexivity|]. split; [reflexivity|].
  assert (Hr1 : from_option channelRef None (hook_refs h2 !! s1) = Some c).
  { unfold h2. simpl. rewrite list_lookup_alter_ne by congruence.
    rewrite Hs1'. reflexivity. }
  split; [exact Hr1|].
  split; [unfold h2; simpl; rewrite list_lookup_alter_eq, Hs2'; reflexivity|].
  split; [unfold h2; simpl; apply lookup_insert_eq|].
  set (ch2 := with_subscribers [fn1; fn2] ch1).
  assert (Hobj2 : channel_objs (core h2) !! c = Some ch2).
  { unfold h2. simpl. rewrite list_lookup_alter_eq, Hobj1. simpl. rewrite Hsub1. simpl.
    unfold set_add. simpl.
    destruct (bool_decide_reflect (fn2 ∈ [fn1])) as [Hin|_]; [|reflexivity].
    apply list_elem_of_singleton in Hin. congruence. }
  clearbody h2.
  destruct (setValue_trace E c ch2 v (core h2) Hobj2 Hv) as (Htr & Hobjs & Hret).
  cbv zeta. unfold hook_setValue. erewrite hbind_ret_eq by reflexivity. rewrite Hr1.
  unfold in_core. destruct (setValue E c v (core h2)) as [rr w3] eqn:Hset. simpl in *.
  subst rr. split; [reflexivity|].
  split; [unfold getValue, get; simpl; rewrite Hobjs, list_lookup_alter_eq, Hobj2; reflexivity|].
  rewrite (new_events_app _ _ _ Htr). simpl. rewrite !Nat.eqb_refl. simpl.
  destruct (Nat.eqb_spec fn2 fn1) as [->|_]; [congruence|].
  destruct (Nat.eqb_spec fn1 fn2) as [->|_]; [congruence|]. auto.
Qed.

(** ** A destroyed channel and the transports *)

#[global] Instance deaf_preorder b c : PreOrder (deaf b c).
Proof.
  split.
  - intros w H. auto.
  - intros w1 w2 w3 H12 H23 H. destruct (H12 H) as (D2 & T2 & V2).
    destruct (H23 D2) as (D3 & T3 & V3).
    split; [exact D3|]. split; [congruence|]. intros Hb. rewrite V3, V2; auto.
Qed.

Section Deaf.
Variable E : Env.
Variable b : bool.
Variable c : nat.

Lemma deaf_objs {A} (m : M A) :
  (forall w, channel_objs (snd (m w)) = channel_objs w /\
             transport_objs (snd (m w)) = transport_objs w /\
             trace (snd (m w)) = trace w) ->
  frame (deaf b c) m.
Proof.
  intros H w [Hlt Hd]. destruct (H w) as (Hc & Ht & Htr).
  split; [split; [rewrite Hc; exact Hlt|rewrite Ht; exact Hd]|].
  split; [rewrite Htr; reflexivity|]. intros _. unfold getValue, get. simpl. rewrite Hc.
  reflexivity.
Qed.

Lemma deaf_getTabId : frame (deaf b c) (getTabId E).
Proof.
  apply deaf_objs. intros w. destruct (getTabId_spec E w) as (id & T & S & Hg & _).
  rewrite Hg. auto.
Qed.

Lemma deaf_emit e : is_call_of c e = false -> frame (deaf b c) (emit e).
Proof.
  intros He w Hd. split; [exact Hd|]. simpl. split; [|reflexivity].
  rewrite List.filter_app. simpl. rewrite He. apply app_nil_r.
Qed.

Lemma deaf_update_transport t g :
  (forall x, LChan c ∈ t_listeners (g x) -> LChan c ∈ t_listeners x) ->
  frame (deaf b c) (update_transport t g).
Proof.
  intros Hg w [Hlt Hd]. split; [|split; reflexivity]. split; [exact Hlt|]. simpl.
  intros t' tr'. destruct (decide (t = t')) as [->|Hne].
  - rewrite list_lookup_alter_eq. destruct (transport_objs w !! t') as [x|] eqn:Hx; [|discriminate].
    simpl. intros [= <-] Hin. exact (Hd t' x Hx (Hg x Hin)).
  - rewrite list_lookup_alter_ne by exact Hne. apply Hd.
Qed.

Lemma deaf_alloc_transport x :
  LChan c ∉ t_listeners x -> frame (deaf b c) (alloc_transport x).
Proof.
  intros Hx w [Hlt Hd]. split; [|split; reflexivity]. split; [exact Hlt|]. simpl.
  intros t tr Hl. apply lookup_app_Some in Hl as [Hl|[_ Hl]]; [exact (Hd t tr Hl)|].
  destruct (t - length (transport_objs w))%nat; simpl in Hl; [|discriminate].
  injection Hl as <-. exact Hx.
Qed.

Lemma deaf_update_channel c' g :
  c' <> c \/ (forall x, c_value (g x) = c_value x) ->
  frame (deaf b c) (update_channel c' g).
Proof.
  intros Hg w [Hlt Hd]. split; [split; [simpl; rewrite length_alter; exact Hlt|exact Hd]|].
  split; [reflexivity|]. intros _. unfold getValue, get. simpl.
  destruct (decide (c' = c)) as [->|Hne].
  - destruct Hg as [Hg|Hg]; [contradiction|].
    rewrite list_lookup_alter_eq. destruct (channel_objs w !! c); simpl; [|reflexivity].
    rewrite Hg. reflexivity.
  - rewrite list_lookup_alter_ne by exact Hne. reflexivity.
Qed.

Lemma deaf_alloc_channel x : frame (deaf b c) (alloc_channel x).
Proof.
  intros w [Hlt Hd]. split; [split; [simpl; rewrite length_app; lia|exact Hd]|].
  split; [reflexivity|]. intros _. unfold getValue, get. simpl.
  rewrite lookup_app_l by exact Hlt. reflexivity.
Qed.

Ltac deaf_plain :=
  solve [ apply deaf_objs;
          let w := fresh "w" in
          intros w;
          unfold localStorage_getItem, localStorage_setItem, modify; simpl;
          repeat match goal with |- context [if ?b then _ else _] => destruct b end;
          simpl; auto ].

Ltac deaf_leaf :=
  first
    [ apply deaf_getTabId
    | apply deaf_emit; simpl;
        first [reflexivity | apply Nat.eqb_neq; congruence]
    | apply deaf_alloc_channel
    | apply deaf_alloc_transport; simpl; apply not_elem_of_nil
    | apply deaf_update_channel;
        first [right; intros ?; reflexivity | left; congruence]
    | apply deaf_update_transport; intros ?; simpl;
        first [ tauto
              | rewrite elem_of_set_delete; tauto
              | (let H := fresh "H" in intros H; exfalso; exact (not_elem_of_nil _ H)) ]
    | deaf_plain ].

Lemma deaf_channel_listener c' m : c' <> c -> frame (deaf b c) (channel_listener E c' m).
Proof. intros Hne. frames deaf_leaf. Qed.

Lemma deaf_add l x : l <> LChan c -> LChan c ∈ set_add l x -> LChan c ∈ x.
Proof.
  intros Hl. unfold set_add. destruct (bool_decide (l ∈ x)); [auto|].
  rewrite elem_of_app, list_elem_of_singleton. intros [H|H]; [exact H|congruence].
Qed.

Lemma deaf_call_listener t l m : l <> LChan c -> frame (deaf b c) (call_listener E t l m).
Proof.
  intros Hl. destruct l as [c'|f]; simpl.
  - apply (frame_bind (deaf b c)); [deaf_leaf|]. intros _. apply deaf_channel_listener.
    congruence.
  - frames deaf_leaf.
Qed.

Lemma deaf_for_each t m ls :
  LChan c ∉ ls ->
  frame (deaf b c) (for_each (fun fn => try_ (call_listener E t fn m)) ls).
Proof.
  induction ls as [|l ls IH]; intros Hn; simpl.
  - apply (frame_ret (deaf b c)).
  - apply (frame_bind (deaf b c)).
    + apply (frame_try (deaf b c)), deaf_call_listener. intros ->. apply Hn. left.
    + intros _. apply IH. intros Hin. apply Hn. right. exact Hin.
Qed.

Lemma deaf_forward t m : frame (deaf b c) (forward E t m).
Proof.
  intros w Hd. unfold forward. unfold bind, get. simpl.
  apply deaf_for_each; [|exact Hd].
  destruct Hd as [_ Hd]. destruct (transport_objs w !! t) as [tr|] eqn:Ht; simpl.
  - exact (Hd t tr Ht).
  - apply not_elem_of_nil.
Qed.

Ltac deaf_leaf2 := first [apply deaf_forward | deaf_leaf].

Lemma deaf_transport_subscribe t l :
  l <> LChan c -> frame (deaf b c) (transport_subscribe E t l).
Proof.
  intros Hl. unfold transport_subscribe.
  repeat first
    [ frame_step
    | apply deaf_call_listener; exact Hl
    | apply deaf_update_transport; intros ?; simpl; apply deaf_add; exact Hl
    | deaf_leaf ].
Qed.

Lemma deaf_restore c' key opts : c' <> c -> frame (deaf b c) (restore_persisted E c' key opts).
Proof. intros Hne. frames deaf_leaf. Qed.

Lemma deaf_getTransport n : frame (deaf b c) (getTransport E n).
Proof. frames deaf_leaf. Qed.

Lemma deaf_new key init opts : frame (deaf b c) (new_CrossTabChannel E key init opts).
Proof.
  unfold new_CrossTabChannel. apply (frame_bind (deaf b c)); [apply deaf_getTransport|].
  intros t w Hd. pose proof Hd as [Hlt _].
  unfold bind at 1. unfold alloc_channel at 1.
  match goal with
  | |- context [bind (restore_persisted E ?c' key opts) ?k ?w1] =>
      assert (Hne : c' <> c) by lia;
        assert (H1 : deaf b c w w1) by (apply (deaf_alloc_channel _ w));
        assert (Hk : frame (deaf b c) (bind (restore_persisted E c' key opts) k))
  end.
  { apply (frame_bind (deaf b c)); [apply deaf_restore, Hne|]. intros _.
    apply (frame_bind (deaf b c));
      [apply deaf_transport_subscribe; intros Heq; injection Heq as Heq; exact (Hne Heq)|].
    intros u.
    frames deaf_leaf. }
  destruct (H1 Hd) as (D1 & T1 & V1). destruct (Hk _ D1) as (D2 & T2 & V2).
  split; [exact D2|]. split; [etransitivity; [exact T2|exact T1]|].
  intros Hb. etransitivity; [exact (V2 Hb)|exact (V1 Hb)].
Qed.

Lemma deaf_update_channel_any c' g : b = false -> frame (deaf b c) (update_channel c' g).
Proof.
  intros Hb w [Hlt Hd].
  split; [split; [simpl; rewrite length_alter; exact Hlt|exact Hd]|].
  split; [reflexivity|]. intros Hb'. congruence.
Qed.

Lemma deaf_setValue c' v : c' <> c \/ b = false -> frame (deaf b c) (setValue E c' v).
Proof.
  intros [Hne | Hb].
  - frames deaf_leaf2.
  - frames ltac:(first [apply deaf_update_channel_any; exact Hb | deaf_leaf2]).
Qed.

Lemma deaf_perform a :
  (b = true -> forall v, a <> ASetValue c v) -> frame (deaf b c) (perform E a).
Proof.
  intros Ha. destruct a; simpl.
  - apply (frame_bind (deaf b c)); [apply deaf_new|intros ?; frame_step].
  - frames deaf_leaf2.
  - apply deaf_setValue. destruct b; [left|right; reflexivity].
    intros ->. exact (Ha eq_refl value eq_refl).
  - frames deaf_leaf2.
  - frames deaf_leaf2.
  - frames deaf_leaf2.
  - frames deaf_leaf2.
  - apply (frame_bind (deaf b c)); [apply deaf_transport_subscribe; discriminate|].
    intros ?. frame_step.
  - frames deaf_leaf2.
  - frames deaf_leaf2.
  - frames deaf_leaf2.
  - deaf_plain.
Qed.

Lemma deaf_run acts w :
  (b = true -> forall v, ASetValue c v ∉ acts) -> deaf b c w (run E acts w).
Proof.
  revert w. induction acts as [|a acts IH]; intros w Ha; simpl; [reflexivity|].
  transitivity (snd (perform E a w)).
  - apply deaf_perform. intros Hb v ->. apply (Ha Hb v). left.
  - apply IH. intros Hb v Hin. apply (Ha Hb v). right. exact Hin.
Qed.
End Deaf.

Section Detach.
Variable E : Env.

Lemma deaf_releaseTransport b c n : frame (deaf b c) (releaseTransport E n).
Proof.
  frames ltac:(first
    [ apply deaf_getTabId
    | apply deaf_emit; reflexivity
    | apply deaf_update_transport; intros ?; simpl;
        first [ tauto
              | (let H := fresh "H" in intros H; exfalso; exact (not_elem_of_nil _ H)) ]
    | solve [ apply deaf_objs; let w := fresh "w" in intros w; simpl; auto ] ]).
Qed.

(** [destroy()] takes the listener of its channel out of the transport it
    was registered on. *)
Lemma destroy_detaches c t w :
  listens_on c t w ->
  detached c (snd (destroy E c w)) /\
  fst (getValue c (snd (destroy E c w))) = fst (getValue c w).
Proof.
  intros [(ch & Hc & Hu) Hother].
  set (w' := set_transport_objs
               (alter (fun x => with_listeners (set_delete (LChan c) (t_listeners x)) x) t
                  (transport_objs w)) w).
  assert (Hd : detached c w').
  { split; [unfold w'; simpl; apply lookup_lt_is_Some; eauto|].
    intros t' tr'. unfold w'. simpl. destruct (decide (t = t')) as [->|Hne].
    - rewrite list_lookup_alter_eq. destruct (transport_objs w !! t'); [|discriminate].
      simpl. intros [= <-]. simpl. rewrite elem_of_set_delete. tauto.
    - rewrite list_lookup_alter_ne by exact Hne. apply Hother. congruence. }
  assert (Heq : destroy E c w
                = bind (releaseTransport E (channel_name_of (c_options ch)))
                    (fun _ => update_channel c (with_subscribers [])) w').
  { unfold destroy. erewrite bind_ret_eq by reflexivity. rewrite Hc, Hu.
    erewrite bind_ret_eq by reflexivity. reflexivity. }
  assert (Hf : frame (deaf true c)
                 (bind (releaseTransport E (channel_name_of (c_options ch)))
                    (fun _ => update_channel c (with_subscribers [])))).
  { apply (frame_bind (deaf true c)); [apply deaf_releaseTransport|]. intros _.
    apply deaf_update_channel. right. intros x. reflexivity. }
  rewrite Heq. destruct (Hf w' Hd) as (D & _ & V). split; [exact D|].
  rewrite (V eq_refl). reflexivity.
Qed.
End Detach.

(** X13: after [destroy()], a channel whose listener the constructor registered
    on one transport is out of every listener set, and whatever happens next
    (messages, storage events, new channels on the same transport,
    [setValue] on any channel) no transport calls its listener any more;
    its value then changes only by its own [setValue]. *)
Theorem destroyed_channel_hears_nothing
    (E : Env) (w : World) (c t : nat) (acts : list Action) :
  listens_on c t w ->
  let w1 := snd (destroy E c w) in
  let w2 := run E acts w1 in
  detached c w1 /\
  detached c w2 /\
  List.filter (is_call_of c) (trace w2) = List.filter (is_call_of c) (trace w1) /\
  ((forall v, ASetValue c v ∉ acts) -> fst (getValue c w2) = fst (getValue c w)).
Proof.
  intros Hl w1 w2. destruct (destroy_detaches E c t w Hl) as [Hd Hv]. fold w1 in Hd, Hv.
  split; [exact Hd|].
  destruct (deaf_run E false c acts w1 ltac:(discriminate) Hd) as (D2 & T2 & _).
  fold w2 in D2, T2. split; [exact D2|]. split; [exact T2|].
  intros Hacts.
  destruct (deaf_run E true c acts w1 (fun _ => Hacts) Hd) as (_ & _ & V2).
  fold w2 in V2. rewrite (V2 eq_refl). exact Hv.
Qed.

(** ** Events that are ignored *)

Lemma for_each_id {A} (f : A -> M unit) l w :
  (forall x, f x w = (Ret tt, w)) -> for_each f l w = (Ret tt, w).
Proof.
  intros Hf. induction l as [|x l IH]; simpl; [reflexivity|].
  unfold bind. rewrite Hf. exact IH.
Qed.

Lemma deliver_malformed (E : Env) t msg w :
  well_formed msg = false -> deliver E t msg w = (Ret tt, w).
Proof. intros H. unfold deliver. rewrite H. reflexivity. Qed.

(** X14: a message that is not an object with a defined [value], a storage event
    without key or without new value, with an empty one, with one that is
    not JSON or not such an object, and a storage event for a slot that no
    fallback transport of the context uses, are ignored: the world stays as
    it is. *)
Theorem malformed_events_are_ignored (E : Env) (w : World) :
  (forall t data, well_formed data = false -> bc_message E t data w = (Ret tt, w)) /\
  (forall k, storage_event E k None w = (Ret tt, w)) /\
  (forall nv, storage_event E None nv w = (Ret tt, w)) /\
  (forall k, storage_event E k (Some "") w = (Ret tt, w)) /\
  (forall k text, JSON_parse E text = Exn -> storage_event E k (Some text) w = (Ret tt, w)) /\
  (forall k text msg,
     JSON_parse E text = Ret msg -> well_formed msg = false ->
     storage_event E k (Some text) w = (Ret tt, w)) /\
  (forall k nv,
     (forall t tr, t ∈ storage_handlers w -> transport_objs w !! t = Some tr ->
                   slot_of (t_name tr) <> k) ->
     storage_event E (Some k) nv w = (Ret tt, w)).
Proof.
  assert (Hev : forall k nv,
            (forall t, t ∈ storage_handlers w -> storage_handler E t k nv w = (Ret tt, w)) ->
            storage_event E k nv w = (Ret tt, w)).
  { intros k nv H. unfold storage_event. erewrite bind_ret_eq by reflexivity.
    induction (storage_handlers w) as [|t l IH]; simpl; [reflexivity|].
    unfold bind, try_, try_catch. rewrite (H t) by left. simpl.
    apply IH. intros t' Hin. apply H. right. exact Hin. }
  assert (Hh : forall t k nv,
            (forall tr key text, transport_objs w !! t = Some tr -> k = Some key ->
               nv = Some text -> String.eqb key (slot_of (t_name tr)) = true ->
               truthy_str text = true ->
               try_ (let! msg := lift (JSON_parse E text) in deliver E t msg) w = (Ret tt, w)) ->
            storage_handler E t k nv w = (Ret tt, w)).
  { intros t k nv H. unfold storage_handler. erewrite bind_ret_eq by reflexivity.
    destruct (transport_objs w !! t) as [tr|] eqn:Ht; [|reflexivity].
    destruct k as [key|]; [|reflexivity]. destruct nv as [text|]; [|reflexivity].
    destruct (String.eqb key (slot_of (t_name tr))) eqn:Hk; [|reflexivity].
    destruct (truthy_str text) eqn:Htext; [|reflexivity]. simpl.
    apply (H tr key text); auto. }
  split.
  { intros t data Hwf. unfold bc_message, onmessage. erewrite bind_ret_eq by reflexivity.
    destruct (transport_objs w !! t) as [tr|]; [|reflexivity].
    destruct (t_kind tr); try reflexivity.
    destruct (t_closed tr); [reflexivity|]. apply deliver_malformed, Hwf. }
  split.
  { intros k. apply Hev. intros t _. apply Hh. intros; discriminate. }
  split.
  { intros nv. apply Hev. intros t _. apply Hh. intros; discriminate. }
  split.
  { intros k. apply Hev. intros t _. apply Hh. intros tr key text _ _ [= <-] _ Ht.
    discriminate. }
  split.
  { intros k text Hp. apply Hev. intros t _. apply Hh. intros tr key text' _ _ [= <-] _ _.
    unfold try_, try_catch, bind, lift. rewrite Hp. reflexivity. }
  split.
  { intros k text msg Hp Hwf. apply Hev. intros t _. apply Hh.
    intros tr key text' _ _ [= <-] _ _.
    unfold try_, try_catch, bind, lift. rewrite Hp, (deliver_malformed E t msg w Hwf).
    reflexivity. }
  intros k nv Hslot. apply Hev. intros t Hin. apply Hh.
  intros tr key text Ht [= <-] _ Hk _. apply String.eqb_eq in Hk.
  exfalso. exact (Hslot t tr Hin Ht (eq_sym Hk)).
Qed.

(** ** Channels on other transports *)

Section Elsewhere.
Variable E : Env.
Variable c : nat.
Variable ch : Channel.
Variable t : nat.

Lemma away_forward m w :
  channel_objs w !! c = Some ch ->
  (forall tr, transport_objs w !! t = Some tr -> LChan c ∉ t_listeners tr) ->
  untouched c ch w (snd (forward E t m w)).
Proof.
  intros Hc Hl. unfold forward, bind, get. simpl.
  apply untouched_for_each.
  destruct (transport_objs w !! t) as [tr|]; simpl; [apply Hl; reflexivity|].
  apply not_elem_of_nil.
Qed.

Lemma away_deliver m w :
  channel_objs w !! c = Some ch ->
  (forall tr, transport_objs w !! t = Some tr -> LChan c ∉ t_listeners tr) ->
  untouched c ch w (snd (deliver E t m w)).
Proof.
  intros Hc Hl. unfold deliver. destruct (well_formed m); [|reflexivity].
  destruct (getTabId_spec E w) as (id & T & S & Hg & _).
  unfold bind. rewrite Hg. destruct (negb _); [|intros _; auto].
  intros _.
  destruct (away_forward m (set_sessionStorage S (set_tabId T w)) Hc Hl Hc) as [Hc' Hf].
  auto.
Qed.
End Elsewhere.

Lemma snd_try (m : M unit) w : snd (try_ m w) = snd (m w).
Proof. unfold try_, try_catch, ret. destruct (m w) as [[[]|] w']; reflexivity. Qed.

Lemma envelope_of_spec (E : Env) msg w :
  exists m T S, envelope_of E msg w = (Ret m, set_sessionStorage S (set_tabId T w)).
Proof.
  unfold envelope_of. destruct (_ && _).
  - exists msg, (tabId w), (sessionStorage w). destruct w; reflexivity.
  - destruct (getTabId_spec E w) as (id & T & S & Hg & _).
    unfold bind, Date_now, get, ret. rewrite Hg. simpl. eauto.
Qed.

(** X15: whatever arrives on a transport, and whatever is published through it,
    a channel whose listener is not registered on that transport keeps its
    object (its value included) and calls none of its subscribers, even
    when the envelope carries its key. *)
Theorem other_transport_leaves_channel_alone
    (E : Env) (w : World) (c : nat) (ch : Channel) (t : nat) :
  channel_objs w !! c = Some ch ->
  (forall tr, transport_objs w !! t = Some tr -> LChan c ∉ t_listeners tr) ->
  let unchanged w' :=
    channel_objs w' !! c = Some ch /\ sub_calls c (trace w') = sub_calls c (trace w) in
  (forall msg, unchanged (snd (bc_message E t msg w))) /\
  (forall k nv, unchanged (snd (storage_handler E t k nv w))) /\
  (forall msg, unchanged (snd (transport_publish E t msg w))).
Proof.
  intros Hc Hl unchanged.
  assert (Hlift : forall w0 w', channel_objs w0 = channel_objs w -> trace w0 = trace w ->
                                untouched c ch w0 w' -> unchanged w').
  { intros w0 w' Ho Ht H. rewrite <- Ho in Hc. destruct (H Hc) as [Hc' Hf]. split; [exact Hc'|].
    rewrite (sub_calls_filter c (trace w')), (sub_calls_filter c (trace w)), Hf, Ht.
    reflexivity. }
  assert (Hsame : unchanged w) by (split; [exact Hc|reflexivity]).
  assert (Hdel : forall m w0, channel_objs w0 = channel_objs w -> trace w0 = trace w ->
                             transport_objs w0 = transport_objs w ->
                             unchanged (snd (deliver E t m w0))).
  { intros m w0 Ho Ht Hto. apply (Hlift w0); auto.
    apply away_deliver; [rewrite Ho; exact Hc|rewrite Hto; exact Hl]. }
  clear Hl Hlift.
  split; [|split].
  - intros msg. unfold bc_message, onmessage, bind, get. simpl.
    destruct (transport_objs w !! t) as [tr|]; [|exact Hsame].
    destruct (t_kind tr); try exact Hsame.
    destruct (t_closed tr); [exact Hsame|]. apply Hdel; reflexivity.
  - intros k nv. unfold storage_handler, bind, get. simpl.
    destruct (transport_objs w !! t) as [tr|]; [|exact Hsame].
    destruct k as [key|]; [|exact Hsame]. destruct nv as [text|]; [|exact Hsame].
    destruct (_ || _); [exact Hsame|]. rewrite snd_try. unfold bind, lift.
    destruct (JSON_parse E text) as [m|]; [|exact Hsame]. apply Hdel; reflexivity.
  - intros msg. unfold transport_publish, bind, get. simpl.
    destruct (transport_objs w !! t) as [tr|] eqn:Ht; [|exact Hsame].
    destruct (t_kind tr); [exact Hsame| |].
    + rewrite snd_try. destruct (envelope_of_spec E msg w) as (m & T & S & He).
      unfold bind. rewrite He. unfold postMessage, bind, get, throw, ret. simpl. rewrite Ht.
      simpl. destruct (t_closed tr); [exact Hsame|].
      destruct (bc_post_throws E m); [exact Hsame|].
      destruct (bc_echo E); [|exact Hsame]. apply Hdel; reflexivity.
    + destruct (negb (has_window E)); [exact Hsame|]. rewrite snd_try.
      destruct (envelope_of_spec E msg w) as (m & T & S & He).
      unfold bind. rewrite He. unfold lift, localStorage_setItem.
      destruct (JSON_stringify E m); [|exact Hsame].
      destruct (ls_set_throws E _ _ _); exact Hsame.
Qed.

(** ** Without a window *)

#[global] Instance platform_kept_preorder : PreOrder platform_kept.
Proof.
  split.
  - intros w. split; reflexivity.
  - intros w1 w2 w3 [A1 B1] [A2 B2]. split; congruence.
Qed.

Section Server.
Variable E : Env.
Hypothesis no_window : has_window E = false.

Lemma server_getTabId : frame platform_kept (getTabId E).
Proof. intros w. unfold getTabId. rewrite no_window. split; reflexivity. Qed.

Ltac server_leaf :=
  first
    [ apply server_getTabId
    | solve [ let w := fresh "w" in
              intros w;
              unfold emit, update_channel, update_transport, alloc_channel, alloc_transport,
                modify; simpl; split; reflexivity ] ].

Ltac server_step :=
  first
    [ progress (rewrite ?no_window, ?andb_false_r; simpl)
    | frame_step
    | server_leaf
    | frame_open ].

Lemma server_perform a : frame platform_kept (perform E a).
Proof. destruct a; simpl; repeat server_step. Qed.

Lemma server_run acts w : platform_kept w (run E acts w).
Proof.
  revert w. induction acts as [|a acts IH]; intros w; simpl; [reflexivity|].
  transitivity (snd (perform E a w)); [apply server_perform|apply IH].
Qed.
End Server.

(** X16: without a window (on a server) no operation and no event touches
    [localStorage] or [sessionStorage], registers or removes a [storage]
    listener, or caches an identity; the identity is the text [server]
    throughout. *)
Theorem server_side_touches_no_storage (E : Env) (w : World) (acts : list Action) :
  has_window E = false ->
  let w' := run E acts w in
  localStorage w' = localStorage w /\
  sessionStorage w' = sessionStorage w /\
  storage_handlers w' = storage_handlers w /\
  tabId w' = tabId w /\
  getTabId E w' = (Ret "server", w').
Proof.
  intros Hw w'. destruct (server_run E Hw acts w) as [Hp Ht]. fold w' in Hp, Ht.
  unfold platform_state in Hp. injection Hp as Hl Hs Hh.
  repeat (split; [assumption|]). unfold getTabId. rewrite Hw. reflexivity.
Qed.

(** ** Releasing what was never acquired *)

(** X25: releasing a name the registry does not know changes nothing: neither
    [releaseTransport] in the core nor [releaseChannel] in the hook module
    destroys, deletes or counts anything. *)
Theorem release_of_unknown_name_is_noop (E : Env) :
  (forall n w,
     transports w !! n = None -> transportRefs w !! n = None ->
     releaseTransport E n w = (Ret tt, w)) /\
  (forall key name h,
     channels h !! channelKey_of name key = None ->
     refs h !! channelKey_of name key = None ->
     releaseChannel E key name h = (Ret tt, h)).
Proof.
  split.
  - intros n w Ht Hr. unfold releaseTransport, bind, get, modify, ret.
    rewrite Hr. simpl. rewrite Ht. simpl. unfold set_transports, set_transportRefs. simpl.
    rewrite !delete_id by assumption. destruct w; reflexivity.
  - intros key name h Hc Hr. unfold releaseChannel, hbind, hget, hmodify, hret.
    rewrite Hr. simpl. rewrite Hc. simpl. unfold set_channels, set_refs. simpl.
    rewrite !delete_id by assumption. destruct h; reflexivity.
Qed.

(** ** Joining late under the storage fallback *)

Section LateJoiner.
Variable E : Env.

Lemma getTransport_fallback n w :
  has_window E = true ->
  (created_kind E n = TFallback) ->
  (forall t tr, transports w !! n = Some t -> transport_objs w !! t = Some tr ->
                t_kind tr = TFallback /\ t_name tr = n) ->
  (forall t, transports w !! n = Some t -> is_Some (transport_objs w !! t)) ->
  exists t w1 tr,
    getTransport E n w = (Ret t, w1) /\
    channel_objs w1 = channel_objs w /\
    localStorage w1 = localStorage w /\
    trace w1 = trace w /\
    transport_objs w1 !! t = Some tr /\ t_kind tr = TFallback /\ t_name tr = n.
Proof.
  intros Hw Hk Hold Hex.
  destruct (transports w !! n) as [t|] eqn:Ht.
  - destruct (Hex t eq_refl) as [tr Htr]. destruct (Hold t tr eq_refl Htr) as [Hkind Hname].
    rewrite (getTransport_found E n t w Ht). exists t. eexists _, tr.
    split; [reflexivity|]. simpl. repeat split; auto.
  - rewrite (getTransport_created E n w Ht). eexists _, _, _.
    split; [reflexivity|]. simpl.
    split; [reflexivity|]. split; [reflexivity|]. split; [reflexivity|].
    split; [rewrite lookup_app_r, Nat.sub_diag by lia; reflexivity|]. simpl.
    split; [exact Hk | reflexivity].
Qed.
End LateJoiner.

(** X24: under the storage fallback, a channel constructed when the slot of its
    transport holds a well-formed envelope for its key starts with the
    envelope's value, whatever its [initialValue] and whatever it restored,
    and it notifies nobody: the value published last, by any context, this
    one included, is recovered at construction. *)
Theorem fallback_late_joiner_adopts_last_envelope
    (E : Env) (w : World) (key : string) (init : JsVal) (opts : Options)
    (text : string) (msg : JsVal) :
  has_window E = true ->
  created_kind E (channel_name_of opts) = TFallback ->
  (forall t tr, transports w !! channel_name_of opts = Some t ->
                transport_objs w !! t = Some tr ->
                t_kind tr = TFallback /\ t_name tr = channel_name_of opts) ->
  (forall t, transports w !! channel_name_of opts = Some t -> is_Some (transport_objs w !! t)) ->
  ls_get_throws E (slot_of (channel_name_of opts)) = false ->
  localStorage w !! slot_of (channel_name_of opts) = Some text ->
  truthy_str text = true ->
  JSON_parse E text = Ret msg ->
  get_prop "key" msg = VStr key ->
  get_prop "value" msg <> VUndef ->
  exists c w',
    new_CrossTabChannel E key init opts w = (Ret c, w') /\
    getValue c w' = (Ret (get_prop "value" msg), w') /\
    sub_calls c (new_events w w') = [].
Proof.
  intros Hw Hkind Hold Hex Hget Hslot Htext Hp Hk Hv.
  destruct (get_prop_object "value" msg _ eq_refl Hv) as (Htruthy & Ho & Hn).
  assert (Hwf : well_formed msg = true).
  { unfold well_formed. rewrite Htruthy, Ho, (is_undefined_false _ Hv). reflexivity. }
  destruct (getTransport_fallback E (channel_name_of opts) w Hw Hkind Hold Hex)
    as (t & w1 & tr & Hg & Hc1 & Hl1 & Ht1 & Hobj & Hkd & Hname).
  set (c := length (channel_objs w)).
  set (ch0 := mkChannel key init [] t ("xts-" +:+ key)
                (default (JSON_stringify E) (serialize opts))
                (default (JSON_parse E) (deserialize opts)) opts None).
  set (w0 := set_channel_objs (channel_objs w ++ [ch0]) w1).
  set (w2 := match restored E key opts (localStorage w0) with
             | Some v => set_channel_objs (alter (with_value v) c (channel_objs w0)) w0
             | None => w0
             end).
  assert (Hch2 : exists ch2, channel_objs w2 !! c = Some ch2 /\
                             c_key ch2 = key /\ c_subscribers ch2 = []).
  { unfold w2. destruct (restored E key opts (localStorage w0)); simpl.
    - rewrite list_lookup_alter_eq, lookup_app_r, Nat.sub_diag by (unfold c; lia).
      simpl. eauto.
    - rewrite lookup_app_r, Nat.sub_diag by (unfold c; lia). simpl. eauto. }
  destruct Hch2 as (ch2 & Hc2 & Hkey2 & Hsub2).
  assert (Hobj2 : transport_objs w2 = transport_objs w1)
    by (unfold w2; destruct (restored E key opts (localStorage w0)); reflexivity).
  assert (Hls2 : localStorage w2 = localStorage w)
    by (unfold w2; destruct (restored E key opts (localStorage w0)); simpl; exact Hl1).
  assert (Htr2 : trace w2 = trace w)
    by (unfold w2; destruct (restored E key opts (localStorage w0)); simpl; exact Ht1).
  set (w3 := set_transport_objs
               (alter (fun x => with_listeners (set_add (LChan c) (t_listeners x)) x) t
                  (transport_objs w2)) w2).
  set (v := get_prop "value" msg).
  set (w4 := set_trace ((trace w3 ++ [EvListener t (LChan c) msg])
                          ++ map (fun fn => EvSub c fn v) (c_subscribers ch2))
               (set_localStorage (persist_ls E ch2 v (localStorage w3))
                  (set_channel_objs (alter (with_value v) c (channel_objs w3)) w3))).
  assert (Hsub : transport_subscribe E t (LChan c) w2 = (Ret (UDelete t (LChan c)), w4)).
  { unfold transport_subscribe. erewrite bind_ret_eq by reflexivity.
    rewrite Hobj2, Hobj, Hkd, Hw. erewrite bind_ret_eq by reflexivity. fold w3.
    assert (Hread : try_
              (let! stored := localStorage_getItem E (slot_of (t_name tr)) in
               match stored with
               | Some text0 =>
                   if truthy_str text0
                   then let! msg0 := lift (JSON_parse E text0) in
                        if well_formed msg0 then call_listener E t (LChan c) msg0 else ret tt
                   else ret tt
               | None => ret tt
               end) w3 = (Ret tt, w4)).
    { unfold try_, try_catch. unfold bind at 1. unfold localStorage_getItem.
      rewrite Hname, Hget. change (localStorage w3) with (localStorage w2).
      rewrite Hls2, Hslot, Htext. unfold bind at 1, lift. rewrite Hp, Hwf.
      simpl. unfold bind at 1. unfold emit, modify. simpl.
      rewrite (channel_listener_accept E c ch2 msg); simpl; auto.
      - rewrite Hk, Hkey2. apply strict_eq_str_refl.
      - apply is_undefined_false, Hv. }
    erewrite bind_ret_eq by exact Hread. reflexivity. }
  exists c. eexists. split.
  { unfold new_CrossTabChannel. erewrite bind_ret_eq by exact Hg.
    erewrite bind_ret_eq by reflexivity. rewrite Hc1. fold c ch0 w0.
    erewrite bind_ret_eq by apply restore_persisted_spec. fold w2.
    erewrite bind_ret_eq by exact Hsub.
    erewrite bind_ret_eq by reflexivity. reflexivity. }
  split.
  - unfold getValue, get. simpl. rewrite !list_lookup_alter_eq, Hc2. reflexivity.
  - unfold new_events. simpl. rewrite Hsub2. simpl. rewrite app_nil_r, Htr2.
    rewrite drop_app_length. reflexivity.
Qed.

(** ** Consumers that call back *)

Arguments Live.step : simpl never.

Lemma live_bind_ret {A B} (m : Live.LM A) (k : A -> Live.LM B) a s s' :
  m s = Some (Ret a, s') -> Live.bind m k s = k a s'.
Proof. intros H. unfold Live.bind. rewrite H. reflexivity. Qed.

Lemma sync_loop_kept w w' l :
  (forall c, from_option c_subscribers [] (channel_objs w' !! c)
             = from_option c_subscribers [] (channel_objs w !! c)) ->
  (forall t, from_option t_listeners [] (transport_objs w' !! t)
             = from_option t_listeners [] (transport_objs w !! t)) ->
  Live.sync_loop w w' l = l.
Proof.
  intros Hc Ht. destruct l as [c p|t p]; simpl; unfold Live.sync_pending.
  - rewrite Hc. destruct (decide _); [reflexivity|contradiction].
  - rewrite Ht. destruct (decide _); [reflexivity|contradiction].
Qed.

(** A step that changes no set leaves the loops alone. *)
Lemma step_kept {A} (m : M A) s :
  (forall c, from_option c_subscribers [] (channel_objs (snd (m (Live.world s))) !! c)
             = from_option c_subscribers [] (channel_objs (Live.world s) !! c)) ->
  (forall t, from_option t_listeners [] (transport_objs (snd (m (Live.world s))) !! t)
             = from_option t_listeners [] (transport_objs (Live.world s) !! t)) ->
  Live.step m s
  = Some (fst (m (Live.world s)), Live.mkState (snd (m (Live.world s))) (Live.loops s)).
Proof.
  intros Hc Ht. unfold Live.step. destruct (m (Live.world s)) as [r w'] eqn:Hm. simpl in *.
  f_equal. f_equal. f_equal.
  induction (Live.loops s) as [|l ls IH]; simpl; [reflexivity|].
  rewrite IH, (sync_loop_kept _ _ l Hc Ht). reflexivity.
Qed.

Lemma step_idle {A} (m : M A) w :
  Live.step m (Live.idle w) = Some (fst (m w), Live.idle (snd (m w))).
Proof. unfold Live.step, Live.idle. simpl. destruct (m w); reflexivity. Qed.

Lemma step_emit e w ls :
  Live.step (emit e) (Live.mkState w ls)
  = Some (Ret tt, Live.mkState (set_trace (trace w ++ [e]) w) ls).
Proof. rewrite step_kept; [reflexivity|intros; reflexivity|intros; reflexivity]. Qed.

Lemma step_result {A} (m : M A) s r s' :
  Live.step m s = Some (r, s') ->
  r = fst (m (Live.world s)) /\ Live.world s' = snd (m (Live.world s)) /\
  Live.loops s' = map (Live.sync_loop (Live.world s) (Live.world s')) (Live.loops s).
Proof.
  unfold Live.step.
  destruct (m (Live.world s)) as [r0 w']. intros H. injection H as <- <-. auto.
Qed.

Opaque Live.step.

Section Quiet.
Variable E : Env.
Variable K : Live.Consumer.

(** A callback that makes no call returns or throws as [cb_throws] says. *)
Lemma consumer_code_quiet fuel fn v s :
  K fn v (Live.world s) = [] ->
  Live.consumer_code E K (S fuel) fn v s
  = Some (if cb_throws E fn v then Exn else Ret tt, s).
Proof.
  intros Hq. simpl. unfold Live.bind, Live.get. rewrite Hq. simpl.
  destruct (cb_throws E fn v); reflexivity.
Qed.

Lemma walk_subscribers_quiet code c v l : forall n w ls,
  (forall fn s, fn ∈ l ->
     code fn v s = Some (if cb_throws E fn v then Exn else Ret tt, s)) ->
  (length l <= n)%nat ->
  Live.walk_subscribers code n c v (Live.mkState w (Live.SubLoop c l :: ls))
  = Some (Ret tt,
          Live.mkState (set_trace (trace w ++ map (fun fn => EvSub c fn v) l) w)
            (Live.SubLoop c [] :: ls)).
Proof.
  induction l as [|fn l IH]; intros n w ls Hq Hn.
  - destruct n; simpl; rewrite app_nil_r, set_trace_id; reflexivity.
  - destruct n as [|n]; [simpl in Hn; lia|].
    cbn [Live.walk_subscribers]. unfold Live.bind at 1. unfold Live.next_subscriber at 1.
    cbn [Live.loops Live.world].
    unfold Live.bind at 1. unfold Live.try_, Live.try_catch, Live.call_callback.
    unfold Live.bind at 1. rewrite step_emit.
    rewrite Hq by left.
    assert (Hrest : Live.walk_subscribers code n c v
              (Live.mkState (set_trace (trace w ++ [EvSub c fn v]) w) (Live.SubLoop c l :: ls))
            = Some (Ret tt,
                    Live.mkState
                      (set_trace (trace w ++ map (fun fn => EvSub c fn v) (fn :: l)) w)
                      (Live.SubLoop c [] :: ls))).
    { rewrite IH; [|intros ? ? ?; apply Hq; right; assumption|simpl in Hn; lia].
      simpl. rewrite <- app_assoc. reflexivity. }
    destruct (cb_throws E fn v); exact Hrest.
Qed.

Lemma notify_subscribers_quiet code fuel c v w ls :
  (forall fn s, fn ∈ from_option c_subscribers [] (channel_objs w !! c) ->
     code fn v s = Some (if cb_throws E fn v then Exn else Ret tt, s)) ->
  (length (from_option c_subscribers [] (channel_objs w !! c)) <= fuel)%nat ->
  Live.notify_subscribers code fuel c v (Live.mkState w ls)
  = Some (Ret tt, Live.mkState (snd (notify_subscribers E c v w)) ls).
Proof.
  intros Hq Hn. unfold Live.notify_subscribers.
  unfold Live.bind at 1. unfold Live.push at 1. cbn [Live.world Live.loops].
  unfold Live.bind at 1.
  rewrite (walk_subscribers_quiet code c v _ fuel w ls Hq Hn).
  rewrite notify_subscribers_spec. reflexivity.
Qed.

(** Publishing one's own envelope calls nobody, as in [transport_publish_own]. *)
Lemma live_publish_own code fuel t v k id ts s :
  cached_id E id (Live.world s) ->
  Live.transport_publish E code fuel t (envelope v k id ts) s
  = Some (Ret tt,
          Live.mkState (snd (transport_publish E t (envelope v k id ts) (Live.world s)))
            (Live.loops s)).
Proof.
  intros Hc. rewrite (transport_publish_own E t v k id ts _ Hc). simpl.
  destruct s as [w ls]. simpl in *.
  unfold Live.transport_publish, publish_ls, Live.bind, Live.get. simpl.
  destruct (transport_objs w !! t) as [tr|] eqn:Ht; simpl.
  2:{ rewrite set_localStorage_id. reflexivity. }
  destruct (t_kind tr); simpl.
  - rewrite set_localStorage_id. reflexivity.
  - rewrite set_localStorage_id.
    unfold Live.try_, Live.try_catch, Live.bind.
    rewrite step_kept by (intros; reflexivity). simpl.
    unfold Live.postMessage, Live.bind, Live.get. simpl. rewrite Ht. simpl.
    destruct (t_closed tr); simpl; [reflexivity|].
    destruct (bc_post_throws E _); simpl; [reflexivity|].
    destruct (bc_echo E); simpl; [|reflexivity].
    unfold Live.onmessage, Live.deliver. destruct (well_formed _); [|reflexivity].
    assert (Hstep : Live.step (getTabId E) (Live.mkState w ls)
                    = Some (Ret id, Live.mkState w ls)).
    { rewrite step_kept; cbn [Live.world Live.loops]; rewrite (cached_getTabId E id w Hc);
        try (intros; reflexivity). }
    unfold Live.bind. rewrite Hstep.
    rewrite get_prop_envelope_tabId, strict_eq_str_refl. reflexivity.
  - destruct (has_window E); simpl.
    2:{ rewrite set_localStorage_id. reflexivity. }
    unfold Live.try_, Live.try_catch, Live.bind.
    rewrite step_kept by (intros; reflexivity). simpl.
    rewrite step_kept by (intros; reflexivity). simpl.
    unfold lift. destruct (JSON_stringify E _) as [text|]; simpl.
    2:{ rewrite set_localStorage_id. reflexivity. }
    rewrite step_kept;
      unfold localStorage_setItem; simpl;
      destruct (ls_set_throws E _ _ _); simpl; try (intros; reflexivity).
    rewrite set_localStorage_id. reflexivity.
Qed.

Lemma subscribers_alter g c (l : list Channel) c0 :
  (forall x, c_subscribers (g x) = c_subscribers x) ->
  from_option c_subscribers [] (alter g c l !! c0) = from_option c_subscribers [] (l !! c0).
Proof.
  intros Hg. destruct (decide (c0 = c)) as [->|Hne].
  - rewrite list_lookup_alter_eq. destruct (l !! c); simpl; auto.
  - rewrite list_lookup_alter_ne by congruence. reflexivity.
Qed.

(** [setValue] up to the dispatch: the steps before it call nobody. *)
Lemma live_setValue_unfold code fuel c ch v s :
  channel_objs (Live.world s) !! c = Some ch -> is_undefined v = false ->
  exists w3,
    Live.setValue E code fuel c v s
    = Live.notify_subscribers code fuel c v (Live.mkState w3 (Live.loops s)) /\
    channel_objs w3 !! c = Some (with_value v ch) /\
    trace w3 = trace (Live.world s) /\
    setValue E c v (Live.world s) = notify_subscribers E c v w3.
Proof.
  destruct s as [w ls]. cbn [Live.world Live.loops]. intros Hc Hv.
  destruct (setValue_spec E c ch v w Hc Hv) as (id & T0 & S0 & Hg & Hcid & Hsv).
  cbv zeta in Hg, Hcid, Hsv.
  set (w1 := set_localStorage (persist_ls E ch v (localStorage w))
               (set_channel_objs (alter (with_value v) c (channel_objs w)) w)) in *.
  set (w2 := set_sessionStorage S0 (set_tabId T0 w1)) in *.
  set (w3 := set_localStorage
               (publish_ls E (transport_objs w !! c_transport ch)
                  (envelope v (c_key ch) id (now w)) (localStorage w1)) w2) in *.
  exists w3. split; [|split; [|split]].
  - unfold Live.setValue.
    unfold Live.bind at 1. unfold Live.get at 1. cbn [Live.world]. rewrite Hc, Hv.
    unfold Live.bind at 1.
    rewrite step_kept; cbn [Live.world Live.loops]; simpl;
      [|intros; apply subscribers_alter; reflexivity|intros; reflexivity].
    unfold Live.bind at 1.
    rewrite step_kept; cbn [Live.world Live.loops]; rewrite persist_value_spec; simpl;
      [|intros; reflexivity|intros; reflexivity].
    fold w1.
    unfold Live.bind at 1.
    rewrite step_kept; cbn [Live.world Live.loops]; rewrite Hg; simpl;
      [|intros; reflexivity|intros; reflexivity].
    unfold Live.bind at 1.
    rewrite step_kept; cbn [Live.world Live.loops]; simpl;
      [|intros; reflexivity|intros; reflexivity].
    unfold Live.bind at 1.
    fold (envelope v (c_key ch) id (now w)).
    rewrite (live_publish_own code fuel _ _ _ id _ (Live.mkState w2 ls) Hcid).
    cbn [Live.world Live.loops].
    rewrite (transport_publish_own E _ _ _ id _ w2 Hcid). simpl. reflexivity.
  - simpl. rewrite list_lookup_alter_eq, Hc. reflexivity.
  - reflexivity.
  - rewrite Hsv, notify_subscribers_spec. simpl.
    rewrite list_lookup_alter_eq, Hc. reflexivity.
Qed.

(** Under callbacks that make no call, [setValue] is the [setValue] of the
    module above. *)
Lemma live_setValue_quiet fuel c ch v s :
  channel_objs (Live.world s) !! c = Some ch ->
  quiet K (c_subscribers ch) v ->
  (length (c_subscribers ch) <= S fuel)%nat ->
  Live.exec E K (S fuel) (ASetValue c v) s
  = Some (Ret tt, Live.mkState (snd (setValue E c v (Live.world s))) (Live.loops s)).
Proof.
  intros Hc Hq Hn. unfold Live.exec, Live.perform.
  destruct (is_undefined v) eqn:Hv.
  { destruct v; try discriminate. rewrite setValue_undefined.
    unfold Live.setValue, Live.bind, Live.get. rewrite Hc. destruct s; reflexivity. }
  destruct (live_setValue_unfold (Live.consumer_code E K (S fuel)) (S fuel) c ch v s Hc Hv)
    as (w3 & Hl & Hc3 & _ & Hb).
  rewrite Hl, Hb. apply notify_subscribers_quiet; rewrite Hc3; simpl.
  - intros fn s0 Hin. apply consumer_code_quiet, Hq, Hin.
  - exact Hn.
Qed.
End Quiet.

(** *** Rules for code that may call consumer code *)

Section LiveRules.
Context (R : relation Live.State) `{!PreOrder R}.

Lemma lframe_ret {A} (a : A) : lframe R (Live.ret a).
Proof. intros s r s' H. injection H as _ <-. reflexivity. Qed.

Lemma lframe_throw {A} : lframe R (@Live.throw A).
Proof. intros s r s' H. injection H as _ <-. reflexivity. Qed.

Lemma lframe_out_of_fuel {A} : lframe R (@Live.out_of_fuel A).
Proof. intros s r s' H. discriminate. Qed.

Lemma lframe_get {A} (f : World -> A) : lframe R (Live.get f).
Proof. intros s r s' H. injection H as _ <-. reflexivity. Qed.

Lemma lframe_bind {A B} (m : Live.LM A) (k : A -> Live.LM B) :
  lframe R m -> (forall a, lframe R (k a)) -> lframe R (Live.bind m k).
Proof.
  intros Hm Hk s r s' H. unfold Live.bind in H.
  destruct (m s) as [[[a|] s1]|] eqn:Hs; [| |discriminate].
  - etransitivity; [exact (Hm _ _ _ Hs)|exact (Hk _ _ _ _ H)].
  - injection H as _ <-. exact (Hm _ _ _ Hs).
Qed.

Lemma lframe_try_catch {A} (m h : Live.LM A) :
  lframe R m -> lframe R h -> lframe R (Live.try_catch m h).
Proof.
  intros Hm Hh s r s' H. unfold Live.try_catch in H.
  destruct (m s) as [[[a|] s1]|] eqn:Hs; [| |discriminate].
  - injection H as _ <-. exact (Hm _ _ _ Hs).
  - etransitivity; [exact (Hm _ _ _ Hs)|exact (Hh _ _ _ H)].
Qed.

Lemma lframe_try (m : Live.LM unit) : lframe R m -> lframe R (Live.try_ m).
Proof. intros Hm. apply lframe_try_catch; [exact Hm|apply lframe_ret]. Qed.

Lemma lframe_for_each {A} (f : A -> Live.LM unit) (l : list A) :
  (forall x, x ∈ l -> lframe R (f x)) -> lframe R (Live.for_each f l).
Proof.
  induction l as [|x l IH]; intros Hf; simpl.
  - apply lframe_ret.
  - apply lframe_bind; [apply Hf; left|intros _; apply IH].
    intros y Hy. apply Hf. right. exact Hy.
Qed.
End LiveRules.

Ltac lframe_step :=
  match goal with
  | |- lframe ?R (Live.ret _) => apply (lframe_ret R)
  | |- lframe ?R Live.throw => apply (lframe_throw R)
  | |- lframe ?R Live.out_of_fuel => apply (lframe_out_of_fuel R)
  | |- lframe ?R (Live.get _) => apply (lframe_get R)
  | |- lframe ?R (Live.try_ _) => apply (lframe_try R)
  | |- lframe ?R (Live.try_catch _ _) => apply (lframe_try_catch R)
  | |- lframe ?R (Live.bind _ _) => apply (lframe_bind R); [|intros ?]
  | |- lframe _ (match ?x with _ => _ end) => destruct x eqn:?
  | |- lframe _ (if ?b then _ else _) => destruct b eqn:?
  end.

Lemma live_bind_cases {A B} (m : Live.LM A) (k : A -> Live.LM B) s r s' :
  Live.bind m k s = Some (r, s') ->
  (exists a s1, m s = Some (Ret a, s1) /\ k a s1 = Some (r, s')) \/
  (m s = Some (Exn, s') /\ r = Exn).
Proof.
  unfold Live.bind. destruct (m s) as [[[a|] s1]|]; [| |discriminate].
  - intros H. left. eauto.
  - intros H. injection H as <- <-. right. auto.
Qed.

(** *** Callbacks that keep their hands off a channel *)

Lemma loop_rel_refl c l : loop_rel c l l.
Proof. destruct l; simpl; auto. Qed.

Lemma loop_rel_trans c l1 l2 l3 : loop_rel c l1 l2 -> loop_rel c l2 l3 -> loop_rel c l1 l3.
Proof.
  destruct l1, l2, l3; simpl; try tauto; try congruence.
  intros [-> H1] [-> H2]. split; [reflexivity|]. intros Hc. rewrite H2, H1; auto.
Qed.

Lemma loops_rel_refl c ls : Forall2 (loop_rel c) ls ls.
Proof. induction ls; constructor; auto using loop_rel_refl. Qed.

Lemma loops_rel_trans c ls1 : forall ls2 ls3,
  Forall2 (loop_rel c) ls1 ls2 -> Forall2 (loop_rel c) ls2 ls3 -> Forall2 (loop_rel c) ls1 ls3.
Proof.
  induction ls1 as [|l ls1 IH]; intros ls2 ls3 H12 H23.
  - inversion H12; subst. inversion H23; subst. constructor.
  - inversion H12; subst. inversion H23; subst. constructor; eauto using loop_rel_trans.
Qed.

#[global] Instance aside_preorder c ch : PreOrder (aside c ch).
Proof.
  split.
  - intros s Hc. repeat split; auto using loops_rel_refl.
  - intros s1 s2 s3 H12 H23 Hc. destruct (H12 Hc) as (Hc2 & Ht2 & Hl2).
    destruct (H23 Hc2) as (Hc3 & Ht3 & Hl3).
    repeat split; [exact Hc3|congruence|eauto using loops_rel_trans].
Qed.

Section HandsOff.
Variable E : Env.
Variable c : nat.
Variable ch : Channel.

Lemma untouched_update_channel c' g : c' <> c -> frame (untouched c ch) (update_channel c' g).
Proof.
  intros Hne w Hc. simpl. rewrite list_lookup_alter_ne by exact Hne. auto.
Qed.

Lemma untouched_alloc_channel x w :
  channel_objs w !! c = Some ch ->
  fst (alloc_channel x w) = Ret (length (channel_objs w)) /\
  length (channel_objs w) <> c /\ untouched c ch w (snd (alloc_channel x w)).
Proof.
  intros Hc. pose proof (lookup_lt_Some _ _ _ Hc) as Hlt. simpl.
  split; [reflexivity|split; [lia|]]. intros _. simpl.
  rewrite lookup_app_l by exact Hlt. auto.
Qed.

(** A step of the module that leaves the channel alone leaves its loops
    alone. *)
Lemma aside_step {A} (m : M A) : frame (untouched c ch) m -> lframe (aside c ch) (Live.step m).
Proof.
  intros Hm s r s' H Hc. destruct (step_result m s r s' H) as (_ & Hw & Hl).
  destruct (Hm (Live.world s) Hc) as [Hc' Ht]. rewrite <- Hw in Hc', Ht.
  repeat split; [exact Hc'|exact Ht|].
  rewrite Hl. clear Hl H. induction (Live.loops s) as [|l ls IH]; simpl; constructor; [|exact IH].
  destruct l as [a p|t p]; simpl; [|reflexivity].
  split; [reflexivity|]. intros ->. rewrite Hc, Hc'. simpl.
  unfold Live.sync_pending. destruct (decide _); [reflexivity|contradiction].
Qed.

Ltac untouched_leaf :=
  first
    [ apply (frame_getTabId E (untouched c ch) (is_sub_of c) (untouched_objs c ch))
    | apply (frame_persist_value E (untouched c ch) (is_sub_of c) (untouched_objs c ch))
    | apply (frame_getTransport E (untouched c ch) (is_sub_of c) (untouched_objs c ch))
    | apply (frame_releaseTransport E (untouched c ch) (is_sub_of c) (untouched_objs c ch));
      intros; reflexivity
    | apply (frame_call_unsubscribe (untouched c ch) (is_sub_of c) (untouched_objs c ch))
    | apply (frame_ls_set E (untouched c ch) (is_sub_of c) (untouched_objs c ch))
    | apply (frame_ls_get E (untouched c ch) (is_sub_of c) (untouched_objs c ch))
    | apply (frame_update_transport (untouched c ch) (is_sub_of c) (untouched_objs c ch))
    | apply (frame_emit (untouched c ch) (is_sub_of c) (untouched_objs c ch)); reflexivity
    | apply (frame_call_callback E (untouched c ch) (is_sub_of c) (untouched_objs c ch));
      reflexivity
    | apply untouched_update_channel; congruence
    | solve [apply (frame_same (untouched c ch) (is_sub_of c) (untouched_objs c ch));
             intros ?; simpl; auto] ].

Variable code : nat -> JsVal -> Live.LM unit.
Variable fuel : nat.
Hypothesis Hcode : forall fn v, lframe (aside c ch) (code fn v).

Lemma aside_top_loop s s' a p ls :
  channel_objs (Live.world s) !! c = Some ch -> aside c ch s s' ->
  Live.loops s = Live.SubLoop a p :: ls ->
  exists p' ls', Live.loops s' = Live.SubLoop a p' :: ls' /\
    (a = c -> p' = p) /\ Forall2 (loop_rel c) ls ls'.
Proof.
  intros Hc Ha Hl. destruct (Ha Hc) as (_ & _ & Hls). rewrite Hl in Hls.
  inversion Hls as [|l0 l' ls0 ls' Hr Hrest]; subst.
  destruct l' as [a' p'|]; simpl in Hr; [|contradiction].
  destruct Hr as [<- Hp]. eauto.
Qed.

Lemma live_try_returns (m : Live.LM unit) s r s' :
  Live.try_ m s = Some (r, s') -> r = Ret tt.
Proof.
  unfold Live.try_, Live.try_catch, Live.ret.
  destruct (m s) as [[[[]|] s1]|]; intros H; try discriminate; injection H as <- _; reflexivity.
Qed.

Lemma aside_call_callback ev fn v :
  is_sub_of c ev = false -> lframe (aside c ch) (Live.call_callback code ev fn v).
Proof.
  intros He. unfold Live.call_callback. lframe_step; [|apply Hcode].
  apply aside_step, (frame_emit (untouched c ch) (is_sub_of c) (untouched_objs c ch)), He.
Qed.

Lemma is_sub_of_other c' fn v : c' <> c -> is_sub_of c (EvSub c' fn v) = false.
Proof. intros Hne. simpl. apply Nat.eqb_neq. exact Hne. Qed.

(** A loop over the subscribers of another channel. *)
Lemma aside_walk_subscribers c' v : c' <> c -> forall n s r s',
  (exists p ls, Live.loops s = Live.SubLoop c' p :: ls) ->
  channel_objs (Live.world s) !! c = Some ch ->
  Live.walk_subscribers code n c' v s = Some (r, s') ->
  r = Ret tt /\ aside c ch s s'.
Proof.
  intros Hne. induction n as [|n IH]; intros s r s' (p & ls & Hl) Hc H.
  - simpl in H. unfold Live.bind, Live.next_subscriber in H. rewrite Hl in H.
    destruct p; simpl in H; [|discriminate]. injection H as <- <-. split; reflexivity.
  - cbn [Live.walk_subscribers] in H. unfold Live.bind at 1 in H.
    unfold Live.next_subscriber in H. rewrite Hl in H.
    destruct p as [|fn p]; [injection H as <- <-; split; reflexivity|].
    set (s1 := Live.mkState (Live.world s) (Live.SubLoop c' p :: ls)) in H.
    assert (H01 : aside c ch s s1).
    { intros _. repeat split; [exact Hc|]. rewrite Hl. simpl. constructor.
      - simpl. split; [reflexivity|]. intros ->. contradiction.
      - apply loops_rel_refl. }
    apply live_bind_cases in H as [(a & s2 & H1 & H2)|(H1 & _)].
    2:{ apply live_try_returns in H1. discriminate. }
    assert (H12 : aside c ch s1 s2).
    { revert H1. apply (lframe_try (aside c ch)), aside_call_callback, is_sub_of_other, Hne. }
    destruct (aside_top_loop s1 s2 c' p ls Hc H12 eq_refl) as (p2 & ls2 & Hl2 & _).
    destruct (H12 Hc) as (Hc2 & _).
    destruct (IH s2 r s' (ex_intro _ p2 (ex_intro _ ls2 Hl2)) Hc2 H2) as [-> H2'].
    split; [reflexivity|]. etransitivity; [exact H01|]. etransitivity; eassumption.
Qed.

Lemma aside_notify_subscribers c' v :
  c' <> c -> lframe (aside c ch) (Live.notify_subscribers code fuel c' v).
Proof.
  intros Hne s r s' H Hc. unfold Live.notify_subscribers in H.
  unfold Live.bind at 1 in H. unfold Live.push at 1 in H.
  set (s1 := Live.mkState (Live.world s) _) in H.
  apply live_bind_cases in H as [([] & s2 & H1 & H2)|(H1 & _)].
  2:{ apply aside_walk_subscribers in H1 as [? _]; [discriminate|exact Hne|simpl; eauto|exact Hc]. }
  apply aside_walk_subscribers in H1 as [_ H12]; [|exact Hne|simpl; eauto|exact Hc].
  destruct (aside_top_loop s1 s2 _ _ _ Hc H12 eq_refl) as (p2 & ls2 & Hl2 & _ & Hls).
  destruct (H12 Hc) as (Hc2 & Ht2 & _).
  unfold Live.pop in H2. injection H2 as _ <-. rewrite Hl2. simpl.
  repeat split; [exact Hc2|exact Ht2|exact Hls].
Qed.

Ltac lframes :=
  repeat first
    [ lframe_step
    | apply aside_notify_subscribers; congruence
    | apply aside_call_callback; apply is_sub_of_other; congruence
    | apply aside_step; solve [frames untouched_leaf] ].

Lemma aside_channel_listener c' msg :
  c' <> c -> lframe (aside c ch) (Live.channel_listener E code fuel c' msg).
Proof. intros Hne. unfold Live.channel_listener. lframes. Qed.

Lemma aside_call_listener t l msg :
  l <> LChan c -> lframe (aside c ch) (Live.call_listener E code fuel t l msg).
Proof.
  intros Hl. destruct l as [c'|f]; simpl.
  - lframes. apply aside_channel_listener. congruence.
  - unfold Live.call_external. lframes.
Qed.

Lemma aside_transport_subscribe t l :
  l <> LChan c -> lframe (aside c ch) (Live.transport_subscribe E code fuel t l).
Proof.
  intros Hl. unfold Live.transport_subscribe. lframes; apply aside_call_listener, Hl.
Qed.

Lemma aside_bind_post {A B} (Q : A -> Live.State -> Prop)
    (m : Live.LM A) (k : A -> Live.LM B) :
  lframe (aside c ch) m ->
  (forall s a s1, channel_objs (Live.world s) !! c = Some ch ->
     m s = Some (Ret a, s1) -> Q a s1) ->
  (forall a s r s', Q a s -> k a s = Some (r, s') -> aside c ch s s') ->
  lframe (aside c ch) (Live.bind m k).
Proof.
  intros Hm HQ Hk s r s' H. apply live_bind_cases in H as [(a & s1 & H1 & H2)|(H1 & _)].
  - intros Hc. pose proof (Hk a s1 r s' (HQ s a s1 Hc H1) H2) as H12.
    revert Hc. change (aside c ch s s'). etransitivity; [exact (Hm _ _ _ H1)|exact H12].
  - exact (Hm _ _ _ H1).
Qed.

(** The constructor makes a channel other than [c]. *)
Lemma aside_new key init opts :
  lframe (aside c ch) (Live.new_CrossTabChannel E code fuel key init opts).
Proof.
  unfold Live.new_CrossTabChannel. lframe_step; [lframes|].
  apply (aside_bind_post (fun c' _ => c' <> c)).
  - apply aside_step. intros w Hc.
    exact (proj2 (proj2 (untouched_alloc_channel _ w Hc)) Hc).
  - intros s c' s1 Hc H. apply step_result in H as (H & _).
    destruct (untouched_alloc_channel
                (mkChannel key init [] a ("xts-" +:+ key)
                   (default (JSON_stringify E) (serialize opts))
                   (default (JSON_parse E) (deserialize opts)) opts None)
                (Live.world s) Hc) as (Hr & Hne & _).
    rewrite Hr in H. injection H as ->. exact Hne.
  - intros c' s r s' Hne. revert s r s'.
    change (lframe (aside c ch)
      (Live.bind (Live.step (restore_persisted E c' key opts))
         (fun _ => Live.bind (Live.transport_subscribe E code fuel a (LChan c'))
            (fun u => Live.bind (Live.step (update_channel c' (with_unsubscribe (Some u))))
               (fun _ => Live.ret c'))))).
    lframes. apply aside_transport_subscribe. congruence.
Qed.

Lemma aside_publish_own t v k id ts s r s' :
  cached_id E id (Live.world s) ->
  Live.transport_publish E code fuel t (envelope v k id ts) s = Some (r, s') ->
  aside c ch s s'.
Proof.
  intros Hid H. rewrite (live_publish_own E code fuel t v k id ts s Hid) in H.
  injection H as _ <-. rewrite (transport_publish_own E t v k id ts _ Hid). simpl.
  intros Hc. repeat split; [exact Hc|apply loops_rel_refl].
Qed.

Lemma aside_setValue c' v :
  c' <> c -> lframe (aside c ch) (Live.setValue E code fuel c' v).
Proof.
  intros Hne. unfold Live.setValue. lframe_step; [lframes|].
  destruct a as [ch'|]; [|lframes]. destruct (is_undefined v); [lframes|].
  lframe_step; [lframes|]. lframe_step; [lframes|].
  apply (aside_bind_post (fun id s => cached_id E id (Live.world s))).
  - lframes.
  - intros s id s1 _ H. apply step_result in H as (H & Hw & _).
    destruct (getTabId_spec E (Live.world s)) as (id' & T0 & S0 & Hg & Hcid).
    rewrite Hg in H, Hw. simpl in H, Hw. injection H as ->. rewrite Hw. exact Hcid.
  - intros id s r s' Hid H.
    apply live_bind_cases in H as [(ts & s1 & H1 & H2)|(H1 & _)].
    2:{ apply step_result in H1 as (H1 & _). discriminate. }
    assert (Hs1 : s1 = s).
    { rewrite step_kept in H1 by (intros; reflexivity). simpl in H1.
      injection H1 as _ <-. destruct s; reflexivity. }
    subst s1.
    apply live_bind_cases in H2 as [([] & s2 & H2 & H3)|(H2 & _)].
    + etransitivity; [exact (aside_publish_own _ _ _ _ _ _ _ _ Hid H2)|].
      revert H3. apply aside_notify_subscribers, Hne.
    + exact (aside_publish_own _ _ _ _ _ _ _ _ Hid H2).
Qed.

Lemma aside_subscribe c' fn :
  c' <> c -> lframe (aside c ch) (Live.subscribe code c' fn).
Proof. intros Hne. unfold Live.subscribe. lframes. Qed.

Lemma aside_unsubscribe c' fn : c' <> c -> lframe (aside c ch) (Live.unsubscribe c' fn).
Proof. intros Hne. unfold Live.unsubscribe. lframes. Qed.

Lemma aside_destroy c' : c' <> c -> lframe (aside c ch) (Live.destroy E c').
Proof. intros Hne. unfold Live.destroy. lframes. Qed.

Lemma aside_getValue c' : lframe (aside c ch) (Live.getValue c').
Proof. unfold Live.getValue. lframes. Qed.

(** Every call but [setValue], [subscribe], an unsubscribe function and
    [destroy] of channel [c]. *)
Lemma aside_call k : touches c k = false -> lframe (aside c ch) (Live.call E code fuel k).
Proof.
  destruct k as [key init opts|c'|c' v|c' fn|c' fn|c']; simpl; intros Hk;
    try (apply Nat.eqb_neq in Hk).
  - lframe_step; [apply aside_new|lframes].
  - lframe_step; [apply aside_getValue|lframes].
  - apply aside_setValue, Hk.
  - apply aside_subscribe, Hk.
  - apply aside_unsubscribe, Hk.
  - apply aside_destroy, Hk.
Qed.

End HandsOff.

(** The code of a callback that keeps its hands off [c]. *)
Lemma aside_consumer_code E K c ch :
  hands_off K c -> forall fuel fn v, lframe (aside c ch) (Live.consumer_code E K fuel fn v).
Proof.
  intros HK. induction fuel as [|fuel IH]; intros fn v; simpl.
  - apply (lframe_out_of_fuel (aside c ch)).
  - intros s r s' H. unfold Live.bind at 1 in H. unfold Live.get at 1 in H.
    revert H. apply (lframe_bind (aside c ch)).
    + apply (lframe_for_each (aside c ch)). intros k Hk.
      apply aside_call; [exact IH|]. exact (HK fn v _ k Hk).
    + intros _. destruct (cb_throws E fn v);
        [apply (lframe_throw (aside c ch))|apply (lframe_ret (aside c ch))].
Qed.

(** *** The dispatch of [setValue] under callbacks that call back *)

Section OwnLoop.
Variable E : Env.
Variable c : nat.
Variable ch : Channel.
Variable code : nat -> JsVal -> Live.LM unit.
Hypothesis Hcode : forall fn v, lframe (aside c ch) (code fn v).

(** The loop over the subscribers of [c], when no callback touches [c]:
    every entry is called, and the entries are those the loop started
    with. *)
Lemma own_walk_subscribers v l : forall n s ls r s',
  channel_objs (Live.world s) !! c = Some ch ->
  Live.loops s = Live.SubLoop c l :: ls ->
  Live.walk_subscribers code n c v s = Some (r, s') ->
  r = Ret tt /\
  channel_objs (Live.world s') !! c = Some ch /\
  (exists ls', Live.loops s' = Live.SubLoop c [] :: ls' /\ Forall2 (loop_rel c) ls ls') /\
  List.filter (is_sub_of c) (trace (Live.world s'))
  = List.filter (is_sub_of c) (trace (Live.world s)) ++ map (fun fn => EvSub c fn v) l.
Proof.
  induction l as [|fn l IH]; intros n s ls r s' Hc Hl H.
  - assert (H' : Some (Ret tt, s) = Some (r, s')).
    { rewrite <- H. destruct n; simpl; unfold Live.bind, Live.next_subscriber;
        rewrite Hl; reflexivity. }
    injection H' as <- <-. rewrite app_nil_r.
    repeat split; [exact Hc|]. exists ls. split; [exact Hl|apply loops_rel_refl].
  - destruct n as [|n].
    { simpl in H. unfold Live.bind, Live.next_subscriber in H. rewrite Hl in H. discriminate. }
    cbn [Live.walk_subscribers] in H. unfold Live.bind at 1 in H.
    unfold Live.next_subscriber in H. rewrite Hl in H.
    apply live_bind_cases in H as [(a & s2 & H1 & H2)|(H1 & _)].
    2:{ apply live_try_returns in H1. discriminate. }
    set (s1 := Live.mkState (set_trace (trace (Live.world s) ++ [EvSub c fn v]) (Live.world s))
                 (Live.SubLoop c l :: ls)).
    assert (H12 : aside c ch s1 s2).
    { unfold Live.try_, Live.try_catch, Live.call_callback in H1.
      unfold Live.bind at 1 in H1. rewrite step_emit in H1. fold s1 in H1.
      destruct (code fn v s1) as [[[[]|] s2']|] eqn:Hcd; try discriminate;
        injection H1 as _ <-; exact (Hcode fn v s1 _ _ Hcd). }
    destruct (H12 Hc) as (Hc2 & Ht2 & _).
    destruct (aside_top_loop c ch s1 s2 c l ls Hc H12 eq_refl) as (p2 & ls2 & Hl2 & Hp2 & Hls2).
    rewrite (Hp2 eq_refl) in Hl2.
    destruct (IH n s2 ls2 r s' Hc2 Hl2 H2) as (-> & Hc' & (ls' & Hl' & Hls') & Ht').
    repeat split; [exact Hc'| |].
    + exists ls'. split; [exact Hl'|eauto using loops_rel_trans].
    + rewrite Ht', Ht2. unfold s1. simpl. rewrite List.filter_app. simpl.
      rewrite Nat.eqb_refl, <- app_assoc. reflexivity.
Qed.

Lemma own_notify_subscribers fuel v s r s' :
  channel_objs (Live.world s) !! c = Some ch ->
  Live.notify_subscribers code fuel c v s = Some (r, s') ->
  r = Ret tt /\
  channel_objs (Live.world s') !! c = Some ch /\
  Forall2 (loop_rel c) (Live.loops s) (Live.loops s') /\
  List.filter (is_sub_of c) (trace (Live.world s'))
  = List.filter (is_sub_of c) (trace (Live.world s))
    ++ map (fun fn => EvSub c fn v) (c_subscribers ch).
Proof.
  intros Hc H. unfold Live.notify_subscribers in H.
  unfold Live.bind at 1 in H. unfold Live.push at 1 in H. rewrite Hc in H. simpl in H.
  apply live_bind_cases in H as [([] & s2 & H1 & H2)|(H1 & _)].
  - destruct (own_walk_subscribers v _ fuel (Live.mkState (Live.world s) _) (Live.loops s)
                _ _ Hc eq_refl H1) as (_ & Hc' & (ls' & Hl' & Hls') & Ht').
    unfold Live.pop in H2. injection H2 as <- <-. rewrite Hl'. simpl.
    repeat split; assumption.
  - destruct (own_walk_subscribers v _ fuel (Live.mkState (Live.world s) _) (Live.loops s)
                _ _ Hc eq_refl H1) as (Hr & _). discriminate.
Qed.
End OwnLoop.

(** [setValue] on a channel no callback touches. *)
Lemma live_setValue_hands_off E K fuel c ch v s r s' :
  channel_objs (Live.world s) !! c = Some ch ->
  v <> VUndef ->
  NoDup (c_subscribers ch) ->
  hands_off K c ->
  Live.exec E K fuel (ASetValue c v) s = Some (r, s') ->
  r = Ret tt /\
  Forall2 (loop_rel c) (Live.loops s) (Live.loops s') /\
  channel_objs (Live.world s') !! c = Some (with_value v ch) /\
  adopted c ch v (Live.world s) (Live.world s').
Proof.
  intros Hc Hv Hnd HK H. unfold Live.exec, Live.perform in H.
  destruct (live_setValue_unfold E (Live.consumer_code E K fuel) fuel c ch v s Hc
              (is_undefined_false v Hv)) as (w3 & Hl & Hc3 & Ht3 & _).
  rewrite Hl in H.
  destruct (own_notify_subscribers c (with_value v ch) (Live.consumer_code E K fuel)
              (aside_consumer_code E K c (with_value v ch) HK fuel)
              fuel v (Live.mkState w3 (Live.loops s)) r s' Hc3 H) as (-> & Hc' & Hls & Ht).
  cbn [Live.world Live.loops] in Hls, Ht. rewrite Ht3 in Ht. simpl in Ht.
  repeat split; [exact Hls|exact Hc'|unfold getValue, get; simpl; rewrite Hc'; reflexivity| |];
    intros fn Hfn;
    rewrite (calls_of_filter c fn (trace (Live.world s'))), Ht, calls_of_app,
      <- calls_of_filter.
  - rewrite calls_of_notify_once by assumption. reflexivity.
  - rewrite calls_of_notify_absent by assumption. apply app_nil_r.
Qed.


(** *** Witnesses and counterexamples for callbacks that call back *)

Lemma pair_channel_in_world : channel_objs pair_world !! 0%nat = Some pair_channel.
Proof. reflexivity. Qed.

Lemma pair_subscribers_distinct : NoDup (c_subscribers pair_channel).
Proof. apply (bool_decide_unpack _). vm_compute. reflexivity. Qed.

Lemma bystander_hands_off : hands_off bystander 0.
Proof.
  intros fn v w k Hk. unfold bystander in Hk. destruct (Nat.eqb fn 1).
  - apply elem_of_cons in Hk as [->|Hk]; [reflexivity|].
    apply elem_of_cons in Hk as [->|Hk]; [reflexivity|]. inversion Hk.
  - inversion Hk.
Qed.



(** ** The further scenarios *)

(** *** The hook's tests, replayed *)

(** "should return initial value" and "should update value": the mount
    calls [setState] with the initial value, and the setter reaches the
    callback of the call site. *)
Example test_hook_update :
  let mounted := snd (effect_mount browser_env 0 "test-key" (VStr "initial") 5 one_site) in
  let updated := snd (hook_setValue browser_env 0 (ArgValue (VStr "updated")) mounted) in
  setState_calls mounted = [(0%nat, VStr "initial")] /\
  trace (core updated) = [EvSub 0 5 (VStr "initial"); EvSub 0 5 (VStr "updated")].
Proof. vm_compute. split; reflexivity. Qed.

(** "should support functional updates" *)
Example test_hook_functional_update :
  let mounted := snd (effect_mount browser_env 0 "counter" (VNum 0) 5 one_site) in
  let incr v := match v with VNum n => Ret (VNum (n + 1)) | _ => Exn end in
  let once := snd (hook_setValue browser_env 0 (ArgUpdater incr) mounted) in
  let twice := snd (hook_setValue browser_env 0 (ArgUpdater incr) once) in
  fst (getValue 0 (core twice)) = Ret (VNum 2).
Proof. vm_compute. reflexivity. Qed.

(** "should isolate different keys" and "should use custom channel name" *)
Example test_hook_isolation :
  let other := Some (mkOptions (Some "channel2") false None None) in
  let sites := snd (use_refs other two_sites) in
  let h1 := snd (effect_mount browser_env 0 "key1" (VStr "value1") 5 sites) in
  let h2 := snd (effect_mount browser_env 1 "key2" (VStr "value2") 6 h1) in
  let h3 := snd (effect_mount browser_env 2 "key1" (VStr "value3") 7 h2) in
  let h4 := snd (hook_setValue browser_env 0 (ArgValue (VStr "updated1")) h3) in
  c_value <$> channel_objs (core h4) = [VStr "updated1"; VStr "value2"; VStr "value3"] /\
  new_events (core h3) (core h4) = [EvSub 0 5 (VStr "updated1")].
Proof. vm_compute. split; reflexivity. Qed.

(** "should cleanup on unmount" and "should handle setValue when
    channelRef.current is null": after the cleanup the registry is empty
    and the setter does nothing. *)
Example test_hook_cleanup :
  let mounted := effect_mount browser_env 0 "test-key" (VStr "initial") 5 one_site in
  let cleaned := snd (effect_cleanup browser_env (mkCleanup 0 "test-key" 0 5) (snd mounted)) in
  fst mounted = Ret (Some (mkCleanup 0 "test-key" 0 5)) /\
  channels cleaned = ∅ /\ refs cleaned = ∅ /\
  trace (core (snd (hook_setValue browser_env 0 (ArgValue (VStr "value")) cleaned)))
  = trace (core cleaned).
Proof. vm_compute. repeat split. Qed.

(** *** Witnesses *)

Lemma identity_survives_reload_witness :
  tabId (init_world 0) = None /\
  fst (getTabId browser_env (init_world 0)) = Ret "0-r4nd0m" /\
  tabId reloaded_world = None /\
  fst (getTabId browser_env reloaded_world) = Ret "0-r4nd0m".
Proof.
  split; [reflexivity|]. split; [reflexivity|]. split; [reflexivity|].
  apply (identity_survives_reload browser_env (init_world 0) reloaded_world "0-r4nd0m");
    first [reflexivity | intros; reflexivity].
Defined.

Lemma identity_never_changes_witness :
  fst (getTabId browser_env (init_world 0)) = Ret "0-r4nd0m" /\
  fst (getTabId browser_env
         (run browser_env
            [ANew "k" (VStr "a") default_options; AClock 50; ASetValue 0 (VStr "x")]
            identified_world))
  = Ret "0-r4nd0m".
Proof.
  split; [reflexivity|].
  exact (f_equal fst
           (identity_never_changes browser_env (init_world 0) "0-r4nd0m"
              [ANew "k" (VStr "a") default_options; AClock 50; ASetValue 0 (VStr "x")]
              eq_refl)).
Defined.

Lemma fresh_init t : fresh_module (init_world t).
Proof. split; reflexivity. Qed.


Lemma unsubscribed_callback_is_not_called_witness :
  channel_objs demo_world !! 0%nat = Some demo_channel /\
  VStr "x" <> VUndef /\
  calls_of 0 1
    (new_events (snd (unsubscribe 0 1 demo_world))
       (snd (setValue browser_env 0 (VStr "x") (snd (unsubscribe 0 1 demo_world)))))
  = [].
Proof.
  split; [reflexivity|]. split; [discriminate|].
  destruct (unsubscribed_callback_is_not_called browser_env demo_world 0 demo_channel 1
              (VStr "x") eq_refl) as (_ & Hset & _); [discriminate|].
  exact Hset.
Defined.

Lemma setValue_does_not_reach_sibling_witness :
  1%nat <> 0%nat /\
  channel_objs siblings_world !! 1%nat = Some sibling_channel /\
  c_key <$> channel_objs siblings_world !! 0%nat = Some (c_key sibling_channel) /\
  channel_objs (snd (setValue browser_env 0 (VStr "x") siblings_world)) !! 1%nat
  = Some sibling_channel /\
  sub_calls 1 (new_events siblings_world (snd (setValue browser_env 0 (VStr "x") siblings_world)))
  = [].
Proof.
  split; [discriminate|]. split; [reflexivity|]. split; [reflexivity|].
  destruct (setValue_does_not_reach_sibling browser_env siblings_world 0 1 sibling_channel
              (VStr "x")) as (Hobj & Hcalls & _); [discriminate|reflexivity|].
  split; [exact Hobj|exact Hcalls].
Defined.

Lemma elem_of_singleton_list {A} (x : A) : x ∈ [x].
Proof. apply elem_of_cons. left. reflexivity. Qed.

Lemma browser_no_fallback w :
  (forall t tr, transport_objs w !! t = Some tr -> t_kind tr <> TFallback) ->
  no_fallback browser_env w.
Proof. intros H. split; [intros n; discriminate|exact H]. Qed.

Lemma persist_world_native t tr :
  transport_objs persist_world !! t = Some tr -> t_kind tr <> TFallback.
Proof.
  change (transport_objs persist_world) with [mkTransport TNative "xts" [LChan 0] false].
  destruct t as [|t]; simpl; [intros [= <-]; discriminate|]. destruct t; discriminate.
Qed.

Lemma browser_storage_works : storage_works browser_env.
Proof. split; [reflexivity|]. split; intros; reflexivity. Qed.


Lemma world_with_native k text t tr :
  transport_objs (world_with k text) !! t = Some tr -> t_kind tr <> TFallback.
Proof. change (transport_objs (world_with k text)) with (@nil Transport). intros H. inversion H. Qed.

Lemma unusable_slot_keeps_initial_value_witness :
  no_fallback browser_env (world_with "xts-k" "   ") /\
  nothing_to_restore browser_env "k" persist_options (world_with "xts-k" "   ") /\
  exists b w',
    new_CrossTabChannel browser_env "k" (VStr "initial") persist_options
      (world_with "xts-k" "   ") = (Ret b, w') /\
    getValue b w' = (Ret (VStr "initial"), w').
Proof.
  pose proof (browser_no_fallback _ (world_with_native "xts-k" "   ")) as Hnf.
  assert (Hnone : nothing_to_restore browser_env "k" persist_options (world_with "xts-k" "   ")).
  { right. right. right. right. exists "   ". split; [reflexivity|].
    right. right. left. reflexivity. }
  split; [exact Hnf|]. split; [exact Hnone|].
  exact (unusable_slot_keeps_initial_value browser_env (world_with "xts-k" "   ") "k"
           (VStr "initial") persist_options Hnf Hnone).
Defined.

Lemma demo_registry_sound : registry_sound "xts" demo_world.
Proof.
  right. exists 0%nat, 1. split; [reflexivity|]. split; [eexists; reflexivity|].
  split; [reflexivity|lia].
Qed.

Lemma construct_then_destroy_restores_registry_witness :
  registry_sound (channel_name_of default_options) demo_world /\
  exists c w1,
    new_CrossTabChannel browser_env "j" (VStr "b") default_options demo_world = (Ret c, w1) /\
    transports (snd (destroy browser_env c w1)) = transports demo_world /\
    transportRefs (snd (destroy browser_env c w1)) = transportRefs demo_world.
Proof.
  split; [exact demo_registry_sound|].
  destruct (construct_then_destroy_restores_registry browser_env demo_world "j" (VStr "b")
              default_options demo_registry_sound) as (c & w1 & Hnew & _ & Ht & Hr & _).
  exists c, w1. split; [exact Hnew|]. split; [exact Ht|exact Hr].
Defined.

Lemma destroy_releases_one_reference_witness :
  channel_objs siblings_world !! 0%nat = Some first_sibling /\
  transports siblings_world !! "xts" = Some 0%nat /\
  transportRefs siblings_world !! "xts" = Some (Fin 2) /\
  transportRefs (snd (destroy browser_env 0 siblings_world)) !! "xts" = Some (Fin 1) /\
  destroyed (trace (snd (destroy browser_env 0 siblings_world)))
  = destroyed (trace siblings_world).
Proof.
  split; [reflexivity|]. split; [reflexivity|]. split; [reflexivity|].
  destruct (destroy_releases_one_reference browser_env siblings_world 0 first_sibling 0 2
              eq_refl eq_refl) as (_ & Hmany & _);
    [eexists; reflexivity|reflexivity|lia|].
  destruct (Hmany ltac:(lia)) as (Hr & _ & _ & Hd). split; [exact Hr|exact Hd].
Defined.

Lemma demo_listens : listens_on 0 0 demo_world.
Proof.
  split; [exists demo_channel; split; reflexivity|].
  intros t' tr' Hne.
  change (transport_objs demo_world) with [mkTransport TNative "xts" [LChan 0] false].
  destruct t' as [|t']; [contradiction|]. destruct t'; discriminate.
Qed.

Lemma destroyed_channel_hears_nothing_witness :
  listens_on 0 0 demo_world /\
  (forall v, ASetValue 0 v ∉ [ABcMessage 0 (envelope (VStr "r") "k" "other-tab" 5)]) /\
  fst (getValue 0
         (run browser_env [ABcMessage 0 (envelope (VStr "r") "k" "other-tab" 5)]
            (snd (destroy browser_env 0 demo_world))))
  = fst (getValue 0 demo_world).
Proof.
  assert (Hacts : forall v,
            ASetValue 0 v ∉ [ABcMessage 0 (envelope (VStr "r") "k" "other-tab" 5)]).
  { intros v Hin. apply elem_of_cons in Hin as [Hin|Hin]; [discriminate|]. inversion Hin. }
  split; [exact demo_listens|]. split; [exact Hacts|].
  destruct (destroyed_channel_hears_nothing browser_env demo_world 0 0
              [ABcMessage 0 (envelope (VStr "r") "k" "other-tab" 5)] demo_listens)
    as (_ & _ & _ & Hval).
  exact (Hval Hacts).
Defined.

Lemma other_transport_leaves_channel_alone_witness :
  channel_objs two_names_world !! 1%nat = Some other_name_channel /\
  transport_objs two_names_world !! 0%nat = Some (mkTransport TNative "xts" [LChan 0] false) /\
  channel_objs
    (snd (bc_message browser_env 0 (envelope (VStr "r") "k" "other-tab" 5) two_names_world))
    !! 1%nat
  = Some other_name_channel.
Proof.
  split; [reflexivity|]. split; [reflexivity|].
  destruct (other_transport_leaves_channel_alone browser_env two_names_world 1
              other_name_channel 0 eq_refl) as (Hbc & _).
  - change (transport_objs two_names_world !! 0%nat)
      with (Some (mkTransport TNative "xts" [LChan 0] false)).
    intros tr [= <-] Hin. simpl in Hin.
    apply elem_of_cons in Hin as [Hin|Hin]; [discriminate|inversion Hin].
  - apply (Hbc (envelope (VStr "r") "k" "other-tab" 5)).
Defined.

Lemma server_side_touches_no_storage_witness :
  has_window server_env = false /\
  localStorage
    (run server_env
       [ANew "k" (VStr "a") persist_options; ASetValue 0 (VStr "x"); ADestroy 0]
       (world_with "xts-k" "old"))
  = localStorage (world_with "xts-k" "old").
Proof.
  split; [reflexivity|].
  destruct (server_side_touches_no_storage server_env (world_with "xts-k" "old")
              [ANew "k" (VStr "a") persist_options; ASetValue 0 (VStr "x"); ADestroy 0]
              eq_refl) as (Hl & _).
  exact Hl.
Defined.

Lemma hook_paired_demo :
  hook_paired [HGet "k" (VStr "a") None; HGet "k" (VStr "b") None; HRelease "k" None].
Proof.
  intros i ck. destruct i as [|[|[|[|i]]]]; cbn -[String.eqb channelKey_of];
    destruct (String.eqb (channelKey_of None "k") ck); cbn; lia.
Qed.

Lemma hook_channels_counted_by_holders_witness :
  hook_paired [HGet "k" (VStr "a") None; HGet "k" (VStr "b") None; HRelease "k" None] /\
  refs (hook_run browser_env
          [HGet "k" (VStr "a") None; HGet "k" (VStr "b") None; HRelease "k" None]
          (hook_world (init_world 0))) !! "xts-k"
  = Some (Fin 1) /\
  exists c,
    channels (hook_run browser_env
                [HGet "k" (VStr "a") None; HGet "k" (VStr "b") None; HRelease "k" None]
                (hook_world (init_world 0))) !! "xts-k" = Some c /\
    channels (snd (releaseChannel browser_env "k" None
                     (hook_run browser_env
                        [HGet "k" (VStr "a") None; HGet "k" (VStr "b") None;
                         HRelease "k" None]
                        (hook_world (init_world 0))))) !! "xts-k" = None.
Proof.
  split; [exact hook_paired_demo|].
  destruct (hook_channels_counted_by_holders browser_env
              [HGet "k" (VStr "a") None; HGet "k" (VStr "b") None; HRelease "k" None]
              (hook_world (init_world 0)) "k" None eq_refl eq_refl hook_paired_demo)
    as (Hpos & _ & _ & _ & Hlast).
  split.
  - destruct (Hpos ltac:(reflexivity)) as [Hr _]. exact Hr.
  - destruct (Hlast eq_refl) as (c & Hc & _ & _ & Hgone). exists c. split; [exact Hc|exact Hgone].
Defined.

Lemma getChannel_shares_by_composite_key_witness :
  let o1 := Some (mkOptions (Some "a-b") false None None) in
  let o2 := Some (mkOptions (Some "a") true None None) in
  channelKey_of (channelName_of o1) "c" = channelKey_of (channelName_of o2) "b-c" /\
  exists c h1 h2,
    getChannel browser_env "c" (VStr "one") o1 (hook_world (init_world 0)) = (Ret c, h1) /\
    getChannel browser_env "b-c" (VStr "two") o2 h1 = (Ret c, h2) /\
    core h2 = core h1.
Proof.
  split; [reflexivity|].
  destruct (getChannel_shares_by_composite_key browser_env (hook_world (init_world 0))
              "c" (VStr "one") (Some (mkOptions (Some "a-b") false None None))
              "b-c" (VStr "two") (Some (mkOptions (Some "a") true None None)) eq_refl)
    as (c & h1 & h2 & H1 & H2 & Hcore & _).
  exists c, h1, h2. split; [exact H1|]. split; [exact H2|exact Hcore].
Defined.

Lemma one_site_sound : hook_sound (channelKey_of (channelName_of (optionsRef site_refs)) "k") one_site.
Proof. left. split; reflexivity. Qed.

Lemma mount_adopts_channel_value_witness :
  has_window browser_env = true /\
  hook_refs one_site !! 0%nat = Some site_refs /\
  hook_sound (channelKey_of (channelName_of (optionsRef site_refs)) "k") one_site /\
  exists c v h1,
    effect_mount browser_env 0 "k" (VStr "a") 5 one_site
    = (Ret (Some (mkCleanup 0 "k" c 5)), h1) /\
    setState_calls h1 = setState_calls one_site ++ [(0%nat, v)] /\
    last (trace (core h1)) = Some (EvSub c 5 v).
Proof.
  split; [reflexivity|]. split; [reflexivity|]. split; [exact one_site_sound|].
  destruct (mount_adopts_channel_value browser_env one_site 0 site_refs "k" (VStr "a") 5
              eq_refl eq_refl one_site_sound)
    as (c & v & h1 & Hm & _ & _ & _ & Hst & Hlast & _).
  exists c, v, h1. split; [exact Hm|]. split; [exact Hst|exact Hlast].
Defined.

Lemma mount_then_cleanup_restores_registry_witness :
  has_window browser_env = true /\
  hook_refs one_site !! 0%nat = Some site_refs /\
  hook_sound (channelKey_of (channelName_of (optionsRef site_refs)) "k") one_site /\
  exists k h1,
    effect_mount browser_env 0 "k" (VStr "a") 5 one_site = (Ret (Some k), h1) /\
    channels (snd (effect_cleanup browser_env k h1)) = channels one_site /\
    refs (snd (effect_cleanup browser_env k h1)) = refs one_site.
Proof.
  split; [reflexivity|]. split; [reflexivity|]. split; [exact one_site_sound|].
  destruct (mount_then_cleanup_restores_registry browser_env one_site 0 site_refs "k"
              (VStr "a") 5 eq_refl eq_refl one_site_sound)
    as (k & h1 & Hm & _ & Hc & Hr & _).
  exists k, h1. split; [exact Hm|]. split; [exact Hc|exact Hr].
Defined.

Lemma cleanup_after_options_change_keeps_reference_witness :
  has_window browser_env = true /\
  hook_refs one_site !! 0%nat = Some site_refs /\
  hook_sound (channelKey_of (channelName_of (optionsRef site_refs)) "k") one_site /\
  channelKey_of (channelName_of (Some other_options)) "k"
  <> channelKey_of (channelName_of (optionsRef site_refs)) "k" /\
  exists k h1,
    effect_mount browser_env 0 "k" (VStr "a") 5 one_site = (Ret (Some k), h1) /\
    refs (snd (effect_cleanup browser_env k
                 (snd (effect_options 0 (Some other_options) h1)))) !! "xts-k"
    = Some (Fin 1).
Proof.
  assert (Hne : channelKey_of (channelName_of (Some other_options)) "k"
                <> channelKey_of (channelName_of (optionsRef site_refs)) "k") by discriminate.
  split; [reflexivity|]. split; [reflexivity|]. split; [exact one_site_sound|].
  split; [exact Hne|].
  destruct (cleanup_after_options_change_keeps_reference browser_env one_site 0 site_refs "k"
              (VStr "a") 5 (Some other_options) eq_refl eq_refl one_site_sound Hne)
    as (k & h1 & k0 & Hm & Hk0 & _ & Hr & _).
  exists k, h1. split; [exact Hm|].
  change (num_or_0 (refs one_site !! "xts-k")) with (Fin 0) in Hk0. injection Hk0 as <-.
  exact Hr.
Defined.

Lemma hooks_of_one_key_share_updates_witness :
  hook_refs two_sites !! 0%nat = Some site_refs /\
  hook_refs two_sites !! 1%nat = Some site_refs /\
  channels two_sites !! "xts-k" = None /\
  exists c k1 h1 k2 h2,
    effect_mount browser_env 0 "k" (VStr "a") 5 two_sites = (Ret (Some k1), h1) /\
    effect_mount browser_env 1 "k" (VStr "b") 6 h1 = (Ret (Some k2), h2) /\
    fst (getValue c (core (snd (hook_setValue browser_env 0 (ArgValue (VStr "x")) h2))))
    = Ret (VStr "x") /\
    calls_of c 6
      (new_events (core h2)
         (core (snd (hook_setValue browser_env 0 (ArgValue (VStr "x")) h2))))
    = [VStr "x"].
Proof.
  split; [reflexivity|]. split; [reflexivity|]. split; [reflexivity|].
  destruct (hooks_of_one_key_share_updates browser_env two_sites 0 1 site_refs site_refs "k"
              (VStr "a") (VStr "b") 5 6 (VStr "x") eq_refl eq_refl eq_refl)
    as (c & k1 & h1 & k2 & h2 & Hm1 & Hm2 & _ & _ & _ & _ & _ & _ & Hval & _ & Hcalls);
    first [discriminate | reflexivity | idtac].
  exists c, k1, h1, k2, h2. split; [exact Hm1|]. split; [exact Hm2|].
  split; [exact Hval|exact Hcalls].
Defined.

Lemma fallback_late_joiner_adopts_last_envelope_witness :
  exists c w',
    new_CrossTabChannel fallback_env "k" (VStr "b") default_options written_world = (Ret c, w') /\
    getValue c w' = (Ret (VStr "x"), w') /\
    sub_calls c (new_events written_world w') = [].
Proof.
  assert (Ht : transports written_world !! "xts" = Some 0%nat) by (vm_compute; reflexivity).
  assert (Ho : transport_objs written_world !! 0%nat
               = Some (mkTransport TFallback "xts" [LChan 0] false)) by (vm_compute; reflexivity).
  apply (fallback_late_joiner_adopts_last_envelope fallback_env written_world "k" (VStr "b")
           default_options (JSON.print written_envelope) written_envelope).
  - reflexivity.
  - reflexivity.
  - intros t tr H1 H2. change (channel_name_of default_options) with "xts" in H1.
    rewrite Ht in H1. injection H1 as <-. rewrite Ho in H2. injection H2 as <-.
    split; reflexivity.
  - intros t H1. change (channel_name_of default_options) with "xts" in H1.
    rewrite Ht in H1. injection H1 as <-. rewrite Ho. eexists; reflexivity.
  - reflexivity.
  - vm_compute; reflexivity.
  - vm_compute; reflexivity.
  - vm_compute; reflexivity.
  - reflexivity.
  - discriminate.
Defined.
